(** * har: an HTTP round tripper that records exchanges as a HAR archive

    A shallow embedding of [writers.go] and [round_tripper.go] of
    github.com/aidansteele/har, and the properties of the archive they
    produce.

    Go strings and byte slices are sequences of bytes: they are modelled by
    [string] (a list of 8-bit [ascii]).  Methods of a Go type live in a module
    named after the type. *)

From Stdlib Require Import String Ascii List ZArith Lia Bool Permutation.
Import ListNotations.

#[local] Set Warnings "-register-all".

Open Scope list_scope.
Open Scope string_scope.

(* ================================================================== *)
(** * Part I.  Definitions                                             *)
(* ================================================================== *)

(** ** Bytes and text *)

(** The double quote and the line feed, by their codes. *)
Definition dquote : ascii := "034"%char.
Definition LF : string := String "010" "".

(** [quoted s] is [s] between double quotes. *)
Definition quoted (s : string) : string :=
  String dquote (s ++ String dquote "").

(** [strings.HasPrefix(s, p)]. *)
Definition HasPrefix (s p : string) : bool := String.prefix p s.

(** [strings.Join], on byte strings. *)
Fixpoint Join (elems : list string) (sep : string) : string :=
  match elems with
  | [] => ""
  | [e] => e
  | e :: rest => e ++ sep ++ Join rest sep
  end.

(** ** Errors *)

(** A Go [error] value: either a plain message ([errors.New], [fmt.Errorf]
    without [%w]) or an error wrapped behind a message
    ([fmt.Errorf("msg: %w", err)]). *)
Inductive error : Type :=
| errorString (msg : string)
| wrapError (msg : string) (cause : error).

(** ** The output sink ([io.Writer])

    A sink is known by the bytes it has accepted so far and by the outcomes
    of its coming [Write] calls: [None] accepts the whole slice; [Some (k, e)]
    accepts at most [k] bytes of it and returns [e].  When the script is
    exhausted every further call succeeds (a [bytes.Buffer] has the empty
    script). *)
Record Sink : Type := mkSink {
  written : string;
  script : list (option (nat * error))
}.

Definition firstn_bytes (k : nat) (p : string) : string := substring 0 k p.

Definition sink_Write (w : Sink) (p : string) : Sink * option error :=
  match script w with
  | [] => (mkSink (written w ++ p) [], None)
  | None :: later => (mkSink (written w ++ p) later, None)
  | Some (k, e) :: later => (mkSink (written w ++ firstn_bytes k p) later, Some e)
  end.

(** A [bytes.Buffer] holding [b]. *)
Definition Buffer (b : string) : Sink := mkSink b [].

(** ** JSON texts (RFC 8259)

    [encoding/json] is a trusted utility of the program; to say that the
    archive "parses as JSON" the development carries its own reader. *)

Inductive json : Type :=
| JNull
| JBool (b : bool)
| JNumber (lexeme : string)
| JString (lexeme : string)
| JArray (elems : list json)
| JObject (members : list (string * json)).

Definition is_ws (c : ascii) : bool :=
  existsb (Ascii.eqb c) [" "; "009"; "010"; "013"]%char.

Definition is_digit (c : ascii) : bool :=
  let n := nat_of_ascii c in (48 <=? n)%nat && (n <=? 57)%nat.

Definition is_hex (c : ascii) : bool :=
  let n := nat_of_ascii c in
  is_digit c || ((65 <=? n)%nat && (n <=? 70)%nat) || ((97 <=? n)%nat && (n <=? 102)%nat).

Definition is_control (c : ascii) : bool := (nat_of_ascii c <? 32)%nat.

Fixpoint skip_ws (s : string) : string :=
  match s with
  | String c r => if is_ws c then skip_ws r else s
  | "" => ""
  end.

(** [strip_prefix p s] is what follows [p] in [s]. *)
Fixpoint strip_prefix (p s : string) : option string :=
  match p, s with
  | "", _ => Some s
  | String a p', String b s' => if Ascii.eqb a b then strip_prefix p' s' else None
  | String _ _, "" => None
  end.

(** The scanner of a string's characters, after its opening quote. *)
Inductive str_state : Type :=
| InText
| AfterBackslash
| InHex (left : nat).

(** [scan_string st s] reads to the closing quote: the lexeme read (escapes
    are checked, not decoded) and what follows the quote. *)
Fixpoint scan_string (st : str_state) (s : string) : option (string * string) :=
  match s with
  | "" => None
  | String c r =>
      let keep st' :=
        match scan_string st' r with
        | Some (lex, rest) => Some (String c lex, rest)
        | None => None
        end in
      match st with
      | InText =>
          if Ascii.eqb c dquote then Some ("", r)
          else if Ascii.eqb c "\" then keep AfterBackslash
          else if is_control c then None
          else keep InText
      | AfterBackslash =>
          if Ascii.eqb c "u" then keep (InHex 4)
          else if existsb (Ascii.eqb c)
                    [dquote; "\"; "/"; "b"; "f"; "n"; "r"; "t"]%char
               then keep InText
          else None
      | InHex n =>
          if is_hex c
          then keep (match n with 1 | 0 => InText | S m => InHex m end)
          else None
      end
  end.

(** The longest run of digits at the head of [s]. *)
Fixpoint span_digits (s : string) : string * string :=
  match s with
  | String c r =>
      if is_digit c
      then let (ds, rest) := span_digits r in (String c ds, rest)
      else ("", s)
  | "" => ("", "")
  end.

(** [next_is c s] is what follows [c] when [s] starts with it. *)
Definition next_is (c : ascii) (s : string) : option string :=
  match s with
  | String d r => if Ascii.eqb d c then Some r else None
  | "" => None
  end.

(** [int = zero / ( digit1-9 *DIGIT )] *)
Definition scan_int (s : string) : option (string * string) :=
  match s with
  | String c r =>
      if Ascii.eqb c "0" then Some ("0", r)
      else if is_digit c
      then let (ds, rest) := span_digits r in Some (String c ds, rest)
      else None
  | "" => None
  end.

(** One or more digits, written after [mark]. *)
Definition scan_digits1 (mark : string) (r : string) : option (string * string) :=
  match span_digits r with
  | ("", _) => None
  | (ds, rest) => Some (mark ++ ds, rest)
  end.

(** [frac = decimal-point 1*DIGIT], optional. *)
Definition scan_frac (s : string) : option (string * string) :=
  match next_is "." s with
  | Some r => scan_digits1 "." r
  | None => Some ("", s)
  end.

(** [exp = e [ minus / plus ] 1*DIGIT], optional. *)
Definition scan_exp (s : string) : option (string * string) :=
  match s with
  | String c r =>
      if Ascii.eqb c "e" || Ascii.eqb c "E" then
        match next_is "+" r, next_is "-" r with
        | Some r', _ => scan_digits1 (String c "+") r'
        | None, Some r' => scan_digits1 (String c "-") r'
        | None, None => scan_digits1 (String c "") r
        end
      else Some ("", s)
  | "" => Some ("", "")
  end.

(** [number = [ minus ] int [ frac ] [ exp ]]: its lexeme and the rest. *)
Definition scan_number (s : string) : option (string * string) :=
  let (sign, s1) :=
    match next_is "-" s with
    | Some r => ("-", r)
    | None => ("", s)
    end in
  match scan_int s1 with
  | None => None
  | Some (i, s2) =>
      match scan_frac s2 with
      | None => None
      | Some (f, s3) =>
          match scan_exp s3 with
          | None => None
          | Some (e, s4) => Some (sign ++ i ++ f ++ e, s4)
          end
      end
  end.

(** The reader proper, one level at a time: a value, the elements of an
    array after its bracket, the members of an object after its brace.  A
    value's leading white space is skipped; what follows it is returned. *)
Definition value_step
    (members : string -> option (list (string * json) * string))
    (elements : string -> option (list json * string))
    (s : string) : option (json * string) :=
  match skip_ws s with
  | "" => None
  | String c r =>
      if Ascii.eqb c "{" then
        match next_is "}" (skip_ws r) with
        | Some r' => Some (JObject [], r')
        | None =>
            match members r with
            | Some (ms, r') => Some (JObject ms, r')
            | None => None
            end
        end
      else if Ascii.eqb c "[" then
        match next_is "]" (skip_ws r) with
        | Some r' => Some (JArray [], r')
        | None =>
            match elements r with
            | Some (vs, r') => Some (JArray vs, r')
            | None => None
            end
        end
      else if Ascii.eqb c dquote then
        match scan_string InText r with
        | Some (lex, r') => Some (JString lex, r')
        | None => None
        end
      else if Ascii.eqb c "t" then
        option_map (pair (JBool true)) (strip_prefix "rue" r)
      else if Ascii.eqb c "f" then
        option_map (pair (JBool false)) (strip_prefix "alse" r)
      else if Ascii.eqb c "n" then
        option_map (pair JNull) (strip_prefix "ull" r)
      else
        match scan_number (String c r) with
        | Some (lex, r') => Some (JNumber lex, r')
        | None => None
        end
  end.

Definition elements_step
    (value : string -> option (json * string))
    (elements : string -> option (list json * string))
    (s : string) : option (list json * string) :=
  match value s with
  | None => None
  | Some (v, r) =>
      match next_is "," (skip_ws r), next_is "]" (skip_ws r) with
      | Some r', _ =>
          match elements r' with
          | Some (vs, r'') => Some (v :: vs, r'')
          | None => None
          end
      | None, Some r' => Some ([v], r')
      | None, None => None
      end
  end.

Definition members_step
    (value : string -> option (json * string))
    (members : string -> option (list (string * json) * string))
    (s : string) : option (list (string * json) * string) :=
  match next_is dquote (skip_ws s) with
  | None => None
  | Some r =>
      match scan_string InText r with
      | None => None
      | Some (key, r1) =>
          match next_is ":" (skip_ws r1) with
          | None => None
          | Some r2 =>
              match value r2 with
              | None => None
              | Some (v, r3) =>
                  match next_is "," (skip_ws r3), next_is "}" (skip_ws r3) with
                  | Some r4, _ =>
                      match members r4 with
                      | Some (ms, r5) => Some ((key, v) :: ms, r5)
                      | None => None
                      end
                  | None, Some r4 => Some ([(key, v)], r4)
                  | None, None => None
                  end
              end
          end
      end
  end.

(** [fuel] bounds the depth of the calls. *)
Fixpoint parse_value (fuel : nat) (s : string) {struct fuel} : option (json * string) :=
  match fuel with
  | O => None
  | S f => value_step (parse_members f) (parse_elements f) s
  end

with parse_elements (fuel : nat) (s : string) {struct fuel} : option (list json * string) :=
  match fuel with
  | O => None
  | S f => elements_step (parse_value f) (parse_elements f) s
  end

with parse_members (fuel : nat) (s : string) {struct fuel} : option (list (string * json) * string) :=
  match fuel with
  | O => None
  | S f => members_step (parse_value f) (parse_members f) s
  end.

(** The fuel a text is read with: a level of nesting takes a byte and two
    calls, an element or a member after the first at least two bytes and one
    call. *)
Definition json_fuel (s : string) : nat := 2 * String.length s + 2.

(** [parse_json s] is the value of the JSON text [s]: one value, with white
    space allowed around it and nothing else. *)
Definition parse_json (s : string) : option json :=
  match parse_value (json_fuel s) s with
  | Some (v, r) => match skip_ws r with "" => Some v | _ => None end
  | None => None
  end.

(** *** Notions of the proofs about the reader *)

(** The bytes that cannot continue a number: a text that ends in a number
    can be followed by any of them. *)
Definition number_stop (c : ascii) : bool :=
  negb (is_digit c || Ascii.eqb c "." || Ascii.eqb c "e" || Ascii.eqb c "E").

Definition tail_ok (t : string) : Prop :=
  match t with
  | "" => True
  | String c _ => number_stop c = true
  end.

(** [e] is read as [v] with fuel [G], up to trailing white space. *)
Definition reads (G : nat) (e : string) (v : json) : Prop :=
  exists r, parse_value G e = Some (v, r) /\ skip_ws r = "".

(** A name that is written between quotes as it is. *)
Definition plain (key : string) : Prop :=
  scan_string InText (key ++ String dquote "") = Some (key, "").

(** ** [encoding/json]'s raw messages

    A [json.RawMessage] is a byte slice, and a slice may be [nil]: the nil
    slice and the empty slice hold the same (zero) bytes, and differ under
    [== nil]. *)
Definition RawMessage : Type := option string.

Definition raw_bytes (m : RawMessage) : string :=
  match m with
  | Some b => b
  | None => ""
  end.

(** ** Package [time]

    A [time.Time] is a wall-clock instant, in nanoseconds since the zero
    instant (January 1, year 1, 00:00 UTC), with the reading of the monotonic
    clock when it has one ([time.Now] gives one, the zero value has none). *)
Module GoTime.

Record t : Type := mk {
  wall : Z;
  mono : option Z
}.

Definition zero : t := mk 0 None.

(** [t.IsZero()] *)
Definition IsZero (x : t) : bool := (wall x =? 0)%Z.

Definition maxDuration : Z := (2 ^ 63 - 1)%Z.
Definition minDuration : Z := (- 2 ^ 63)%Z.

Definition saturate (d : Z) : Z :=
  if (d <? minDuration)%Z then minDuration
  else if (maxDuration <? d)%Z then maxDuration
  else d.

(** [t.Sub(u)]: the difference of the monotonic readings when both instants
    have one, of the wall clocks otherwise; out of range, the nearest
    [time.Duration]. *)
Definition Sub (x u : t) : Z :=
  match mono x, mono u with
  | Some mx, Some mu => saturate (mx - mu)
  | _, _ => saturate (wall x - wall u)
  end.

(** [x] is no later than [y], on the clock [Sub] compares them by. *)
Definition le (x y : t) : Prop :=
  match mono y, mono x with
  | Some my, Some mx => (mx <= my)%Z
  | _, _ => (wall x <= wall y)%Z
  end.

End GoTime.

(** ** Package [net/url] *)
Module url.

(** [url.Values], a [map[string][]string]: a list of bindings with distinct
    keys.  The order of the list is not the order of iteration (see
    [range] below). *)
Definition Values : Type := list (string * list string).

Fixpoint Values_get (m : Values) (key : string) : list string :=
  match m with
  | [] => []
  | (k, vs) :: rest => if String.eqb k key then vs else Values_get rest key
  end.

(** [m[key] = append(m[key], vs...)] *)
Fixpoint Values_append (m : Values) (key : string) (vs : list string) : Values :=
  match m with
  | [] => [(key, vs)]
  | (k, old) :: rest =>
      if String.eqb k key then (k, (old ++ vs)%list) :: rest
      else (k, old) :: Values_append rest key vs
  end.

Definition unhex (c : ascii) : nat :=
  let n := nat_of_ascii c in
  if is_digit c then n - 48
  else if (97 <=? n)%nat then n - 97 + 10
  else n - 65 + 10.

(** [url.QueryUnescape]: [%XX] is the byte XX, [+] a space; a [%] that two
    hexadecimal digits do not follow is an [EscapeError] ([None] here; its
    message, which quotes the escape, is shortened in [parseQuery_step]). *)
Fixpoint QueryUnescape (s : string) : option string :=
  match s with
  | "" => Some ""
  | String "%" r =>
      match r with
      | String h1 r1 =>
          match r1 with
          | String h2 r2 =>
              if is_hex h1 && is_hex h2 then
                match QueryUnescape r2 with
                | Some t => Some (String (ascii_of_nat (unhex h1 * 16 + unhex h2)) t)
                | None => None
                end
              else None
          | "" => None
          end
      | "" => None
      end
  | String "+" r => option_map (String " ") (QueryUnescape r)
  | String c r => option_map (String c) (QueryUnescape r)
  end.

(** [strings.Cut(s, sep)] for a one-byte separator: before, after, found. *)
Fixpoint Cut (s : string) (sep : ascii) : string * string * bool :=
  match s with
  | "" => ("", "", false)
  | String c r =>
      if Ascii.eqb c sep then ("", r, true)
      else let '(before, after, found) := Cut r sep in (String c before, after, found)
  end.

Fixpoint contains (s : string) (c : ascii) : bool :=
  match s with
  | "" => false
  | String d r => Ascii.eqb d c || contains r c
  end.

(** The pieces of a query between its [&]s. *)
Fixpoint split_amp (s : string) (piece : string) : list string :=
  match s with
  | "" => [piece]
  | String c r =>
      if Ascii.eqb c "&" then piece :: split_amp r ""
      else split_amp r (piece ++ String c "")
  end.

(** One turn of [parseQuery]'s loop, on the piece [key]. *)
Definition parseQuery_step (acc : Values * option error) (key : string)
  : Values * option error :=
  let (m, err) := acc in
  if contains key ";" then (m, Some (errorString "invalid semicolon separator in query"))
  else if String.eqb key "" then (m, err)
  else
    let '(k, v, _) := Cut key "=" in
    match QueryUnescape k with
    | None =>
        (m, match err with None => Some (errorString "invalid URL escape") | e => e end)
    | Some k' =>
        match QueryUnescape v with
        | None =>
            (m, match err with None => Some (errorString "invalid URL escape") | e => e end)
        | Some v' => (Values_append m k' [v'], err)
        end
    end.

(** [url.ParseQuery(query)]: the values read, and the error met if any. *)
Definition ParseQuery (query : string) : Values * option error :=
  match query with
  | "" => ([], None)
  | _ => fold_left parseQuery_step (split_amp query "") ([], None)
  end.

Record URL : Type := mkURL {
  RawQuery : string;
  (** what [u.String()] returns *)
  String_ : string
}.

(** [u.Query()]: the query parsed, errors dropped. *)
Definition Query (u : URL) : Values := fst (ParseQuery (RawQuery u)).

End url.

(** ** Package [encoding/base64] *)
Module base64.

Definition encodeStd : string :=
  "ABCDEFGHIJKLMNOPQRSTUVWXYZabcdefghijklmnopqrstuvwxyz0123456789+/".

Definition digit (n : N) : ascii :=
  match String.get (N.to_nat n) encodeStd with
  | Some c => c
  | None => "="%char
  end.

(** [base64.StdEncoding.EncodeToString]: three bytes give four digits; a
    last group of one or two bytes is padded with [=]. *)
Fixpoint EncodeToString (src : string) : string :=
  match src with
  | "" => ""
  | String a "" =>
      let x := N_of_ascii a in
      String (digit (N.shiftr x 2))
        (String (digit (N.land (N.shiftl x 4) 63)) "==")
  | String a (String b "") =>
      let x := N_of_ascii a in
      let y := N_of_ascii b in
      String (digit (N.shiftr x 2))
        (String (digit (N.lor (N.land (N.shiftl x 4) 63) (N.shiftr y 4)))
           (String (digit (N.land (N.shiftl y 2) 63)) "="))
  | String a (String b (String c rest)) =>
      let x := N_of_ascii a in
      let y := N_of_ascii b in
      let z := N_of_ascii c in
      String (digit (N.shiftr x 2))
        (String (digit (N.lor (N.land (N.shiftl x 4) 63) (N.shiftr y 4)))
           (String (digit (N.lor (N.land (N.shiftl y 2) 63) (N.shiftr z 6)))
              (String (digit (N.land z 63)) (EncodeToString rest))))
  end.

End base64.

(** ** Package [net/http]: the data of a request and of a response *)
Module http.

(** [http.Header], a [map[string][]string] under canonical keys. *)
Definition Header : Type := url.Values.

(** [h.Get(key)], for a key in canonical form: the first value under it, or
    the empty string. *)
Definition Header_Get (h : Header) (key : string) : string :=
  match url.Values_get h key with
  | v :: _ => v
  | [] => ""
  end.

(** An [io.ReadCloser]: the bytes still to be read, how the stream ends after
    them (end of file, or an error), and whether it was closed. *)
Record Reader : Type := mkReader {
  data : string;
  failure : option error;
  isClosed : bool
}.

(** [io.NopCloser(bytes.NewBuffer(b))] *)
Definition NopCloser_Buffer (b : string) : Reader := mkReader b None false.

(** [io.ReadAll(rd)]: what was read, the error met, and the reader left
    behind. *)
Definition ReadAll (rd : Reader) : string * option error * Reader :=
  (data rd, failure rd, mkReader "" (failure rd) (isClosed rd)).

Definition Close (rd : Reader) : Reader := mkReader (data rd) (failure rd) true.

Module Cookie.
Record t : Type := mk {
  Name : string;
  Value : string;
  Path : string;
  Domain : string;
  Expires : GoTime.t;
  HttpOnly : bool;
  Secure : bool
}.
End Cookie.

(** [multipart.FileHeader] and [multipart.Form] *)
Record FileHeader : Type := mkFileHeader {
  Filename : string;
  FileHeader_Header : Header
}.

Record MultipartForm : Type := mkMultipartForm {
  Form_Value : url.Values;
  Form_File : list (string * list FileHeader)
}.

Module Request.
(** [GetBody] is a function value: [None] is the nil function, and a call
    of it returns a fresh reader or an error. *)
Record t : Type := mk {
  Method : string;
  URL : url.URL;
  Proto : string;
  Header : http.Header;
  Body : option Reader;
  GetBody : option (Reader + error);
  Form : option url.Values;
  PostForm : option url.Values;
  MultipartForm : option http.MultipartForm
}.

Definition with_Body (r : t) (b : option Reader) : t :=
  mk (Method r) (URL r) (Proto r) (Header r) b (GetBody r)
     (Form r) (PostForm r) (MultipartForm r).

Definition with_forms (r : t) (form postForm : option url.Values) : t :=
  mk (Method r) (URL r) (Proto r) (Header r) (Body r) (GetBody r)
     form postForm (MultipartForm r).

Definition with_MultipartForm (r : t) (f : option http.MultipartForm) : t :=
  mk (Method r) (URL r) (Proto r) (Header r) (Body r) (GetBody r)
     (Form r) (PostForm r) f.
End Request.

Module Response.
Record t : Type := mk {
  Status : string;
  StatusCode : Z;
  Proto : string;
  Header : http.Header;
  Body : Reader;
  ContentLength : Z
}.

Definition with_Body (r : t) (b : Reader) : t :=
  mk (Status r) (StatusCode r) (Proto r) (Header r) b (ContentLength r).
End Response.

End http.

(** ** The archive's data (the HAR schema)

    The type declarations are not among the sources; the records below hold
    the fields [round_tripper.go] assigns, under the names it uses.  A pointer
    field is an [option]. *)

(** Modelled from the spec: the declaration of [Duration] is missing; it is
    converted from [time.Duration] (a count of nanoseconds) and the "not
    measured" sentinel is written [-1]. *)
Definition Duration : Type := Z.

Module Creator.
Record t : Type := mk { Name : string; Version : string }.
End Creator.

Module NVP.
Record t : Type := mk { Name : string; Value : string }.
End NVP.

Module Cookie.
Record t : Type := mk {
  Name : string;
  Value : string;
  Path : string;
  Domain : string;
  Expires : GoTime.t;
  HTTPOnly : bool;
  Secure : bool
}.
End Cookie.

Module Param.
Record t : Type := mk {
  Name : string;
  Value : string;
  FileName : string;
  ContentType : string
}.
End Param.

Module PostData.
Record t : Type := mk {
  MimeType : string;
  Params : list Param.t;
  Text : string
}.
End PostData.

Module Request.
Record t : Type := mk {
  Method : string;
  URL : string;
  HTTPVersion : string;
  Cookies : list Cookie.t;
  Headers : list NVP.t;
  QueryString : list NVP.t;
  PostData : option PostData.t;
  HeadersSize : Z;
  BodySize : Z
}.
End Request.

Module Content.
Record t : Type := mk {
  Size : Z;
  Compression : Z;
  MimeType : string;
  Text : string;
  Encoding : string
}.
End Content.

Module Response.
Record t : Type := mk {
  Status : Z;
  StatusText : string;
  HTTPVersion : string;
  Cookies : list Cookie.t;
  Headers : list NVP.t;
  RedirectURL : string;
  HeadersSize : Z;
  BodySize : Z;
  Content : option Content.t
}.
End Response.

Module Timings.
Record t : Type := mk {
  Blocked : Duration;
  DNS : Duration;
  Connect : Duration;
  Send : Duration;
  Wait : Duration;
  Receive : Duration;
  SSL : Duration
}.
End Timings.

Module Entry.
Record t : Type := mk {
  StartedDateTime : GoTime.t;
  Time : Duration;
  Request : option Request.t;
  Response : option Response.t;
  Timings : option Timings.t
}.

(** [&Entry{}] *)
Definition empty : t := mk GoTime.zero 0%Z None None None.
End Entry.

(** ** The timing tracer

    The tracer's file is not among the sources; the record has the fields
    [postRoundTrip] reads.  The transport fires the hooks of
    [httptrace.ClientTrace] as it goes, and each hook stamps its field. *)
Record clientTracer : Type := mkTracer {
  startAt : GoTime.t;
  connStart : GoTime.t;
  connObtained : GoTime.t;
  firstResponseByte : GoTime.t;
  dnsStart : GoTime.t;
  dnsEnd : GoTime.t;
  tlsHandshakeStart : GoTime.t;
  tlsHandshakeEnd : GoTime.t;
  writeRequest : GoTime.t;
  endAt : GoTime.t
}.

(** Modelled from the spec: [newClientTracer] is missing; the tracer it
    returns has recorded the request start ("request start" is the first of
    the timestamps of section 4.2) and nothing else. *)
Definition newClientTracer (now : GoTime.t) : clientTracer :=
  mkTracer now GoTime.zero GoTime.zero GoTime.zero GoTime.zero GoTime.zero
           GoTime.zero GoTime.zero GoTime.zero GoTime.zero.

Definition with_endAt (tr : clientTracer) (now : GoTime.t) : clientTracer :=
  mkTracer (startAt tr) (connStart tr) (connObtained tr) (firstResponseByte tr)
           (dnsStart tr) (dnsEnd tr) (tlsHandshakeStart tr) (tlsHandshakeEnd tr)
           (writeRequest tr) now.

(** ** The transport and the rewrite hook *)

(** An [http.RoundTripper]: given the request, whose context carries the
    tracer, it returns a response and an error (either may be nil), and the
    tracer as the hooks it fired left it. *)
Definition Transport : Type :=
  http.Request.t -> clientTracer ->
  option http.Response.t * option error * clientTracer.

Definition RewriteHook : Type :=
  http.Request.t -> http.Response.t -> RawMessage -> RawMessage.

Module Options.
(** [type Options struct { Rewrite func(...) json.RawMessage; Creator *Creator }] *)
Record t : Type := mk {
  Rewrite : option RewriteHook;
  Creator : option Creator.t
}.
End Options.

(** ** What the program takes from the Go runtime and library

    [encoding/json], [mime], the multipart reader and the cookie readers are
    trusted utilities: the model is stated over any behaviour of theirs.
    The iteration order of a map is not specified: [range A m] is the order
    the bindings of [m] are visited in, some permutation of them. *)
Class GoRuntime : Type := {
  (** [json.Marshal(creator)]; it cannot fail on a [*Creator] *)
  Marshal_Creator : option Creator.t -> string;
  (** [json.Marshal(entry)]: the bytes, nil when it fails *)
  Marshal_Entry : Entry.t -> RawMessage;
  (** [mime.ParseMediaType(v)]: the media type and the error (the
      parameters are not used) *)
  ParseMediaType : string -> string * option error;
  (** what [r.ParseMultipartForm(10 * 1024 * 1024)] reads, or its error *)
  ParseMultipartForm : http.Request.t -> http.MultipartForm + error;
  (** [r.Cookies()] and [resp.Cookies()] *)
  Request_Cookies : http.Header -> list http.Cookie.t;
  Response_Cookies : http.Header -> list http.Cookie.t;
  (** [http.DefaultTransport] *)
  DefaultTransport : Transport;
  (** the successive readings of [time.Now()] *)
  clock : nat -> GoTime.t;
  range : forall A : Type, list (string * A) -> list (string * A);
  range_Permutation : forall (A : Type) (m : list (string * A)), Permutation (range A m) m
}.

Arguments range {_} {A} m.

(** What is observed of a run besides its results: how many times the clock
    was read, and the requests handed to the inner transport, latest
    first. *)
Record World : Type := mkWorld {
  ticks : nat;
  sent : list http.Request.t
}.

(** ** Package [net/http]: reading a form *)
Section Forms.
Context `{GoRuntime}.

Definition maxFormSize : N := 10485760.

Fixpoint split_at (n : N) (s : string) : string * string :=
  match s with
  | "" => ("", "")
  | String c r =>
      if N.eqb n 0 then ("", s)
      else let (a, b) := split_at (N.pred n) r in (String c a, b)
  end.

(** [io.ReadAll(io.LimitReader(rd, n))]: at most [n] bytes; the stream's own
    end is met only when it has fewer. *)
Definition ReadAll_limited (n : N) (rd : http.Reader) : string * option error * http.Reader :=
  let (b, rest) := split_at n (http.data rd) in
  if N.leb n (N.of_nat (String.length b))
  then (b, None, http.mkReader rest (http.failure rd) (http.isClosed rd))
  else (b, http.failure rd, http.mkReader "" (http.failure rd) (http.isClosed rd)).

Definition first_error (err e : option error) : option error :=
  match err with
  | None => e
  | Some _ => err
  end.

(** [parsePostForm(r)]: the request with its body read, the values (a nil
    map when the body is no urlencoded form), the error. *)
Definition parsePostForm (r : http.Request.t)
  : http.Request.t * option url.Values * option error :=
  match http.Request.Body r with
  | None => (r, None, None)
  | Some body =>
      let ct := http.Header_Get (http.Request.Header r) "Content-Type" in
      let ct := if String.eqb ct "" then "application/octet-stream" else ct in
      let (ct, err) := ParseMediaType ct in
      if String.eqb ct "application/x-www-form-urlencoded" then
        let '(b, e, body') := ReadAll_limited (maxFormSize + 1) body in
        let r' := http.Request.with_Body r (Some body') in
        match e with
        | Some _ => (r', None, first_error err e)
        | None =>
            if N.ltb maxFormSize (N.of_nat (String.length b))
            then (r', None, Some (errorString "http: POST too large"))
            else
              let (vs, e) := url.ParseQuery b in
              (r', Some vs, first_error err e)
        end
      else (r, None, err)
  end.

(** [copyValues(dst, src)] *)
Definition copyValues (dst src : url.Values) : url.Values :=
  fold_left (fun d kv => url.Values_append d (fst kv) (snd kv)) (range src) dst.

(** [func (r *Request) ParseForm() error]: a body is read for POST, PUT and
    PATCH only, and only when [PostForm] is still nil. *)
Definition ParseForm (r : http.Request.t) : http.Request.t * option error :=
  let '(r1, postForm, err) :=
    match http.Request.PostForm r with
    | Some pf => (r, pf, None)
    | None =>
        let '(r', pf, err) :=
          if String.eqb (http.Request.Method r) "POST"
             || String.eqb (http.Request.Method r) "PUT"
             || String.eqb (http.Request.Method r) "PATCH"
          then parsePostForm r
          else (r, None, None) in
        (r', match pf with Some m => m | None => [] end, err)
    end in
  match http.Request.Form r1 with
  | Some form => (http.Request.with_forms r1 (Some form) (Some postForm), err)
  | None =>
      let (newValues, e) := url.ParseQuery (url.RawQuery (http.Request.URL r1)) in
      let form :=
        match postForm with
        | [] => newValues
        | _ => copyValues (copyValues [] postForm) newValues
        end in
      (http.Request.with_forms r1 (Some form) (Some postForm), first_error err e)
  end.

End Forms.

(** ** writers.go *)

(** The preamble, in the three slices [NewHarWriter] and [writePreamble]
    write, and the closing [Close] writes. *)
Definition preamble_head : string :=
  "{" ++ quoted "log" ++ ":{" ++ quoted "version" ++ ":" ++ quoted "1.2"
      ++ "," ++ quoted "creator" ++ ":".
Definition preamble_tail : string :=
  "," ++ quoted "entries" ++ ":[" ++ LF.
Definition separator : string := "," ++ LF.
Definition closing : string := LF ++ "]}}".

(** The bytes of a complete archive, and the JSON value they are meant to
    be: [{"log":{"version":"1.2","creator":C,"entries":[E1,...,En]}}]. *)
Definition archive_bytes (creatorJson : string) (entries : list string) : string :=
  preamble_head ++ creatorJson ++ preamble_tail ++ Join entries separator ++ closing.

Definition archive (creator : json) (entries : list json) : json :=
  JObject
    [("log", JObject [("version", JString "1.2");
                      ("creator", creator);
                      ("entries", JArray entries)])].

(** What [entries] add to the sink: each but the very first entry of the
    archive comes after a separator. *)
Fixpoint separated (first : bool) (entries : list string) : string :=
  match entries with
  | [] => ""
  | e :: rest => (if first then "" else separator) ++ e ++ separated false rest
  end.

(** The sink, which held [before], now holds after it the complete archive
    of [entries]: the archive's bytes, which read as the archive's value,
    with one element for each entry, whenever the creator and each entry are
    JSON texts. *)
Definition framed_archive (creatorJson : string) (entries : list string)
    (before now : string) : Prop :=
  exists out : string,
  now = before ++ out /\
  out = archive_bytes creatorJson entries /\
  forall (creator : json) (values : list json),
    parse_json creatorJson = Some creator ->
    Forall2 (fun e v => parse_json e = Some v) entries values ->
    parse_json out = Some (archive creator values) /\
    length values = length entries.

Module HarWriter.

(** [type HarWriter struct { first, closed bool; mut sync.Mutex; writer io.Writer }].
    The mutex makes each method atomic; the model runs the calls one after
    the other, in the order they take the lock. *)
Record t : Type := mk {
  first : bool;
  closed : bool;
  writer : Sink
}.

(** [func NewHarWriter(writer io.Writer, creator *Creator)], returning the
    writer and an error.
    On failure the writer is [nil]; the sink keeps what it accepted. *)
Definition NewHarWriter `{GoRuntime} (writer : Sink) (creator : option Creator.t)
  : option t * option error * Sink :=
  let creatorJson := Marshal_Creator creator in
  match sink_Write writer preamble_head with
  | (w1, Some err) => (None, Some (wrapError "writing preamble" err), w1)
  | (w1, None) =>
      match sink_Write w1 creatorJson with
      | (w2, Some err) => (None, Some (wrapError "writing preamble" err), w2)
      | (w2, None) =>
          match sink_Write w2 preamble_tail with
          | (w3, Some err) => (None, Some (wrapError "writing preamble" err), w3)
          | (w3, None) => (Some (mk true false w3), None, w3)
          end
      end
  end.

(** [func (w *HarWriter) WriteEntry(entry json.RawMessage) error] *)
Definition WriteEntry (w : t) (entry : RawMessage) : t * option error :=
  if closed w then (w, Some (errorString "HarWriter already closed"))
  else
    let after_separator :=
      if negb (first w) then sink_Write (writer w) separator
      else (writer w, None) in
    match after_separator with
    | (s1, Some err) =>
        (mk (first w) (closed w) s1, Some (wrapError "writing har entry" err))
    | (s1, None) =>
        match sink_Write s1 (raw_bytes entry) with
        | (s2, Some err) =>
            (mk false (closed w) s2, Some (wrapError "writing har entry" err))
        | (s2, None) => (mk false (closed w) s2, None)
        end
    end.

(** [func (w *HarWriter) Close() error] *)
Definition Close (w : t) : t * option error :=
  if closed w then (w, Some (errorString "HarWriter already closed"))
  else
    match sink_Write (writer w) closing with
    | (s1, Some err) =>
        (mk (first w) true s1, Some (wrapError "closing har writer" err))
    | (s1, None) => (mk (first w) true s1, None)
    end.

(** [entries] written one after the other, stopping at the first error. *)
Fixpoint WriteEntries (w : t) (entries : list RawMessage) : t * option error :=
  match entries with
  | [] => (w, None)
  | e :: rest =>
      match WriteEntry w e with
      | (w', None) => WriteEntries w' rest
      | (w', Some err) => (w', Some err)
      end
  end.

End HarWriter.

Module HarNDWriter.

(** [type HarNDWriter struct { mut sync.Mutex; writer io.Writer }] *)
Record t : Type := mk { writer : Sink }.

Definition NewHarNDWriter (writer : Sink) : t := mk writer.

(** [func (w *HarNDWriter) WriteEntry(entry json.RawMessage) error] *)
Definition WriteEntry (w : t) (entry : RawMessage) : t * option error :=
  match sink_Write (writer w) (raw_bytes entry) with
  | (s1, Some err) => (mk s1, Some err)
  | (s1, None) =>
      let (s2, err) := sink_Write s1 LF in (mk s2, err)
  end.

End HarNDWriter.

(** [type Writer interface { WriteEntry(entry json.RawMessage) error }], with
    its two implementations. *)
Class Writer (W : Type) : Type := {
  Writer_WriteEntry : W -> RawMessage -> W * option error
}.

#[export] Instance HarWriter_Writer : Writer HarWriter.t :=
  {| Writer_WriteEntry := HarWriter.WriteEntry |}.

#[export] Instance HarNDWriter_Writer : Writer HarNDWriter.t :=
  {| Writer_WriteEntry := HarNDWriter.WriteEntry |}.

(** ** round_tripper.go *)

(** A call returns, or it panics (a nil function is called, a nil pointer is
    dereferenced). *)
Inductive outcome (A : Type) : Type :=
| Returns (a : A)
| Panics (why : string).

Arguments Returns {A} a.
Arguments Panics {A} why.

(** [var DefaultOptions = &Options{...}] *)
Definition DefaultOptions : Options.t :=
  Options.mk
    (Some (fun _ _ entry => entry))
    (Some (Creator.mk "github.com/aidansteele/har" "0.1")).

(** [func toHARCookies(cookies []*http.Cookie) []*Cookie] *)
Definition toHARCookies (cookies : list http.Cookie.t) : list Cookie.t :=
  map (fun cookie =>
         Cookie.mk (http.Cookie.Name cookie) (http.Cookie.Value cookie)
                   (http.Cookie.Path cookie) (http.Cookie.Domain cookie)
                   (http.Cookie.Expires cookie) (http.Cookie.HttpOnly cookie)
                   (http.Cookie.Secure cookie))
      cookies.

Module RoundTripper.
Section WithRuntime.
Context `{GoRuntime}.

(** [type RoundTripper struct { inner http.RoundTripper; opts *Options;
    mut sync.Mutex; first bool; writer io.Writer }] *)
Record t : Type := mk {
  inner : Transport;
  opts : Options.t;
  first : bool;
  writer : Sink
}.

Definition with_writer (rt : t) (first' : bool) (w : Sink) : t :=
  mk (inner rt) (opts rt) first' w.

(** [func toHARNVP(vs map[string][]string) []*NVP] *)
Definition toHARNVP (vs : url.Values) : list NVP.t :=
  flat_map (fun kv => map (fun s => NVP.mk (fst kv) s) (snd kv)) (range vs).

(** [func (rt *RoundTripper) writePreamble() error] *)
Definition writePreamble (rt : t) : t * option error :=
  let creatorJson := Marshal_Creator (Options.Creator (opts rt)) in
  match sink_Write (writer rt) preamble_head with
  | (w1, Some err) => (with_writer rt (first rt) w1, Some (wrapError "writing preamble" err))
  | (w1, None) =>
      match sink_Write w1 creatorJson with
      | (w2, Some err) => (with_writer rt (first rt) w2, Some (wrapError "writing preamble" err))
      | (w2, None) =>
          match sink_Write w2 preamble_tail with
          | (w3, Some err) => (with_writer rt (first rt) w3, Some (wrapError "writing preamble" err))
          | (w3, None) => (with_writer rt (first rt) w3, None)
          end
      end
  end.

(** [func New(roundTripper http.RoundTripper, w io.Writer, opts *Options)],
    returning the round tripper and an error; the sink is returned beside
    them, as a failed call leaves it. *)
Definition New (roundTripper : option Transport) (w : Sink) (opts : option Options.t)
  : option t * option error * Sink :=
  let roundTripper :=
    match roundTripper with Some tr => tr | None => DefaultTransport end in
  let opts := match opts with Some o => o | None => DefaultOptions end in
  let opts :=
    match Options.Rewrite opts with
    | Some _ => opts
    | None => Options.mk (Options.Rewrite DefaultOptions) (Options.Creator opts)
    end in
  let opts :=
    match Options.Creator opts with
    | Some _ => opts
    | None => Options.mk (Options.Rewrite opts) (Options.Creator DefaultOptions)
    end in
  match Options.Creator opts with
  | None => (None, Some (errorString "Options.Creator.Name cannot be empty"), w)
  | Some creator =>
      if String.eqb (Creator.Name creator) "" then
        (None, Some (errorString "Options.Creator.Name cannot be empty"), w)
      else if String.eqb (Creator.Version creator) "" then
        (None, Some (errorString "Options.Creator.Version cannot be empty"), w)
      else
        match writePreamble (mk roundTripper opts true w) with
        | (rt, Some err) => (None, Some err, writer rt)
        | (rt, None) => (Some rt, None, writer rt)
        end
  end.

(** [func (rt *RoundTripper) Close() error] *)
Definition Close (rt : t) : t * option error :=
  match sink_Write (writer rt) closing with
  | (w1, Some err) => (with_writer rt (first rt) w1, Some (wrapError "closing har writer" err))
  | (w1, None) => (with_writer rt (first rt) w1, None)
  end.

(** [func (rt *RoundTripper) writeEntry(request, response, entry) error].
    The error of [json.Marshal] is dropped; the hook decides on the bytes.
    The lock is held from the test of [first] to the last write: the calls
    of concurrent exchanges take effect one after the other, as here. *)
Definition writeEntry (rt : t) (request : http.Request.t)
    (response : http.Response.t) (entry : Entry.t) : outcome (t * option error) :=
  let entryJson := Marshal_Entry entry in
  match Options.Rewrite (opts rt) with
  | None => Panics "call of a nil function"
  | Some Rewrite =>
      match Rewrite request response entryJson with
      | None => Returns (rt, None)
      | Some bytes =>
          let after_separator :=
            if negb (first rt) then sink_Write (writer rt) separator
            else (writer rt, None) in
          match after_separator with
          | (w1, Some err) =>
              Returns (with_writer rt (first rt) w1, Some (wrapError "writing har entry" err))
          | (w1, None) =>
              match sink_Write w1 bytes with
              | (w2, Some err) =>
                  Returns (with_writer rt false w2, Some (wrapError "writing har entry" err))
              | (w2, None) => Returns (with_writer rt false w2, None)
              end
          end
      end
  end.

(** An exchange that reached [writeEntry]: its request, response and entry. *)
Record exchange : Type := mkExchange {
  ex_request : http.Request.t;
  ex_response : http.Response.t;
  ex_entry : Entry.t
}.

(** [writeEntry] called for each exchange in turn, stopping at the first
    error. *)
Fixpoint writeEntries (rt : t) (xs : list exchange) : outcome (t * option error) :=
  match xs with
  | [] => Returns (rt, None)
  | x :: rest =>
      match writeEntry rt (ex_request x) (ex_response x) (ex_entry x) with
      | Returns (rt', None) => writeEntries rt' rest
      | other => other
      end
  end.

(** The entries the hook did not suppress, as it returned them. *)
Definition committed (hook : RewriteHook) (xs : list exchange) : list string :=
  flat_map
    (fun x =>
       match hook (ex_request x) (ex_response x) (Marshal_Entry (ex_entry x)) with
       | Some bytes => [bytes]
       | None => []
       end)
    xs.

(** The [Param]s of the fields of a form, and of its files. *)
Definition value_params (vs : url.Values) : list Param.t :=
  flat_map (fun kv => map (fun s => Param.mk (fst kv) s "" "") (snd kv)) (range vs).

Definition file_params (fs : list (string * list http.FileHeader)) : list Param.t :=
  flat_map
    (fun kv =>
       map (fun s =>
              Param.mk (fst kv) "" (http.Filename s)
                       (http.Header_Get (http.FileHeader_Header s) "Content-Type"))
           (snd kv))
    (range fs).

(** The part of [preRoundTrip] under [if r.Body != nil], once the body was
    read into [reqBodyBytes]: the request as the form readers left it, and
    either the [PostData] or the error.  (Of what [ParseMultipartForm] does
    to the request, only [MultipartForm] is kept.) *)
Definition capture_body (r : http.Request.t) (reqBodyBytes : string)
  : http.Request.t * (PostData.t + error) :=
  let mimeType := http.Header_Get (http.Request.Header r) "Content-Type" in
  let postData params := PostData.mk mimeType params reqBodyBytes in
  match ParseMediaType mimeType with
  | (_, Some err) => (r, inr (wrapError "parsing request Content-Type" err))
  | (mediaType, None) =>
      if String.eqb mediaType "application/x-www-form-urlencoded" then
        match ParseForm r with
        | (r1, Some err) =>
            (r1, inr (wrapError "parsing urlencoded form in request body" err))
        | (r1, None) =>
            let r2 := http.Request.with_Body r1 (Some (http.NopCloser_Buffer reqBodyBytes)) in
            let form := match http.Request.PostForm r2 with Some m => m | None => [] end in
            (r2, inl (postData (value_params form)))
        end
      else if String.eqb mediaType "multipart/form-data" then
        match ParseMultipartForm r with
        | inr err => (r, inr (wrapError "parsing multipart form in request body" err))
        | inl form =>
            let r1 := http.Request.with_MultipartForm r (Some form) in
            let r2 := http.Request.with_Body r1 (Some (http.NopCloser_Buffer reqBodyBytes)) in
            (r2, inl (postData (value_params (http.Form_Value form)
                                ++ file_params (http.Form_File form))%list))
        end
      else (r, inl (postData []))
  end.

(** [func (rt *RoundTripper) preRoundTrip(r *http.Request, entry *Entry) error]:
    the request and the entry as the call leaves them, and the error. *)
Definition preRoundTrip (r : http.Request.t) (entry : Entry.t)
  : outcome (http.Request.t * Entry.t * option error) :=
  let finish (r' : http.Request.t) (bodySize : Z) (postData : option PostData.t) :=
    let request :=
      Request.mk (http.Request.Method r')
                 (url.String_ (http.Request.URL r'))
                 (http.Request.Proto r')
                 (toHARCookies (Request_Cookies (http.Request.Header r')))
                 (toHARNVP (http.Request.Header r'))
                 (toHARNVP (url.Query (http.Request.URL r')))
                 postData
                 (-1)%Z
                 bodySize in
    Returns (r', Entry.mk (Entry.StartedDateTime entry) (Entry.Time entry)
                          (Some request) (Entry.Response entry) (Entry.Timings entry),
             None) in
  match http.Request.Body r with
  | None => finish r (-1)%Z None
  | Some _ =>
      match http.Request.GetBody r with
      | None => Panics "call of a nil function"
      | Some (inr err) => Returns (r, entry, Some (wrapError "getting body" err))
      | Some (inl reqBody) =>
          match http.ReadAll reqBody with
          | (_, Some err, _) => Returns (r, entry, Some (wrapError "reading request body" err))
          | (reqBodyBytes, None, _) =>
              match capture_body r reqBodyBytes with
              | (r', inr err) => Returns (r', entry, Some err)
              | (r', inl postData) =>
                  finish r' (Z.of_nat (String.length reqBodyBytes)) (Some postData)
              end
          end
      end
  end.

(** [time.Now()] *)
Definition time_Now (w : World) : GoTime.t * World :=
  (clock (ticks w), mkWorld (S (ticks w)) (sent w)).

(** The [Timings] of a trace (the end of [postRoundTrip]). *)
Definition timings_of (trace : clientTracer) : Timings.t :=
  let DNS :=
    if negb (GoTime.IsZero (dnsStart trace))
    then GoTime.Sub (dnsEnd trace) (dnsStart trace) else (-1)%Z in
  let Connect :=
    if negb (GoTime.IsZero (connStart trace))
    then GoTime.Sub (connObtained trace) (connStart trace) else (-1)%Z in
  let SSL :=
    if negb (GoTime.IsZero (tlsHandshakeStart trace))
    then GoTime.Sub (tlsHandshakeEnd trace) (tlsHandshakeStart trace) else (-1)%Z in
  Timings.mk
    (GoTime.Sub (connStart trace) (startAt trace))
    DNS
    Connect
    (GoTime.Sub (writeRequest trace) (connObtained trace))
    (GoTime.Sub (firstResponseByte trace) (writeRequest trace))
    (GoTime.Sub (endAt trace) (firstResponseByte trace))
    SSL.

(** [func (rt *RoundTripper) postRoundTrip(resp *http.Response, entry *Entry,
    trace *clientTracer) error]: the response, the entry and the world as the
    call leaves them, and the error.  The deferred [Close] closes the body
    the response came with, not its replacement. *)
Definition postRoundTrip (resp : http.Response.t) (entry : Entry.t)
    (trace : clientTracer) (w : World)
  : http.Response.t * Entry.t * World * option error :=
  match http.ReadAll (http.Response.Body resp) with
  | (_, Some err, drained) =>
      (http.Response.with_Body resp (http.Close drained), entry, w, Some err)
  | (respBodyBytes, None, _) =>
      let resp := http.Response.with_Body resp (http.NopCloser_Buffer respBodyBytes) in
      let mimeType := http.Header_Get (http.Response.Header resp) "Content-Type" in
      match ParseMediaType mimeType with
      | (_, Some err) =>
          (resp, entry, w, Some (wrapError "parsing response Content-Type" err))
      | (mediaType, None) =>
          let (text, encoding) :=
            if HasPrefix mediaType "text/" then (respBodyBytes, "")
            else (base64.EncodeToString respBodyBytes, "base64") in
          let response :=
            Response.mk (http.Response.StatusCode resp)
                        (http.Response.Status resp)
                        (http.Response.Proto resp)
                        (toHARCookies (Response_Cookies (http.Response.Header resp)))
                        (toHARNVP (http.Response.Header resp))
                        (http.Header_Get (http.Response.Header resp) "Location")
                        (-1)%Z
                        (http.Response.ContentLength resp)
                        (Some (Content.mk (http.Response.ContentLength resp) 0%Z
                                          mimeType text encoding)) in
          let (now, w') := time_Now w in
          let trace := with_endAt trace now in
          (resp,
           Entry.mk (startAt trace)
                    (GoTime.Sub (endAt trace) (startAt trace))
                    (Entry.Request entry)
                    (Some response)
                    (Some (timings_of trace)),
           w', None)
      end
  end.

(** What a call of [RoundTrip] leaves behind and returns. *)
Record result : Type := mkResult {
  res_rt : t;
  res_request : http.Request.t;
  res_world : World;
  response : option http.Response.t;
  err : option error
}.

(** [func (rt *RoundTripper) RoundTrip(request *http.Request)
    (response *http.Response, err error)] *)
Definition RoundTrip (rt : t) (request : http.Request.t) (w : World) : outcome result :=
  match preRoundTrip request Entry.empty with
  | Panics why => Panics why
  | Returns (request, _, Some err) => Returns (mkResult rt request w None (Some err))
  | Returns (request, entry, None) =>
      let (now, w) := time_Now w in
      let trace := newClientTracer now in
      let w := mkWorld (ticks w) (request :: sent w) in
      match inner rt request trace with
      | (response, Some err, _) => Returns (mkResult rt request w response (Some err))
      | (None, None, _) => Panics "nil pointer dereference"
      | (Some response, None, trace) =>
          match postRoundTrip response entry trace w with
          | (response, _, w, Some err) =>
              Returns (mkResult rt request w (Some response) (Some err))
          | (response, entry, w, None) =>
              match writeEntry rt request response entry with
              | Panics why => Panics why
              | Returns (rt, err) => Returns (mkResult rt request w (Some response) err)
              end
          end
      end
  end.

(** Pre-capture decoding fails on [r], with this error: the media type
    does not parse, or the body is a form that does not. *)
Inductive decoding_fails (r : http.Request.t) : error -> Prop :=
| bad_media_type mediaType e :
    ParseMediaType (http.Header_Get (http.Request.Header r) "Content-Type")
    = (mediaType, Some e) ->
    decoding_fails r (wrapError "parsing request Content-Type" e)
| bad_urlencoded_form r' e :
    ParseMediaType (http.Header_Get (http.Request.Header r) "Content-Type")
    = ("application/x-www-form-urlencoded", None) ->
    ParseForm r = (r', Some e) ->
    decoding_fails r (wrapError "parsing urlencoded form in request body" e)
| bad_multipart_form e :
    ParseMediaType (http.Header_Get (http.Request.Header r) "Content-Type")
    = ("multipart/form-data", None) ->
    ParseMultipartForm r = inr e ->
    decoding_fails r (wrapError "parsing multipart form in request body" e).

(** The fields of a form as [Param]s, in the order of the list. *)
Definition fields (vs : url.Values) : list Param.t :=
  flat_map (fun kv => map (fun s => Param.mk (fst kv) s "" "") (snd kv)) vs.

(** The methods for which [ParseForm] reads a body. *)
Definition reads_body_form (method : string) : bool :=
  String.eqb method "POST" || String.eqb method "PUT" || String.eqb method "PATCH".

(** The [Params] and the [Text] archived for a request, if any. *)
Definition archived_postData (entry : Entry.t) : option PostData.t :=
  match Entry.Request entry with
  | Some request => Request.PostData request
  | None => None
  end.

(** The [Content] archived for a response, if any. *)
Definition archived_content (entry : Entry.t) : option Content.t :=
  match Entry.Response entry with
  | Some response => Response.Content response
  | None => None
  end.

(** The events of the trace came in the order of an exchange: the
    connection was asked for after the start, obtained, the request written,
    the first byte received, the exchange ended; a DNS lookup and a TLS
    handshake end after they start. *)
Definition chronological (trace : clientTracer) : Prop :=
  GoTime.le (startAt trace) (connStart trace) /\
  GoTime.le (connStart trace) (connObtained trace) /\
  GoTime.le (connObtained trace) (writeRequest trace) /\
  GoTime.le (writeRequest trace) (firstResponseByte trace) /\
  GoTime.le (firstResponseByte trace) (endAt trace) /\
  GoTime.le (dnsStart trace) (dnsEnd trace) /\
  GoTime.le (tlsHandshakeStart trace) (tlsHandshakeEnd trace).

(** A duration is a measure (not negative) or the sentinel. *)
Definition measured_or_sentinel (d : Duration) : Prop := (0 <= d)%Z \/ d = (-1)%Z.

(** What section 3 says of the timings [t] of a trace: each is a measure or
    the sentinel, and the sentinel stands for the phases that were not
    observed.  DNS, connect and TLS are observed when their start was
    stamped; on a chronological trace the four other phases always are. *)
Definition timings_as_specified (trace : clientTracer) (t : Timings.t) : Prop :=
  (measured_or_sentinel (Timings.Blocked t) /\
   measured_or_sentinel (Timings.DNS t) /\
   measured_or_sentinel (Timings.Connect t) /\
   measured_or_sentinel (Timings.SSL t) /\
   measured_or_sentinel (Timings.Send t) /\
   measured_or_sentinel (Timings.Wait t) /\
   measured_or_sentinel (Timings.Receive t)) /\
  (Timings.DNS t = (-1)%Z <-> GoTime.IsZero (dnsStart trace) = true) /\
  (Timings.Connect t = (-1)%Z <-> GoTime.IsZero (connStart trace) = true) /\
  (Timings.SSL t = (-1)%Z <-> GoTime.IsZero (tlsHandshakeStart trace) = true) /\
  Timings.Blocked t <> (-1)%Z /\ Timings.Send t <> (-1)%Z /\
  Timings.Wait t <> (-1)%Z /\ Timings.Receive t <> (-1)%Z.

(** The request declares a urlencoded form. *)
Definition urlencoded (r : http.Request.t) : Prop :=
  http.Header_Get (http.Request.Header r) "Content-Type" <> "" /\
  ParseMediaType (http.Header_Get (http.Request.Header r) "Content-Type")
  = ("application/x-www-form-urlencoded", None).

End WithRuntime.
End RoundTripper.

(** ** Sequences of calls

    A client calls the methods of a writer or of a round tripper one after
    the other; the definitions below run such sequences. *)

(** The calls a client makes on a [HarWriter]. *)
Inductive HarWriter_call : Type :=
| call_WriteEntry (entry : RawMessage)
| call_Close.

Definition HarWriter_do (w : HarWriter.t) (c : HarWriter_call)
  : HarWriter.t * option error :=
  match c with
  | call_WriteEntry entry => HarWriter.WriteEntry w entry
  | call_Close => HarWriter.Close w
  end.

(** The calls made in turn, whatever each returns: the writer at the end and
    the error of each call. *)
Fixpoint HarWriter_run (w : HarWriter.t) (calls : list HarWriter_call)
  : HarWriter.t * list (option error) :=
  match calls with
  | [] => (w, [])
  | c :: rest =>
      let (w1, e) := HarWriter_do w c in
      let (w2, es) := HarWriter_run w1 rest in
      (w2, e :: es)
  end.

Definition is_Close (c : HarWriter_call) : bool :=
  match c with
  | call_Close => true
  | call_WriteEntry _ => false
  end.

(** The entries a run of calls hands to [WriteEntry] before its first
    [Close]. *)
Fixpoint entries_before_Close (calls : list HarWriter_call) : list string :=
  match calls with
  | [] => []
  | call_Close :: _ => []
  | call_WriteEntry entry :: rest => raw_bytes entry :: entries_before_Close rest
  end.

(** [HarNDWriter.WriteEntry] called for each entry in turn, stopping at the
    first error. *)
Fixpoint HarNDWriter_WriteEntries (w : HarNDWriter.t) (entries : list RawMessage)
  : HarNDWriter.t * option error :=
  match entries with
  | [] => (w, None)
  | e :: rest =>
      match HarNDWriter.WriteEntry w e with
      | (w', None) => HarNDWriter_WriteEntries w' rest
      | (w', Some err) => (w', Some err)
      end
  end.

(** Each entry followed by a line feed. *)
Fixpoint terminated (entries : list string) : string :=
  match entries with
  | [] => ""
  | e :: rest => e ++ LF ++ terminated rest
  end.

(** The reader of a newline-delimited text: the lines that end in a line
    feed, without it ([line] is what was read of the current line). *)
Fixpoint lines_from (line s : string) : list string :=
  match s with
  | "" => []
  | String c r =>
      if Ascii.eqb c "010" then line :: lines_from "" r
      else lines_from (line ++ String c "") r
  end.

Definition lines (s : string) : list string := lines_from "" s.

Fixpoint has_line_feed (s : string) : bool :=
  match s with
  | "" => false
  | String c r => Ascii.eqb c "010" || has_line_feed r
  end.

(** A sink that accepts every write. *)
Definition healthy (s : Sink) : Prop := script s = [].

(** An instant carries a monotonic clock reading. *)
Definition has_mono (x : GoTime.t) : bool :=
  match GoTime.mono x with
  | Some _ => true
  | None => false
  end.

(** The six instants of the phases of an exchange were all stamped by
    [time.Now()], which reads the monotonic clock. *)
Definition stamped (trace : clientTracer) : bool :=
  has_mono (startAt trace) && has_mono (connStart trace)
  && has_mono (connObtained trace) && has_mono (writeRequest trace)
  && has_mono (firstResponseByte trace) && has_mono (endAt trace).

Section Sessions.
Context `{GoRuntime}.

(** The framed writer a round tripper carries inline: it has the [first]
    flag and the sink of a [HarWriter], and no [closed] flag. *)
Definition as_HarWriter (rt : RoundTripper.t) : HarWriter.t :=
  HarWriter.mk (RoundTripper.first rt) false (RoundTripper.writer rt).

(** The creator [New] checks and writes: the caller's, or the default one
    when the options or their [Creator] are nil. *)
Definition effective_creator (opts : option Options.t) : option Creator.t :=
  match opts with
  | Some o =>
      match Options.Creator o with
      | Some c => Some c
      | None => Options.Creator DefaultOptions
      end
  | None => Options.Creator DefaultOptions
  end.

(** The hook [New] installs: the caller's, or the default one. *)
Definition effective_hook (opts : option Options.t) : option RewriteHook :=
  match opts with
  | Some o =>
      match Options.Rewrite o with
      | Some h => Some h
      | None => Options.Rewrite DefaultOptions
      end
  | None => Options.Rewrite DefaultOptions
  end.

(** [RoundTrip] called for each request in turn on the same round tripper,
    whatever each call returns; a panic ends the run. *)
Fixpoint RoundTrips (rt : RoundTripper.t) (requests : list http.Request.t) (w : World)
  : outcome (RoundTripper.t * World * list RoundTripper.result) :=
  match requests with
  | [] => Returns (rt, w, [])
  | r :: rest =>
      match RoundTripper.RoundTrip rt r w with
      | Panics why => Panics why
      | Returns res =>
          match RoundTrips (RoundTripper.res_rt res) rest (RoundTripper.res_world res) with
          | Panics why => Panics why
          | Returns (rt', w', results) => Returns (rt', w', res :: results)
          end
      end
  end.

(** The exchange a call of [RoundTrip] hands to [writeEntry], when it gets
    that far: the request as pre-capture left it, the response and the entry
    as post-capture left them.  There is none when pre-capture, the
    transport or post-capture fails. *)
Definition exchange_of (rt : RoundTripper.t) (request : http.Request.t) (w : World)
  : option RoundTripper.exchange :=
  match RoundTripper.preRoundTrip request Entry.empty with
  | Returns (request', entry, None) =>
      match RoundTripper.inner rt request' (newClientTracer (clock (ticks w))) with
      | (Some response, None, trace) =>
          match RoundTripper.postRoundTrip response entry trace
                  (mkWorld (S (ticks w)) (request' :: sent w)) with
          | (response', entry', _, None) =>
              Some (RoundTripper.mkExchange request' response' entry')
          | _ => None
          end
      | _ => None
      end
  | _ => None
  end.

Definition reached (x : option RoundTripper.exchange) : list RoundTripper.exchange :=
  match x with
  | Some x => [x]
  | None => []
  end.

(** The exchanges that reached [writeEntry] in a run of [RoundTrips], in the
    order of the calls. *)
Fixpoint session_exchanges (rt : RoundTripper.t) (requests : list http.Request.t)
    (w : World) : list RoundTripper.exchange :=
  match requests with
  | [] => []
  | r :: rest =>
      (reached (exchange_of rt r w)
       ++ match RoundTripper.RoundTrip rt r w with
          | Returns res =>
              session_exchanges (RoundTripper.res_rt res) rest (RoundTripper.res_world res)
          | Panics _ => []
          end)%list
  end.

Definition succeeded (res : RoundTripper.result) : bool :=
  match RoundTripper.err res with
  | None => true
  | Some _ => false
  end.

(** The number of calls that returned no error. *)
Definition successes (results : list RoundTripper.result) : nat :=
  length (filter succeeded results).

(** The hook never returns nil for the bytes [json.Marshal] gives it. *)
Definition never_suppresses (hook : RewriteHook) : Prop :=
  forall request response entry,
    hook request response (Marshal_Entry entry) <> None.

(** The five steps of [preRoundTrip] that can fail, as they name themselves
    in the error they wrap. *)
Definition preRoundTrip_steps : list string :=
  ["getting body"; "reading request body"; "parsing request Content-Type";
   "parsing urlencoded form in request body";
   "parsing multipart form in request body"].

(** The files of a multipart form as [Param]s, in the order of the list. *)
Definition file_fields (fs : list (string * list http.FileHeader)) : list Param.t :=
  flat_map
    (fun kv =>
       map (fun s =>
              Param.mk (fst kv) "" (http.Filename s)
                       (http.Header_Get (http.FileHeader_Header s) "Content-Type"))
           (snd kv))
    fs.

End Sessions.

(** ** A runtime for the examples

    The theorems below hold for every [GoRuntime]; the examples run on this
    one.  Its [ParseMediaType] follows [mime.ParseMediaType] on header values
    made of ASCII bytes with no parameter section (no [;]); any other value
    is outside the examples, and is refused. *)
Module Example.

Definition ToLower_ascii (c : ascii) : ascii :=
  let n := nat_of_ascii c in
  if (65 <=? n)%nat && (n <=? 90)%nat then ascii_of_nat (n + 32) else c.

Fixpoint ToLower (s : string) : string :=
  match s with
  | "" => ""
  | String c r => String (ToLower_ascii c) (ToLower r)
  end.

Definition is_space (c : ascii) : bool :=
  let n := nat_of_ascii c in ((9 <=? n)%nat && (n <=? 13)%nat) || (n =? 32)%nat.

Fixpoint TrimLeft (s : string) : string :=
  match s with
  | String c r => if is_space c then TrimLeft r else s
  | "" => ""
  end.

(** [s] without its trailing spaces. *)
Fixpoint TrimRight (s : string) : string :=
  match s with
  | "" => ""
  | String c r =>
      match TrimRight r with
      | "" => if is_space c then "" else String c ""
      | r' => String c r'
      end
  end.

Definition TrimSpace (s : string) : string := TrimRight (TrimLeft s).

(** [isTokenChar]: a visible ASCII byte that is no [tspecial]. *)
Definition isTokenChar (c : ascii) : bool :=
  let n := nat_of_ascii c in
  (32 <? n)%nat && (n <? 127)%nat
  && negb (existsb (Ascii.eqb c)
             ["("; ")"; "<"; ">"; "@"; ","; ";"; ":"; "\"; dquote;
              "/"; "["; "]"; "?"; "="]%char).

(** [consumeToken]: the token at the head of [v], and the rest. *)
Fixpoint consumeToken (v : string) : string * string :=
  match v with
  | String c r =>
      if isTokenChar c
      then let (tok, rest) := consumeToken r in (String c tok, rest)
      else ("", v)
  | "" => ("", "")
  end.

(** [checkMediaTypeDisposition] *)
Definition checkMediaTypeDisposition (s : string) : option error :=
  match consumeToken s with
  | ("", _) => Some (errorString "mime: no media type")
  | (_, "") => None
  | (_, String "/" rest) =>
      match consumeToken rest with
      | ("", _) => Some (errorString "mime: expected token after slash")
      | (_, "") => None
      | (_, _) => Some (errorString "mime: unexpected content after media subtype")
      end
  | (_, _) => Some (errorString "mime: expected slash after first token")
  end.

Definition is_ascii (c : ascii) : bool := (nat_of_ascii c <? 128)%nat.

Fixpoint all_ascii (s : string) : bool :=
  match s with
  | "" => true
  | String c r => is_ascii c && all_ascii r
  end.

Definition parse_media_type (v : string) : string * option error :=
  if url.contains v ";" || negb (all_ascii v)
  then ("", Some (errorString "outside the examples"))
  else
    let mediatype := TrimSpace (ToLower v) in
    match checkMediaTypeDisposition mediatype with
    | Some err => ("", Some err)
    | None => (mediatype, None)
    end.

(** A creator as a JSON object, for names and versions that need no
    escaping; [null] for the nil pointer. *)
Definition marshal_creator (c : option Creator.t) : string :=
  match c with
  | None => "null"
  | Some c =>
      "{" ++ quoted "name" ++ ":" ++ quoted (Creator.Name c) ++ ","
          ++ quoted "version" ++ ":" ++ quoted (Creator.Version c) ++ "}"
  end.

(** An entry as a JSON object that tells whether it carries a request and a
    response. *)
Definition marshal_entry (e : Entry.t) : RawMessage :=
  let flag {A} (o : option A) :=
    match o with Some _ => "true" | None => "false" end in
  Some ("{" ++ quoted "request" ++ ":" ++ flag (Entry.Request e) ++ ","
            ++ quoted "response" ++ ":" ++ flag (Entry.Response e) ++ "}").

(** A transport with no network. *)
Definition offline : Transport :=
  fun _ trace => (None, Some (errorString "dial tcp: lookup failed"), trace).

(** The clock starts at [epoch] and advances by a millisecond a reading. *)
Definition epoch : Z := 63900000000000000000.

Definition clock_ms (n : nat) : GoTime.t :=
  GoTime.mk (epoch + 1000000 * Z.of_nat n) (Some (1000000 * Z.of_nat n)%Z).

#[export] Instance runtime : GoRuntime := {|
  Marshal_Creator := marshal_creator;
  Marshal_Entry := marshal_entry;
  ParseMediaType := parse_media_type;
  ParseMultipartForm := fun _ => inr (errorString "multipart: outside the examples");
  Request_Cookies := fun _ => [];
  Response_Cookies := fun _ => [];
  DefaultTransport := offline;
  clock := clock_ms;
  range := fun _ m => m;
  range_Permutation := fun _ m => Permutation_refl m
|}.

(** Requests, responses and round trippers of the examples. *)
Definition content_type (v : string) : http.Header := [("Content-Type", [v])].

Definition example_url : url.URL := url.mkURL "" "https://example.com/".

(** A request as [http.NewRequest] builds it from an in-memory body:
    [GetBody] returns a reader over the same bytes. *)
Definition request_with_body (method ctype body : string) : http.Request.t :=
  http.Request.mk method example_url "HTTP/1.1" (content_type ctype)
    (Some (http.NopCloser_Buffer body))
    (Some (inl (http.NopCloser_Buffer body)))
    None None None.

(** A request with a body and no header. *)
Definition request_without_type (body : string) : http.Request.t :=
  http.Request.mk "POST" example_url "HTTP/1.1" []
    (Some (http.NopCloser_Buffer body))
    (Some (inl (http.NopCloser_Buffer body)))
    None None None.

Definition get_request : http.Request.t :=
  http.Request.mk "GET" example_url "HTTP/1.1" [] None None None None None.

Definition response_from (header : http.Header) (body : http.Reader) : http.Response.t :=
  http.Response.mk "200 OK" 200 "HTTP/1.1" header body
    (Z.of_nat (String.length (http.data body))).

(** A transport that answers every request with [resp] and fires no hook of
    the tracer (a test double, a transport outside [net/http]). *)
Definition serving (resp : http.Response.t) : Transport :=
  fun _ trace => (Some resp, None, trace).

(** [t] and [d] nanoseconds. *)
Definition later (t : GoTime.t) (d : Z) : GoTime.t :=
  GoTime.mk (GoTime.wall t + d) (option_map (Z.add d) (GoTime.mono t)).

(** A transport that answers every request with [resp] on a connection it
    reuses: it fires the hooks of the connection, of the request written and
    of the first byte, a hundred microseconds apart, and no hook of DNS or
    TLS. *)
Definition serving_traced (resp : http.Response.t) : Transport :=
  fun _ trace =>
    (Some resp, None,
     mkTracer (startAt trace)
              (later (startAt trace) 100000)
              (later (startAt trace) 200000)
              (later (startAt trace) 400000)
              GoTime.zero GoTime.zero GoTime.zero GoTime.zero
              (later (startAt trace) 300000)
              (endAt trace)).

Definition identity_hook : RewriteHook := fun _ _ entry => entry.

(** A hook that returns an empty, non-nil slice. *)
Definition empty_hook : RewriteHook := fun _ _ _ => Some "".

Definition round_tripper (tr : Transport) (hook : RewriteHook) (first : bool)
    (out : string) : RoundTripper.t :=
  RoundTripper.mk tr (Options.mk (Some hook) (Options.Creator DefaultOptions))
                  first (Buffer out).

Definition world0 : World := mkWorld 0 [].

(** The trace of an exchange on a connection that was reused: no DNS lookup,
    no TLS handshake; the other events a millisecond apart. *)
Definition reused_connection_trace : clientTracer :=
  mkTracer (clock_ms 0) (clock_ms 1) (clock_ms 2) (clock_ms 4)
           GoTime.zero GoTime.zero GoTime.zero GoTime.zero
           (clock_ms 3) GoTime.zero.

(** A body that breaks after three bytes. *)
Definition broken_body : http.Reader :=
  http.mkReader "hel" (Some (errorString "unexpected EOF")) false.

Definition hello_response : http.Response.t :=
  response_from (content_type "text/plain") (http.NopCloser_Buffer "hello").

Definition example_creator : Creator.t := Creator.mk "har" "0.1".

(** A request with a body and no [GetBody], as a caller may build it by
    hand. *)
Definition request_nil_GetBody : http.Request.t :=
  http.Request.mk "POST" example_url "HTTP/1.1" (content_type "text/plain")
    (Some (http.NopCloser_Buffer "hello")) None None None None.

(** A request with a body, no header and no [GetBody]. *)
Definition request_without_type_nil_GetBody (body : string) : http.Request.t :=
  http.Request.mk "POST" example_url "HTTP/1.1" []
    (Some (http.NopCloser_Buffer body)) None None None None.

(** A multipart form with one field and one file. *)
Definition example_form : http.MultipartForm :=
  http.mkMultipartForm
    [("title", ["report"])]
    [("upload", [http.mkFileHeader "report.pdf" (content_type "application/pdf")])].

(** The runtime of the examples with a multipart reader that finds
    [example_form] in every body. *)
Definition multipart_runtime : GoRuntime := {|
  Marshal_Creator := marshal_creator;
  Marshal_Entry := marshal_entry;
  ParseMediaType := parse_media_type;
  ParseMultipartForm := fun _ => inl example_form;
  Request_Cookies := fun _ => [];
  Response_Cookies := fun _ => [];
  DefaultTransport := offline;
  clock := clock_ms;
  range := fun _ m => m;
  range_Permutation := fun _ m => Permutation_refl m
|}.

(** The calls of a client that goes on after closing its writer. *)
Definition example_calls : list HarWriter_call :=
  [call_WriteEntry (Some "{}"); call_Close; call_WriteEntry (Some "[]"); call_Close].

End Example.

(** ** Tactics *)

(** Case analysis on the test of the first conditional of the goal. *)
Ltac case_if :=
  match goal with
  | |- context [if ?b then _ else _] => destruct b eqn:?
  end.

(* ================================================================== *)
(** * Part II.  Properties                                             *)
(* ================================================================== *)

(** ** The JSON reader *)

Section JsonReader.

Lemma append_assoc (a b c : string) : (a ++ b) ++ c = a ++ (b ++ c).
Proof. induction a as [|x a IH]; simpl; [reflexivity | now rewrite IH]. Qed.

Lemma append_nil_r (a : string) : a ++ "" = a.
Proof. induction a as [|x a IH]; simpl; [reflexivity | now rewrite IH]. Qed.

Lemma length_append (a b : string) :
  String.length (a ++ b) = String.length a + String.length b.
Proof. induction a as [|x a IH]; simpl; [reflexivity | now rewrite IH]. Qed.

Lemma skip_ws_app (s t : string) c r :
  skip_ws s = String c r -> skip_ws (s ++ t) = String c (r ++ t).
Proof.
  induction s as [|x s IH]; simpl; [discriminate|].
  destruct (is_ws x) eqn:E; [exact IH|].
  intros [= -> ->]. reflexivity.
Qed.

Lemma skip_ws_app_blank (s t : string) :
  skip_ws s = "" -> skip_ws (s ++ t) = skip_ws t.
Proof.
  induction s as [|x s IH]; simpl; [reflexivity|].
  destruct (is_ws x); [exact IH | discriminate].
Qed.

Lemma skip_ws_idem (s : string) : skip_ws (skip_ws s) = skip_ws s.
Proof.
  induction s as [|x s IH]; simpl; [reflexivity|].
  destruct (is_ws x) eqn:E; [exact IH|]. simpl. now rewrite E.
Qed.

Lemma next_is_app c (s t r : string) :
  next_is c s = Some r -> next_is c (s ++ t) = Some (r ++ t).
Proof.
  destruct s as [|d s]; simpl; [discriminate|].
  destruct (Ascii.eqb d c); [|discriminate]. now intros [= ->].
Qed.

Lemma next_is_app_none c d (s t : string) :
  next_is c (String d s) = None -> next_is c (String d s ++ t) = None.
Proof. simpl. now destruct (Ascii.eqb d c). Qed.

Lemma strip_prefix_app (p s t r : string) :
  strip_prefix p s = Some r -> strip_prefix p (s ++ t) = Some (r ++ t).
Proof.
  revert s; induction p as [|a p IH]; intros s; simpl.
  - now intros [= ->].
  - destruct s as [|b s]; simpl; [discriminate|].
    destruct (Ascii.eqb a b); [apply IH | discriminate].
Qed.

Lemma scan_string_app st (s t lex r : string) :
  scan_string st s = Some (lex, r) -> scan_string st (s ++ t) = Some (lex, r ++ t).
Proof.
  revert st lex r; induction s as [|c s IH]; intros st lex r; simpl; [discriminate|].
  assert (K : forall st', match scan_string st' s with
                          | Some (lex0, rest) => Some (String c lex0, rest)
                          | None => None end = Some (lex, r) ->
                          match scan_string st' (s ++ t) with
                          | Some (lex0, rest) => Some (String c lex0, rest)
                          | None => None end = Some (lex, r ++ t)).
  { intros st'. destruct (scan_string st' s) as [[l0 r0]|] eqn:E; [|discriminate].
    intros [= <- <-]. now rewrite (IH _ _ _ E). }
  destruct st; repeat case_if; try discriminate; try apply K.
  now intros [= <- <-].
Qed.

Lemma span_digits_app (s t ds r : string) :
  span_digits s = (ds, r) -> (r <> "" \/ tail_ok t) ->
  span_digits (s ++ t) = (ds, r ++ t).
Proof.
  revert ds r; induction s as [|c s IH]; intros ds r; simpl.
  - intros [= <- <-] [Hr | Ht]; [congruence|].
    destruct t as [|d t]; simpl; [reflexivity|].
    simpl in Ht. unfold number_stop in Ht.
    destruct (is_digit d); [discriminate | reflexivity].
  - destruct (is_digit c) eqn:E.
    + destruct (span_digits s) as [ds0 r0] eqn:Es. intros [= <- <-] Hr.
      now rewrite (IH _ _ eq_refl Hr).
    + intros [= <- <-] _. simpl. reflexivity.
Qed.

Lemma span_digits_rest (s ds r : string) :
  span_digits s = (ds, r) ->
  match r with "" => True | String c _ => is_digit c = false end.
Proof.
  revert ds r; induction s as [|c s IH]; intros ds r; simpl.
  - now intros [= <- <-].
  - destruct (is_digit c) eqn:E.
    + destruct (span_digits s) as [ds0 r0] eqn:Es. intros [= <- <-]. now apply (IH ds0).
    + now intros [= <- <-].
Qed.

Lemma scan_digits1_app mark (s t lex r : string) :
  scan_digits1 mark s = Some (lex, r) -> (r <> "" \/ tail_ok t) ->
  scan_digits1 mark (s ++ t) = Some (lex, r ++ t).
Proof.
  unfold scan_digits1. destruct (span_digits s) as [ds r0] eqn:E.
  destruct ds as [|d ds]; [discriminate|]. intros [= <- <-] Hr.
  now rewrite (span_digits_app _ t _ _ E Hr).
Qed.

Lemma next_is_tail c (t : string) :
  tail_ok t -> number_stop c = false -> next_is c t = None.
Proof.
  destruct t as [|d t]; simpl; [reflexivity|]. intros Ht Hc.
  destruct (Ascii.eqb d c) eqn:E; [|reflexivity].
  apply Ascii.eqb_eq in E. congruence.
Qed.

Lemma next_is_app_nonempty c (s t : string) :
  s <> "" -> next_is c s = None -> next_is c (s ++ t) = None.
Proof. destruct s as [|d s]; [congruence|]. intros _. apply next_is_app_none. Qed.

Lemma scan_int_app (s t i r : string) :
  scan_int s = Some (i, r) -> tail_ok t -> scan_int (s ++ t) = Some (i, r ++ t).
Proof.
  destruct s as [|c s]; simpl; [discriminate|]. intros H Ht.
  destruct (Ascii.eqb c "0"); [now injection H as <- <-|].
  destruct (is_digit c); [|discriminate].
  destruct (span_digits s) as [ds r0] eqn:E. injection H as <- <-.
  now rewrite (span_digits_app _ t _ _ E (or_intror Ht)).
Qed.

Lemma scan_frac_app (s t f r : string) :
  scan_frac s = Some (f, r) -> tail_ok t -> scan_frac (s ++ t) = Some (f, r ++ t).
Proof.
  unfold scan_frac. intros H Ht.
  destruct (next_is "." s) as [r0|] eqn:E.
  - rewrite (next_is_app _ _ t _ E).
    now apply scan_digits1_app; [|right].
  - injection H as <- <-. destruct s as [|d s].
    + simpl. now rewrite (next_is_tail "." t Ht).
    + now rewrite (next_is_app_none _ _ _ t E).
Qed.

Lemma scan_digits1_nonempty mark (s lex r : string) :
  scan_digits1 mark s = Some (lex, r) -> s <> "".
Proof. now destruct s. Qed.

Lemma scan_exp_app (s t e r : string) :
  scan_exp s = Some (e, r) -> tail_ok t -> scan_exp (s ++ t) = Some (e, r ++ t).
Proof.
  destruct s as [|c s]; simpl; intros H Ht.
  - injection H as <- <-. destruct t as [|d t]; [reflexivity|]. simpl.
    simpl in Ht. unfold number_stop in Ht.
    destruct (Ascii.eqb d "e"), (Ascii.eqb d "E"); simpl;
      rewrite ?orb_true_r in Ht; try discriminate; reflexivity.
  - destruct (Ascii.eqb c "e" || Ascii.eqb c "E"); [|now injection H as <- <-].
    destruct (next_is "+" s) as [r1|] eqn:E1.
    { rewrite (next_is_app _ _ t _ E1). now apply scan_digits1_app; [|right]. }
    destruct (next_is "-" s) as [r2|] eqn:E2.
    { assert (s <> "") by (now destruct s).
      rewrite (next_is_app_nonempty _ _ t) by assumption.
      rewrite (next_is_app _ _ t _ E2). now apply scan_digits1_app; [|right]. }
    pose proof (scan_digits1_nonempty _ _ _ _ H) as Hs.
    rewrite !(next_is_app_nonempty _ _ t) by assumption.
    now apply scan_digits1_app; [|right].
Qed.

Lemma scan_int_nonempty (s i r : string) : scan_int s = Some (i, r) -> s <> "".
Proof. now destruct s. Qed.

Lemma scan_number_app (s t lex r : string) :
  scan_number s = Some (lex, r) -> tail_ok t ->
  scan_number (s ++ t) = Some (lex, r ++ t).
Proof.
  unfold scan_number. intros H Ht.
  assert (K : forall sign s1,
             match scan_int s1 with
             | None => None
             | Some (i, s2) =>
                 match scan_frac s2 with
                 | None => None
                 | Some (f, s3) =>
                     match scan_exp s3 with
                     | None => None
                     | Some (e, s4) => Some (sign ++ i ++ f ++ e, s4)
                     end
                 end
             end = Some (lex, r) ->
             match scan_int (s1 ++ t) with
             | None => None
             | Some (i, s2) =>
                 match scan_frac s2 with
                 | None => None
                 | Some (f, s3) =>
                     match scan_exp s3 with
                     | None => None
                     | Some (e, s4) => Some (sign ++ i ++ f ++ e, s4)
                     end
                 end
             end = Some (lex, r ++ t)).
  { intros sign s1 H1.
    destruct (scan_int s1) as [[i s2]|] eqn:Ei; [|discriminate].
    destruct (scan_frac s2) as [[f s3]|] eqn:Ef; [|discriminate].
    destruct (scan_exp s3) as [[e s4]|] eqn:Ee; [|discriminate].
    injection H1 as <- <-.
    rewrite (scan_int_app _ t _ _ Ei Ht), (scan_frac_app _ t _ _ Ef Ht),
            (scan_exp_app _ t _ _ Ee Ht). reflexivity. }
  destruct (next_is "-" s) as [r1|] eqn:E.
  - rewrite (next_is_app _ _ t _ E). now apply K.
  - assert (s <> "").
    { destruct (scan_int s) as [[i s2]|] eqn:Ei; [|discriminate].
      exact (scan_int_nonempty _ _ _ Ei). }
    rewrite (next_is_app_nonempty _ _ t) by assumption. now apply K.
Qed.

Lemma parse_value_S f s :
  parse_value (S f) s = value_step (parse_members f) (parse_elements f) s.
Proof. reflexivity. Qed.

Lemma parse_elements_S f s :
  parse_elements (S f) s = elements_step (parse_value f) (parse_elements f) s.
Proof. reflexivity. Qed.

Lemma parse_members_S f s :
  parse_members (S f) s = members_step (parse_value f) (parse_members f) s.
Proof. reflexivity. Qed.

Lemma parse_value_blank f (s : string) : skip_ws s = "" -> parse_value f s = None.
Proof.
  intros E. destruct f; [reflexivity|].
  rewrite parse_value_S. unfold value_step. now rewrite E.
Qed.

Lemma parse_members_blank f (s : string) :
  skip_ws s = "" -> parse_members f s = None.
Proof.
  intros E. destruct f; [reflexivity|].
  rewrite parse_members_S. unfold members_step. now rewrite E.
Qed.

Lemma parse_elements_blank f (s : string) :
  skip_ws s = "" -> parse_elements f s = None.
Proof.
  intros E. destruct f; [reflexivity|].
  rewrite parse_elements_S. unfold elements_step.
  now rewrite (parse_value_blank f s E).
Qed.

(** A text read up to [r] is read the same, up to [r ++ t], when [t] is
    written after it (and cannot continue a number). *)
Lemma parse_app (t : string) (Ht : tail_ok t) (f : nat) :
  (forall s v r, parse_value f s = Some (v, r) ->
                 parse_value f (s ++ t) = Some (v, r ++ t)) /\
  (forall s vs r, parse_elements f s = Some (vs, r) ->
                  parse_elements f (s ++ t) = Some (vs, r ++ t)) /\
  (forall s ms r, parse_members f s = Some (ms, r) ->
                  parse_members f (s ++ t) = Some (ms, r ++ t)).
Proof.
  induction f as [|f (IHv & IHe & IHm)]; [repeat split; discriminate|].
  repeat split.
  - (* values *)
    intros s v r. rewrite !parse_value_S. unfold value_step.
    destruct (skip_ws s) as [|c r0] eqn:Es; [discriminate|].
    rewrite (skip_ws_app _ t _ _ Es).
    destruct (Ascii.eqb c "{").
    { destruct (skip_ws r0) as [|d r1] eqn:E0.
      - cbn [next_is]. now rewrite (parse_members_blank f r0 E0).
      - rewrite (skip_ws_app _ t _ _ E0). cbn [next_is].
        destruct (Ascii.eqb d "}"); [now intros [= <- <-]|].
        destruct (parse_members f r0) as [[ms r']|] eqn:Em; [|discriminate].
        intros [= <- <-]. now rewrite (IHm _ _ _ Em). }
    destruct (Ascii.eqb c "[").
    { destruct (skip_ws r0) as [|d r1] eqn:E0.
      - cbn [next_is]. now rewrite (parse_elements_blank f r0 E0).
      - rewrite (skip_ws_app _ t _ _ E0). cbn [next_is].
        destruct (Ascii.eqb d "]"); [now intros [= <- <-]|].
        destruct (parse_elements f r0) as [[vs r']|] eqn:Ee; [|discriminate].
        intros [= <- <-]. now rewrite (IHe _ _ _ Ee). }
    destruct (Ascii.eqb c dquote).
    { destruct (scan_string InText r0) as [[lex r']|] eqn:E0; [|discriminate].
      intros [= <- <-]. now rewrite (scan_string_app _ _ t _ _ E0). }
    assert (L : forall (p : string) (j : json),
               option_map (pair j) (strip_prefix p r0) = Some (v, r) ->
               option_map (pair j) (strip_prefix p (r0 ++ t)) = Some (v, r ++ t)).
    { intros p j. destruct (strip_prefix p r0) as [r'|] eqn:E0; [|discriminate].
      intros [= <- <-]. now rewrite (strip_prefix_app _ _ t _ E0). }
    destruct (Ascii.eqb c "t"); [apply L|].
    destruct (Ascii.eqb c "f"); [apply L|].
    destruct (Ascii.eqb c "n"); [apply L|].
    destruct (scan_number (String c r0)) as [[lex r']|] eqn:E0; [|discriminate].
    intros [= <- <-].
    change (String c (r0 ++ t)) with (String c r0 ++ t).
    now rewrite (scan_number_app _ t _ _ E0 Ht).
  - (* elements *)
    intros s vs r. rewrite !parse_elements_S. unfold elements_step.
    destruct (parse_value f s) as [[v r0]|] eqn:Ev; [|discriminate].
    rewrite (IHv _ _ _ Ev).
    destruct (skip_ws r0) as [|d r1] eqn:E0; [discriminate|].
    rewrite (skip_ws_app _ t _ _ E0). cbn [next_is].
    destruct (Ascii.eqb d ",").
    { destruct (parse_elements f r1) as [[vs' r']|] eqn:Ee; [|discriminate].
      intros [= <- <-]. now rewrite (IHe _ _ _ Ee). }
    destruct (Ascii.eqb d "]"); [now intros [= <- <-] | discriminate].
  - (* members *)
    intros s ms r. rewrite !parse_members_S. unfold members_step.
    destruct (skip_ws s) as [|c r0] eqn:Es; [discriminate|].
    rewrite (skip_ws_app _ t _ _ Es). cbn [next_is].
    destruct (Ascii.eqb c dquote); [|discriminate].
    destruct (scan_string InText r0) as [[key r1]|] eqn:Ek; [|discriminate].
    rewrite (scan_string_app _ _ t _ _ Ek).
    destruct (skip_ws r1) as [|d r2] eqn:E1; [discriminate|].
    rewrite (skip_ws_app _ t _ _ E1). cbn [next_is].
    destruct (Ascii.eqb d ":"); [|discriminate].
    destruct (parse_value f r2) as [[v r3]|] eqn:Ev; [|discriminate].
    rewrite (IHv _ _ _ Ev).
    destruct (skip_ws r3) as [|e r4] eqn:E3; [discriminate|].
    rewrite (skip_ws_app _ t _ _ E3). cbn [next_is].
    destruct (Ascii.eqb e ",").
    { destruct (parse_members f r4) as [[ms' r']|] eqn:Em; [|discriminate].
      intros [= <- <-]. now rewrite (IHm _ _ _ Em). }
    destruct (Ascii.eqb e "}"); [now intros [= <- <-] | discriminate].
Qed.

(** One more unit of fuel reads the same. *)
Lemma parse_fuel_S (f : nat) :
  (forall s x, parse_value f s = Some x -> parse_value (S f) s = Some x) /\
  (forall s x, parse_elements f s = Some x -> parse_elements (S f) s = Some x) /\
  (forall s x, parse_members f s = Some x -> parse_members (S f) s = Some x).
Proof.
  induction f as [|f (IHv & IHe & IHm)]; [repeat split; discriminate|].
  repeat split; intros s x.
  - rewrite (parse_value_S (S f)), (parse_value_S f). unfold value_step.
    destruct (skip_ws s) as [|c r]; [discriminate|].
    destruct (Ascii.eqb c "{").
    { destruct (next_is "}" (skip_ws r)); [trivial|].
      destruct (parse_members f r) as [[ms r']|] eqn:E; [|discriminate].
      now rewrite (IHm _ _ E). }
    destruct (Ascii.eqb c "[").
    { destruct (next_is "]" (skip_ws r)); [trivial|].
      destruct (parse_elements f r) as [[vs r']|] eqn:E; [|discriminate].
      now rewrite (IHe _ _ E). }
    trivial.
  - rewrite (parse_elements_S (S f)), (parse_elements_S f). unfold elements_step.
    destruct (parse_value f s) as [[v r]|] eqn:E; [|discriminate].
    rewrite (IHv _ _ E).
    destruct (next_is "," (skip_ws r)) as [r'|]; [|trivial].
    destruct (parse_elements f r') as [[vs r'']|] eqn:E'; [|discriminate].
    now rewrite (IHe _ _ E').
  - rewrite (parse_members_S (S f)), (parse_members_S f). unfold members_step.
    destruct (next_is dquote (skip_ws s)) as [r|]; [|discriminate].
    destruct (scan_string InText r) as [[key r1]|]; [|discriminate].
    destruct (next_is ":" (skip_ws r1)) as [r2|]; [|discriminate].
    destruct (parse_value f r2) as [[v r3]|] eqn:E; [|discriminate].
    rewrite (IHv _ _ E).
    destruct (next_is "," (skip_ws r3)) as [r4|]; [|trivial].
    destruct (parse_members f r4) as [[ms r5]|] eqn:E'; [|discriminate].
    now rewrite (IHm _ _ E').
Qed.

Lemma parse_value_fuel (f g : nat) s x :
  parse_value f s = Some x -> f <= g -> parse_value g s = Some x.
Proof.
  intros H L. induction L as [|g L IH]; [exact H|].
  now apply (proj1 (parse_fuel_S g)).
Qed.

Lemma parse_elements_fuel (f g : nat) s x :
  parse_elements f s = Some x -> f <= g -> parse_elements g s = Some x.
Proof.
  intros H L. induction L as [|g L IH]; [exact H|].
  now apply (proj1 (proj2 (parse_fuel_S g))).
Qed.

Lemma parse_members_fuel (f g : nat) s x :
  parse_members f s = Some x -> f <= g -> parse_members g s = Some x.
Proof.
  intros H L. induction L as [|g L IH]; [exact H|].
  now apply (proj2 (proj2 (parse_fuel_S g))).
Qed.

End JsonReader.

(** ** The archive's text is a JSON text *)

Section ArchiveText.

Lemma parse_json_reads e v : parse_json e = Some v -> reads (json_fuel e) e v.
Proof.
  unfold parse_json, reads.
  destruct (parse_value (json_fuel e) e) as [[v0 r]|]; [|discriminate].
  destruct (skip_ws r) eqn:E; [|discriminate].
  intros [= ->]. now exists r.
Qed.

Lemma reads_fuel G G' e v : reads G e v -> G <= G' -> reads G' e v.
Proof.
  intros (r & H & E) L. exists r. split; [|exact E].
  exact (parse_value_fuel _ _ _ _ H L).
Qed.

Lemma parse_value_ws f c s :
  is_ws c = true -> parse_value f (String c s) = parse_value f s.
Proof.
  intros E. destruct f; [reflexivity|].
  rewrite !parse_value_S. unfold value_step. simpl skip_ws. now rewrite E.
Qed.

Lemma parse_elements_ws f c s :
  is_ws c = true -> parse_elements f (String c s) = parse_elements f s.
Proof.
  intros E. destruct f; [reflexivity|].
  rewrite !parse_elements_S. unfold elements_step.
  now rewrite (parse_value_ws f c s E).
Qed.

(** A value does not start with a closing bracket. *)
Lemma value_not_close f s x t :
  parse_value f s = Some x -> next_is "]" (skip_ws (s ++ t)) = None.
Proof.
  destruct f; [discriminate|]. rewrite parse_value_S. unfold value_step.
  destruct (skip_ws s) as [|c r] eqn:E; [discriminate|].
  rewrite (skip_ws_app _ t _ _ E). cbn [next_is].
  destruct (Ascii.eqb c "]") eqn:Ec; [|reflexivity].
  apply Ascii.eqb_eq in Ec. subst c. discriminate.
Qed.

(** What a value leaves, followed by [t], skips to [t]'s first byte. *)
Lemma reads_app G e v (t : string) :
  reads G e v -> tail_ok t ->
  exists r, parse_value G (e ++ t) = Some (v, r ++ t) /\ skip_ws (r ++ t) = skip_ws t.
Proof.
  intros (r & H & E) Ht. exists r. split.
  - exact (proj1 (parse_app t Ht G) _ _ _ H).
  - exact (skip_ws_app_blank r t E).
Qed.

Lemma Join_cons (e e' : string) es sep :
  Join (e :: e' :: es) sep = e ++ sep ++ Join (e' :: es) sep.
Proof. reflexivity. Qed.

Lemma Join_length (entries : list string) :
  list_sum (map String.length entries) + 2 * (length entries - 1)
  <= String.length (Join entries separator).
Proof.
  induction entries as [|e es IH]; [simpl; lia|].
  destruct es as [|e' es]; [simpl; lia|].
  rewrite Join_cons, !length_append.
  change (String.length separator) with 2.
  cbn [map list_sum fold_right length] in *. lia.
Qed.

Lemma elements_parse G (entries : list string) (values : list json) (rest : string) :
  Forall2 (reads G) entries values -> entries <> [] ->
  parse_elements (length entries + G) (Join entries separator ++ LF ++ "]" ++ rest)
  = Some (values, rest).
Proof.
  intros F. induction F as [|e v es vs Hev F IH]; [congruence|]. intros _.
  cbn [length Nat.add]. rewrite parse_elements_S. unfold elements_step.
  destruct es as [|e' es].
  - inversion F; subst. cbn [Join length Nat.add].
    destruct (reads_app G e v (LF ++ "]" ++ rest) Hev) as (r & Hp & Hs);
      [reflexivity|].
    rewrite Hp, Hs. reflexivity.
  - rewrite Join_cons, !append_assoc.
    assert (Hev' : reads (length (e' :: es) + G) e v)
      by (apply (reads_fuel G); [assumption | lia]).
    destruct (reads_app _ e v
                (separator ++ Join (e' :: es) separator ++ LF ++ "]" ++ rest) Hev')
      as (r & Hp & Hs); [reflexivity|].
    rewrite Hp, Hs.
    change (skip_ws (separator ++ ?x)) with (String "," (LF ++ x)).
    cbn [next_is]. change (Ascii.eqb "," ",") with true. cbv iota.
    change (LF ++ ?x) with (String "010" x).
    rewrite parse_elements_ws by reflexivity.
    rewrite IH by discriminate. reflexivity.
Qed.

Lemma scan_quoted key (t : string) :
  plain key -> scan_string InText (key ++ String dquote t) = Some (key, t).
Proof.
  intros H. change (String dquote t) with (String dquote "" ++ t).
  rewrite <- append_assoc. exact (scan_string_app _ _ t _ _ H).
Qed.

Lemma parse_value_string f key (t : string) :
  plain key -> parse_value (S f) (quoted key ++ t) = Some (JString key, t).
Proof.
  intros H. rewrite parse_value_S. unfold value_step, quoted.
  cbn [append]. rewrite append_assoc. cbn [append].
  change (skip_ws (String dquote ?x)) with (String dquote x).
  change (Ascii.eqb dquote "{") with false.
  change (Ascii.eqb dquote "[") with false.
  change (Ascii.eqb dquote dquote) with true. cbv iota.
  now rewrite (scan_quoted key t H).
Qed.

Lemma parse_object f key (s r : string) ms :
  parse_members f (quoted key ++ s) = Some (ms, r) ->
  parse_value (S f) (String "{" (quoted key ++ s)) = Some (JObject ms, r).
Proof.
  unfold quoted. cbn [append].
  intros H. rewrite parse_value_S. unfold value_step.
  change (skip_ws (String "{" ?x)) with (String "{" x).
  change (Ascii.eqb "{" "{") with true. cbv iota.
  change (skip_ws (String dquote ?x)) with (String dquote x).
  change (next_is "}" (String dquote ?x)) with (@None string).
  now rewrite H.
Qed.

Lemma parse_member f key (s r3 : string) v :
  plain key -> parse_value f s = Some (v, r3) ->
  parse_members (S f) (quoted key ++ ":" ++ s) =
  match next_is "," (skip_ws r3), next_is "}" (skip_ws r3) with
  | Some r4, _ =>
      match parse_members f r4 with
      | Some (ms, r5) => Some ((key, v) :: ms, r5)
      | None => None
      end
  | None, Some r4 => Some ([(key, v)], r4)
  | None, None => None
  end.
Proof.
  intros Hk Hv. rewrite parse_members_S. unfold members_step, quoted.
  cbn [append]. rewrite append_assoc. cbn [append].
  change (skip_ws (String dquote ?x)) with (String dquote x).
  cbn [next_is]. change (Ascii.eqb dquote dquote) with true. cbv iota.
  rewrite (scan_quoted key _ Hk).
  change (skip_ws (String ":" ?x)) with (String ":" x).
  cbn [next_is]. change (Ascii.eqb ":" ":") with true. cbv iota.
  now rewrite Hv.
Qed.

Lemma parse_array G (entries : list string) (values : list json) (rest : string) :
  Forall2 (reads G) entries values ->
  parse_value (S (length entries + G))
    ("[" ++ LF ++ Join entries separator ++ LF ++ "]" ++ rest)
  = Some (JArray values, rest).
Proof.
  intros F. rewrite parse_value_S. unfold value_step.
  change (skip_ws ("[" ++ ?x)) with (String "[" x).
  change (Ascii.eqb "[" "{") with false.
  change (Ascii.eqb "[" "[") with true. cbv iota.
  change (skip_ws (LF ++ ?x)) with (skip_ws x).
  change (LF ++ ?x) with (String "010" x).
  destruct F as [|e v es vs Hev F].
  - reflexivity.
  - assert (N : next_is "]" (skip_ws (Join (e :: es) separator ++ String "010" ("]" ++ rest))) = None).
    { destruct Hev as (r & Hp & _). destruct es as [|e' es].
      - exact (value_not_close _ _ _ _ Hp).
      - rewrite Join_cons, append_assoc. exact (value_not_close _ _ _ _ Hp). }
    rewrite N, parse_elements_ws by reflexivity.
    change (String "010" ("]" ++ rest)) with (LF ++ "]" ++ rest).
    rewrite (elements_parse G (e :: es) (v :: vs) rest); [reflexivity | | discriminate].
    now constructor.
Qed.

Lemma plain_names : plain "log" /\ plain "version" /\ plain "1.2" /\
                    plain "creator" /\ plain "entries".
Proof. repeat split; vm_compute; reflexivity. Qed.

(** The archive's text, with its punctuation spelled out. *)
Lemma archive_bytes_shape (creatorJson : string) (entries : list string) :
  archive_bytes creatorJson entries =
  String "{" (quoted "log" ++ ":" ++
    String "{" (quoted "version" ++ ":" ++ quoted "1.2" ++ "," ++
                quoted "creator" ++ ":" ++ creatorJson ++ "," ++
                quoted "entries" ++ ":" ++
                "[" ++ LF ++ Join entries separator ++ LF ++ "]" ++ "}}")).
Proof.
  unfold archive_bytes, preamble_head, preamble_tail, closing, quoted.
  rewrite !append_assoc. reflexivity.
Qed.

Lemma archive_parse G (creatorJson : string) (creator : json)
    (entries : list string) (values : list json) :
  reads G creatorJson creator -> Forall2 (reads G) entries values ->
  parse_value (7 + (length entries + G)) (archive_bytes creatorJson entries)
  = Some (archive creator values, "").
Proof.
  intros Hc F. destruct plain_names as (Klog & Kver & K12 & Kcre & Kent).
  set (n := length entries + G).
  assert (A : parse_value (S n)
                ("[" ++ LF ++ Join entries separator ++ LF ++ "]" ++ "}}")
              = Some (JArray values, "}}")) by (apply parse_array; assumption).
  assert (E : parse_members (S (S n))
                (quoted "entries" ++ ":" ++
                 "[" ++ LF ++ Join entries separator ++ LF ++ "]" ++ "}}")
              = Some ([("entries", JArray values)], "}")).
  { rewrite (parse_member _ _ _ _ _ Kent A). reflexivity. }
  assert (C : parse_members (S (S (S n)))
                (quoted "creator" ++ ":" ++ creatorJson ++ "," ++
                 quoted "entries" ++ ":" ++
                 "[" ++ LF ++ Join entries separator ++ LF ++ "]" ++ "}}")
              = Some ([("creator", creator); ("entries", JArray values)], "}")).
  { assert (Hc' : reads (S (S n)) creatorJson creator)
      by (apply (reads_fuel G); [assumption | unfold n; lia]).
    destruct (reads_app _ _ _
                ("," ++ quoted "entries" ++ ":" ++
                 "[" ++ LF ++ Join entries separator ++ LF ++ "]" ++ "}}") Hc')
      as (r & Hp & Hs); [reflexivity|].
    rewrite (parse_member _ _ _ _ _ Kcre Hp), Hs.
    change (skip_ws ("," ++ ?x)) with (String "," x).
    cbn [next_is]. change (Ascii.eqb "," ",") with true. cbv iota.
    now rewrite E. }
  assert (V : parse_members (S (S (S (S n))))
                (quoted "version" ++ ":" ++ quoted "1.2" ++ "," ++
                 quoted "creator" ++ ":" ++ creatorJson ++ "," ++
                 quoted "entries" ++ ":" ++
                 "[" ++ LF ++ Join entries separator ++ LF ++ "]" ++ "}}")
              = Some ([("version", JString "1.2"); ("creator", creator);
                       ("entries", JArray values)], "}")).
  { rewrite (parse_member _ _ _ _ _ Kver (parse_value_string _ _ _ K12)).
    change (skip_ws ("," ++ ?x)) with (String "," x).
    cbn [next_is]. change (Ascii.eqb "," ",") with true. cbv iota.
    now rewrite C. }
  rewrite archive_bytes_shape.
  change (7 + n) with (S (S (S (S (S (S (S n))))))).
  apply parse_object.
  rewrite (parse_member _ _ _ _ _ Klog (parse_object _ _ _ _ _ V)).
  reflexivity.
Qed.

(** A complete archive is a JSON text: the object of section 6, with one
    element of [entries] for each entry written. *)
Lemma archive_bytes_parse (creatorJson : string) (creator : json)
    (entries : list string) (values : list json) :
  parse_json creatorJson = Some creator ->
  Forall2 (fun e v => parse_json e = Some v) entries values ->
  parse_json (archive_bytes creatorJson entries) = Some (archive creator values).
Proof.
  intros Hc F.
  set (G := S (S (2 * (String.length creatorJson
                       + list_sum (map String.length entries))))).
  assert (Hc' : reads G creatorJson creator).
  { apply (reads_fuel (json_fuel creatorJson)); [now apply parse_json_reads|].
    unfold json_fuel, G. lia. }
  assert (F' : Forall2 (reads G) entries values).
  { assert (B : forall e, In e entries -> json_fuel e <= G).
    { intros e He. unfold json_fuel, G.
      assert (String.length e <= list_sum (map String.length entries)).
      { clear -He. induction entries as [|x l IH]; [destruct He|].
        cbn [map list_sum fold_right]. destruct He as [-> | He]; [lia|].
        specialize (IH He). unfold list_sum in IH. lia. }
      lia. }
    clear Hc Hc'. clearbody G. induction F as [|e v es vs H F IH]; constructor.
    - apply (reads_fuel (json_fuel e)); [now apply parse_json_reads|].
      apply B. now left.
    - apply IH. intros e' He'. apply B. now right. }
  pose proof (archive_parse G _ _ _ _ Hc' F') as P.
  unfold parse_json.
  rewrite (parse_value_fuel _ (json_fuel (archive_bytes creatorJson entries)) _ _ P);
    [reflexivity|].
  unfold json_fuel, archive_bytes. rewrite !length_append.
  pose proof (Join_length entries) as J.
  change (String.length preamble_head) with 34.
  change (String.length preamble_tail) with 13.
  change (String.length closing) with 4.
  unfold G. lia.
Qed.

End ArchiveText.

(** ** The sink *)

Section SinkFacts.

Lemma sink_Write_ok (w w' : Sink) (p : string) :
  sink_Write w p = (w', None) -> written w' = written w ++ p.
Proof.
  unfold sink_Write. destruct (script w) as [|[[k e]|] later];
    intros [= <-]; reflexivity.
Qed.

End SinkFacts.

(** ** writers.go *)

Section HarWriterFacts.
Context `{GoRuntime}.

Lemma separated_Join (entries : list string) :
  separated true entries = Join entries separator.
Proof.
  destruct entries as [|e es]; [reflexivity|]. cbn [separated append].
  revert e; induction es as [|e' es IH]; intros e.
  - cbn. apply append_nil_r.
  - rewrite Join_cons. cbn [separated]. now rewrite <- IH.
Qed.

Lemma NewHarWriter_ok (s s' : Sink) creator (w : HarWriter.t) :
  HarWriter.NewHarWriter s creator = (Some w, None, s') ->
  HarWriter.first w = true /\ HarWriter.closed w = false /\
  written (HarWriter.writer w)
  = written s ++ preamble_head ++ Marshal_Creator creator ++ preamble_tail.
Proof.
  unfold HarWriter.NewHarWriter.
  destruct (sink_Write s preamble_head) as [w1 [e|]] eqn:E1; [discriminate|].
  destruct (sink_Write w1 _) as [w2 [e|]] eqn:E2; [discriminate|].
  destruct (sink_Write w2 _) as [w3 [e|]] eqn:E3; [discriminate|].
  intros [= <- <-]. cbn. repeat split.
  rewrite (sink_Write_ok _ _ _ E3), (sink_Write_ok _ _ _ E2), (sink_Write_ok _ _ _ E1).
  now rewrite !append_assoc.
Qed.

Lemma WriteEntry_ok (w w' : HarWriter.t) entry :
  HarWriter.WriteEntry w entry = (w', None) ->
  HarWriter.closed w = false /\
  HarWriter.first w' = false /\ HarWriter.closed w' = false /\
  written (HarWriter.writer w')
  = written (HarWriter.writer w)
    ++ (if HarWriter.first w then "" else separator) ++ raw_bytes entry.
Proof.
  unfold HarWriter.WriteEntry. destruct (HarWriter.closed w) eqn:C; [discriminate|].
  destruct (HarWriter.first w); cbn [negb].
  - destruct (sink_Write _ _) as [s2 [e|]] eqn:E2; [discriminate|].
    intros [= <-]. cbn. repeat split. exact (sink_Write_ok _ _ _ E2).
  - destruct (sink_Write _ separator) as [s1 [e|]] eqn:E1; [discriminate|].
    destruct (sink_Write s1 _) as [s2 [e|]] eqn:E2; [discriminate|].
    intros [= <-]. cbn. repeat split.
    rewrite (sink_Write_ok _ _ _ E2), (sink_Write_ok _ _ _ E1).
    now rewrite append_assoc.
Qed.

Lemma WriteEntries_ok (entries : list RawMessage) (w w' : HarWriter.t) :
  HarWriter.WriteEntries w entries = (w', None) ->
  HarWriter.closed w = false ->
  HarWriter.closed w' = false /\
  written (HarWriter.writer w')
  = written (HarWriter.writer w)
    ++ separated (HarWriter.first w) (map raw_bytes entries).
Proof.
  revert w; induction entries as [|e es IH]; intros w; cbn [HarWriter.WriteEntries].
  - intros [= <-] C. split; [exact C|]. cbn. now rewrite append_nil_r.
  - destruct (HarWriter.WriteEntry w e) as [w1 [err|]] eqn:E; [discriminate|].
    intros R _. destruct (WriteEntry_ok _ _ _ E) as (_ & F1 & C1 & W1).
    destruct (IH _ R C1) as (C' & W'). split; [exact C'|].
    rewrite W', W1, F1. cbn [map separated]. now rewrite !append_assoc.
Qed.

Lemma HarWriter_Close_ok (w w' : HarWriter.t) :
  HarWriter.Close w = (w', None) ->
  written (HarWriter.writer w') = written (HarWriter.writer w) ++ closing.
Proof.
  unfold HarWriter.Close. destruct (HarWriter.closed w); [discriminate|].
  destruct (sink_Write _ _) as [s1 [e|]] eqn:E; [discriminate|].
  intros [= <-]. exact (sink_Write_ok _ _ _ E).
Qed.

Lemma framed_archive_intro (creatorJson : string) (entries : list string)
    (before : string) :
  framed_archive creatorJson entries before
    (before ++ archive_bytes creatorJson entries).
Proof.
  exists (archive_bytes creatorJson entries).
  split; [reflexivity|]. split; [reflexivity|]. intros creator values Hc F. split.
  - now apply archive_bytes_parse.
  - symmetry. exact (Forall2_length F).
Qed.

Lemma HarWriter_archive (s s' : Sink) creator (entries : list RawMessage)
    (w0 w1 w2 : HarWriter.t) :
  HarWriter.NewHarWriter s creator = (Some w0, None, s') ->
  HarWriter.WriteEntries w0 entries = (w1, None) ->
  HarWriter.Close w1 = (w2, None) ->
  written (HarWriter.writer w2)
  = written s ++ archive_bytes (Marshal_Creator creator) (map raw_bytes entries).
Proof.
  intros N W C.
  destruct (NewHarWriter_ok _ _ _ _ N) as (F0 & C0 & W0).
  destruct (WriteEntries_ok _ _ _ W C0) as (_ & W1).
  rewrite (HarWriter_Close_ok _ _ C), W1, W0, F0, separated_Join.
  unfold archive_bytes. now rewrite !append_assoc.
Qed.

End HarWriterFacts.

(** ** round_tripper.go: the framing *)

Section RoundTripperFraming.
Context `{GoRuntime}.

Lemma writePreamble_ok (rt rt' : RoundTripper.t) :
  RoundTripper.writePreamble rt = (rt', None) ->
  RoundTripper.inner rt' = RoundTripper.inner rt /\
  RoundTripper.opts rt' = RoundTripper.opts rt /\
  RoundTripper.first rt' = RoundTripper.first rt /\
  written (RoundTripper.writer rt')
  = written (RoundTripper.writer rt) ++ preamble_head
    ++ Marshal_Creator (Options.Creator (RoundTripper.opts rt)) ++ preamble_tail.
Proof.
  unfold RoundTripper.writePreamble.
  destruct (sink_Write _ preamble_head) as [w1 [e|]] eqn:E1; [discriminate|].
  destruct (sink_Write w1 _) as [w2 [e|]] eqn:E2; [discriminate|].
  destruct (sink_Write w2 _) as [w3 [e|]] eqn:E3; [discriminate|].
  intros [= <-]. cbn. repeat split.
  rewrite (sink_Write_ok _ _ _ E3), (sink_Write_ok _ _ _ E2), (sink_Write_ok _ _ _ E1).
  now rewrite !append_assoc.
Qed.

(** A round tripper built by [New] has a hook and a creator, and has written
    the preamble. *)
Lemma New_ok roundTripper (s s' : Sink) o (rt : RoundTripper.t) :
  RoundTripper.New roundTripper s o = (Some rt, None, s') ->
  RoundTripper.first rt = true /\
  (exists hook, Options.Rewrite (RoundTripper.opts rt) = Some hook) /\
  (exists creator, Options.Creator (RoundTripper.opts rt) = Some creator /\
                   Creator.Name creator <> "" /\ Creator.Version creator <> "") /\
  written (RoundTripper.writer rt)
  = written s ++ preamble_head
    ++ Marshal_Creator (Options.Creator (RoundTripper.opts rt)) ++ preamble_tail.
Proof.
  unfold RoundTripper.New.
  set (tr := match roundTripper with Some t => t | None => DefaultTransport end).
  set (o1 := match o with Some o => o | None => DefaultOptions end).
  set (o2 := match Options.Rewrite o1 with
             | Some _ => o1
             | None => Options.mk (Options.Rewrite DefaultOptions) (Options.Creator o1)
             end).
  set (o3 := match Options.Creator o2 with
             | Some _ => o2
             | None => Options.mk (Options.Rewrite o2) (Options.Creator DefaultOptions)
             end).
  assert (R2 : exists hook, Options.Rewrite o2 = Some hook).
  { unfold o2. destruct (Options.Rewrite o1) as [h|] eqn:E; [now exists h|].
    cbn. eauto. }
  assert (R3 : exists hook, Options.Rewrite o3 = Some hook).
  { unfold o3. destruct (Options.Creator o2); [exact R2 | exact R2]. }
  destruct (Options.Creator o3) as [c|] eqn:Ec; [|discriminate].
  destruct (String.eqb (Creator.Name c) "") eqn:En; [discriminate|].
  destruct (String.eqb (Creator.Version c) "") eqn:Ev; [discriminate|].
  destruct (RoundTripper.writePreamble _) as [rt' [e|]] eqn:Ep; [discriminate|].
  intros [= <- <-].
  destruct (writePreamble_ok _ _ Ep) as (_ & O & F & W). cbn in O, F, W.
  rewrite O, F. repeat split; try assumption.
  exists c. repeat split; [assumption | |].
  - intros K. rewrite K in En. discriminate.
  - intros K. rewrite K in Ev. discriminate.
Qed.

Lemma writeEntry_ok (rt rt' : RoundTripper.t) hook request response entry :
  Options.Rewrite (RoundTripper.opts rt) = Some hook ->
  RoundTripper.writeEntry rt request response entry = Returns (rt', None) ->
  RoundTripper.opts rt' = RoundTripper.opts rt /\
  match hook request response (Marshal_Entry entry) with
  | None => rt' = rt
  | Some bytes =>
      RoundTripper.first rt' = false /\
      written (RoundTripper.writer rt')
      = written (RoundTripper.writer rt)
        ++ (if RoundTripper.first rt then "" else separator) ++ bytes
  end.
Proof.
  intros Hh. unfold RoundTripper.writeEntry. rewrite Hh.
  destruct (hook request response (Marshal_Entry entry)) as [bytes|].
  2: { intros [= <-]. now split. }
  destruct (RoundTripper.first rt); cbn [negb].
  - destruct (sink_Write _ _) as [w2 [e|]] eqn:E2; [discriminate|].
    intros [= <-]. cbn. repeat split. exact (sink_Write_ok _ _ _ E2).
  - destruct (sink_Write _ separator) as [w1 [e|]] eqn:E1; [discriminate|].
    destruct (sink_Write w1 _) as [w2 [e|]] eqn:E2; [discriminate|].
    intros [= <-]. cbn. repeat split.
    rewrite (sink_Write_ok _ _ _ E2), (sink_Write_ok _ _ _ E1).
    now rewrite append_assoc.
Qed.

Lemma writeEntries_ok hook (xs : list RoundTripper.exchange) (rt rt' : RoundTripper.t) :
  Options.Rewrite (RoundTripper.opts rt) = Some hook ->
  RoundTripper.writeEntries rt xs = Returns (rt', None) ->
  RoundTripper.opts rt' = RoundTripper.opts rt /\
  written (RoundTripper.writer rt')
  = written (RoundTripper.writer rt)
    ++ separated (RoundTripper.first rt) (RoundTripper.committed hook xs).
Proof.
  revert rt; induction xs as [|x xs IH]; intros rt Hh; cbn [RoundTripper.writeEntries].
  - intros [= <-]. split; [reflexivity|]. cbn. now rewrite append_nil_r.
  - destruct (RoundTripper.writeEntry rt _ _ _) as [[rt1 [e|]]|] eqn:E;
      try discriminate.
    intros R. destruct (writeEntry_ok _ _ _ _ _ _ Hh E) as (O1 & K).
    assert (Hh1 : Options.Rewrite (RoundTripper.opts rt1) = Some hook)
      by now rewrite O1.
    destruct (IH _ Hh1 R) as (O' & W'). split; [congruence|].
    rewrite W'. unfold RoundTripper.committed. cbn [flat_map].
    fold (RoundTripper.committed hook xs).
    destruct (hook _ _ _) as [bytes|].
    + destruct K as (F1 & W1). rewrite W1, F1. cbn [app separated].
      now rewrite !append_assoc.
    + now subst rt1.
Qed.

Lemma RoundTripper_Close_ok (rt rt' : RoundTripper.t) :
  RoundTripper.Close rt = (rt', None) ->
  written (RoundTripper.writer rt') = written (RoundTripper.writer rt) ++ closing.
Proof.
  unfold RoundTripper.Close.
  destruct (sink_Write _ _) as [w1 [e|]] eqn:E; [discriminate|].
  intros [= <-]. exact (sink_Write_ok _ _ _ E).
Qed.

Lemma RoundTripper_archive roundTripper (s s' : Sink) o hook
    (xs : list RoundTripper.exchange) (rt0 rt1 rt2 : RoundTripper.t) :
  RoundTripper.New roundTripper s o = (Some rt0, None, s') ->
  Options.Rewrite (RoundTripper.opts rt0) = Some hook ->
  RoundTripper.writeEntries rt0 xs = Returns (rt1, None) ->
  RoundTripper.Close rt1 = (rt2, None) ->
  written (RoundTripper.writer rt2)
  = written s
    ++ archive_bytes (Marshal_Creator (Options.Creator (RoundTripper.opts rt0)))
                     (RoundTripper.committed hook xs).
Proof.
  intros N Hh W C.
  destruct (New_ok _ _ _ _ _ N) as (F0 & _ & _ & W0).
  destruct (writeEntries_ok _ _ _ _ Hh W) as (_ & W1).
  rewrite (RoundTripper_Close_ok _ _ C), W1, W0, F0, separated_Join.
  unfold archive_bytes. now rewrite !append_assoc.
Qed.

End RoundTripperFraming.

(** ** round_tripper.go: an exchange *)

Section Exchange.
Context `{GoRuntime}.

(** [RoundTrip] when pre-capture returns an error. *)
Lemma RoundTrip_pre_error (rt : RoundTripper.t) request request' entry e w :
  RoundTripper.preRoundTrip request Entry.empty = Returns (request', entry, Some e) ->
  RoundTripper.RoundTrip rt request w
  = Returns (RoundTripper.mkResult rt request' w None (Some e)).
Proof. intros P. unfold RoundTripper.RoundTrip. now rewrite P. Qed.

(** [RoundTrip] once pre-capture succeeded: the transport is called, once. *)
Lemma RoundTrip_sends (rt : RoundTripper.t) request request' entry w :
  RoundTripper.preRoundTrip request Entry.empty = Returns (request', entry, None) ->
  RoundTripper.RoundTrip rt request w
  = let w1 := mkWorld (S (ticks w)) (request' :: sent w) in
    match RoundTripper.inner rt request' (newClientTracer (clock (ticks w))) with
    | (response, Some err, _) =>
        Returns (RoundTripper.mkResult rt request' w1 response (Some err))
    | (None, None, _) => Panics "nil pointer dereference"
    | (Some response, None, trace) =>
        match RoundTripper.postRoundTrip response entry trace w1 with
        | (response, _, w2, Some err) =>
            Returns (RoundTripper.mkResult rt request' w2 (Some response) (Some err))
        | (response, entry, w2, None) =>
            match RoundTripper.writeEntry rt request' response entry with
            | Panics why => Panics why
            | Returns (rt', err) =>
                Returns (RoundTripper.mkResult rt' request' w2 (Some response) err)
            end
        end
    end.
Proof. intros P. unfold RoundTripper.RoundTrip. rewrite P. reflexivity. Qed.

Lemma preRoundTrip_body (r : http.Request.t) entry body reqBody :
  http.Request.Body r = Some body ->
  http.Request.GetBody r = Some (inl reqBody) ->
  http.failure reqBody = None ->
  RoundTripper.preRoundTrip r entry
  = match RoundTripper.capture_body r (http.data reqBody) with
    | (r', inr err) => Returns (r', entry, Some err)
    | (r', inl postData) =>
        Returns
          (r',
           Entry.mk (Entry.StartedDateTime entry) (Entry.Time entry)
             (Some (Request.mk (http.Request.Method r')
                      (url.String_ (http.Request.URL r'))
                      (http.Request.Proto r')
                      (toHARCookies (Request_Cookies (http.Request.Header r')))
                      (RoundTripper.toHARNVP (http.Request.Header r'))
                      (RoundTripper.toHARNVP (url.Query (http.Request.URL r')))
                      (Some postData) (-1)%Z
                      (Z.of_nat (String.length (http.data reqBody)))))
             (Entry.Response entry) (Entry.Timings entry),
           None)
    end.
Proof.
  intros B G F. unfold RoundTripper.preRoundTrip. rewrite B, G.
  unfold http.ReadAll. rewrite F.
  destruct (RoundTripper.capture_body r (http.data reqBody)) as [r' [pd|e]];
    reflexivity.
Qed.

(** A body without [GetBody]: the call of the nil function panics. *)
Lemma RoundTrip_nil_GetBody (rt : RoundTripper.t) (r : http.Request.t) body w :
  http.Request.Body r = Some body ->
  http.Request.GetBody r = None ->
  RoundTripper.RoundTrip rt r w = Panics "call of a nil function".
Proof.
  intros B G. unfold RoundTripper.RoundTrip, RoundTripper.preRoundTrip.
  now rewrite B, G.
Qed.

Lemma capture_body_fails (r : http.Request.t) (bytes : string) e :
  RoundTripper.decoding_fails r e ->
  exists r', RoundTripper.capture_body r bytes = (r', inr e).
Proof.
  unfold RoundTripper.capture_body. intros [mt e0 P | r' e0 P F | e0 P F]; rewrite P.
  - now exists r.
  - cbn. rewrite F. now exists r'.
  - cbn. rewrite F. now exists r.
Qed.

End Exchange.

(** ** The specified properties: framing and errors *)

Section FramingAndErrors.
Context `{GoRuntime}.

(** C2.  For the framed-array writer [HarWriter]: once [Close] was called
    (whatever it returned), a second [Close] returns an error and so does
    [WriteEntry], and both leave the writer and its sink as they were:
    nothing more is written. *)
Theorem HarWriter_closed_errors (w : HarWriter.t) (entry : RawMessage) :
  let finalized := fst (HarWriter.Close w) in
  HarWriter.Close finalized
  = (finalized, Some (errorString "HarWriter already closed")) /\
  HarWriter.WriteEntry finalized entry
  = (finalized, Some (errorString "HarWriter already closed")).
Proof.
  assert (C : HarWriter.closed (fst (HarWriter.Close w)) = true).
  { unfold HarWriter.Close. destruct (HarWriter.closed w) eqn:E; [exact E|].
    now destruct (sink_Write _ _) as [s1 [e|]]. }
  cbv zeta. unfold HarWriter.Close at 1, HarWriter.WriteEntry.
  rewrite C. split; reflexivity.
Qed.

(** The round tripper's own [Close] has no such guard: on a sink that
    accepts the bytes, a second call writes the closing again and returns
    no error. *)
Lemma RoundTripper_Close_twice (rt : RoundTripper.t) :
  script (RoundTripper.writer rt) = [] ->
  exists rt', RoundTripper.Close (fst (RoundTripper.Close rt)) = (rt', None) /\
              written (RoundTripper.writer rt')
              = written (RoundTripper.writer rt) ++ closing ++ closing.
Proof.
  intros E. unfold RoundTripper.Close, sink_Write. rewrite E. cbn.
  eexists. split; [reflexivity|]. cbn. now rewrite append_assoc.
Qed.

(** C1.  After a successful construction, successful entry writes and one
    successful finalize, the sink has received the bytes of the archive: the
    preamble, the entries that were not suppressed, each after the first
    behind the separator [",\n"], and the closing.  When the creator and
    the entries are JSON texts, these bytes read as the JSON object
    [{"log":{"version":"1.2","creator":C,"entries":[...]}}] whose [entries]
    has one element for each entry written.  This holds for [HarWriter] and
    for the round tripper's own framing ([New], [writeEntry], [Close]). *)
Theorem framed_archive_is_json :
  (forall (s s' : Sink) creator (entries : list RawMessage)
          (w0 w1 w2 : HarWriter.t),
      HarWriter.NewHarWriter s creator = (Some w0, None, s') ->
      HarWriter.WriteEntries w0 entries = (w1, None) ->
      HarWriter.Close w1 = (w2, None) ->
      framed_archive (Marshal_Creator creator) (map raw_bytes entries)
                     (written s) (written (HarWriter.writer w2)))
  /\
  (forall roundTripper (s s' : Sink) o hook (xs : list RoundTripper.exchange)
          (rt0 rt1 rt2 : RoundTripper.t),
      RoundTripper.New roundTripper s o = (Some rt0, None, s') ->
      Options.Rewrite (RoundTripper.opts rt0) = Some hook ->
      RoundTripper.writeEntries rt0 xs = Returns (rt1, None) ->
      RoundTripper.Close rt1 = (rt2, None) ->
      framed_archive (Marshal_Creator (Options.Creator (RoundTripper.opts rt0)))
                     (RoundTripper.committed hook xs)
                     (written s) (written (RoundTripper.writer rt2))).
Proof.
  split.
  - intros s s' creator entries w0 w1 w2 N W C.
    rewrite (HarWriter_archive _ _ _ _ _ _ _ N W C).
    apply framed_archive_intro.
  - intros roundTripper s s' o hook xs rt0 rt1 rt2 N Hh W C.
    rewrite (RoundTripper_archive _ _ _ _ _ _ _ _ _ N Hh W C).
    apply framed_archive_intro.
Qed.

(** C3.  When the inner transport returns an error, [RoundTrip] returns
    that very error (and the response the transport returned with it); the
    round tripper is as before the call: its sink has received nothing and
    its [first] flag is unchanged. *)
Theorem transport_error_propagates (rt : RoundTripper.t) request request' entry w
    response e trace :
  RoundTripper.preRoundTrip request Entry.empty = Returns (request', entry, None) ->
  RoundTripper.inner rt request' (newClientTracer (clock (ticks w)))
  = (response, Some e, trace) ->
  RoundTripper.RoundTrip rt request w
  = Returns (RoundTripper.mkResult rt request'
               (mkWorld (S (ticks w)) (request' :: sent w)) response (Some e)).
Proof.
  intros P I. rewrite (RoundTrip_sends _ _ _ _ _ P). cbv zeta. rewrite I.
  now destruct response.
Qed.

(** C4.  When the body of a request fails pre-capture decoding (its media
    type does not parse, or it is a urlencoded or multipart form that does
    not), [RoundTrip] returns the error; the world is as before (the inner
    transport was not called) and so is the round tripper (nothing was
    written). *)
Theorem decoding_failure_aborts (rt : RoundTripper.t) (r : http.Request.t) w
    body reqBody e :
  http.Request.Body r = Some body ->
  http.Request.GetBody r = Some (inl reqBody) ->
  http.failure reqBody = None ->
  RoundTripper.decoding_fails r e ->
  exists r', RoundTripper.RoundTrip rt r w
             = Returns (RoundTripper.mkResult rt r' w None (Some e)).
Proof.
  intros B G F D.
  destruct (capture_body_fails r (http.data reqBody) e D) as (r' & K).
  exists r'. apply (RoundTrip_pre_error _ _ _ Entry.empty).
  rewrite (preRoundTrip_body _ _ _ _ B G F), K. reflexivity.
Qed.

(** C9.  A request with a body and a [GetBody] that is not nil, and no
    Content-Type (the header reads as the empty string), the empty media
    type being refused by [mime.ParseMediaType]: [RoundTrip] returns an
    error, with the world and the round tripper as before (the transport was
    not called, nothing was written).  When the body could be read, the error
    is the refusal of the media type: the body is not kept as opaque text.
    (With a nil [GetBody] the call panics and returns nothing.) *)
Theorem missing_content_type_is_an_error (rt : RoundTripper.t) (r : http.Request.t) w
    body getBody mediaType e :
  http.Request.Body r = Some body ->
  http.Request.GetBody r = Some getBody ->
  http.Header_Get (http.Request.Header r) "Content-Type" = "" ->
  ParseMediaType "" = (mediaType, Some e) ->
  exists r' err,
    RoundTripper.RoundTrip rt r w
    = Returns (RoundTripper.mkResult rt r' w None (Some err)) /\
    (forall reqBody, getBody = inl reqBody -> http.failure reqBody = None ->
                     err = wrapError "parsing request Content-Type" e).
Proof.
  intros B G C P. destruct getBody as [reqBody | ge].
  - destruct (http.failure reqBody) as [re|] eqn:F.
    + exists r, (wrapError "reading request body" re).
      split; [|intros ? [= <-] F'; congruence].
      apply (RoundTrip_pre_error _ _ _ Entry.empty). unfold RoundTripper.preRoundTrip.
      rewrite B, G. unfold http.ReadAll. now rewrite F.
    + exists r, (wrapError "parsing request Content-Type" e). split; [|reflexivity].
      apply (RoundTrip_pre_error _ _ _ Entry.empty). rewrite (preRoundTrip_body _ _ _ _ B G F).
      unfold RoundTripper.capture_body. rewrite C, P. reflexivity.
  - exists r, (wrapError "getting body" ge). split; [|intros ? [=]].
    apply (RoundTrip_pre_error _ _ _ Entry.empty). unfold RoundTripper.preRoundTrip. now rewrite B, G.
Qed.

End FramingAndErrors.

(** ** round_tripper.go: post-capture *)

Section PostCapture.
Context `{GoRuntime}.

Lemma postRoundTrip_read_error (resp : http.Response.t) entry trace w e :
  http.failure (http.Response.Body resp) = Some e ->
  RoundTripper.postRoundTrip resp entry trace w
  = (http.Response.with_Body resp (http.mkReader "" (Some e) true), entry, w, Some e).
Proof.
  intros F. unfold RoundTripper.postRoundTrip, http.ReadAll, http.Close.
  rewrite F. reflexivity.
Qed.

Lemma postRoundTrip_bad_type (resp : http.Response.t) entry trace w mediaType e :
  http.failure (http.Response.Body resp) = None ->
  ParseMediaType (http.Header_Get (http.Response.Header resp) "Content-Type")
  = (mediaType, Some e) ->
  RoundTripper.postRoundTrip resp entry trace w
  = (http.Response.with_Body resp
       (http.NopCloser_Buffer (http.data (http.Response.Body resp))),
     entry, w, Some (wrapError "parsing response Content-Type" e)).
Proof.
  intros F P. unfold RoundTripper.postRoundTrip, http.ReadAll.
  rewrite F. cbn. rewrite P. reflexivity.
Qed.

(** What a successful [postRoundTrip] leaves. *)
Lemma postRoundTrip_ok (resp resp' : http.Response.t) entry entry' trace w w' :
  RoundTripper.postRoundTrip resp entry trace w = (resp', entry', w', None) ->
  exists mediaType,
    http.failure (http.Response.Body resp) = None /\
    ParseMediaType (http.Header_Get (http.Response.Header resp) "Content-Type")
    = (mediaType, None) /\
    resp' = http.Response.with_Body resp
              (http.NopCloser_Buffer (http.data (http.Response.Body resp))) /\
    Entry.Request entry' = Entry.Request entry /\
    Entry.Timings entry'
    = Some (RoundTripper.timings_of (with_endAt trace (clock (ticks w)))) /\
    RoundTripper.archived_content entry'
    = Some (Content.mk (http.Response.ContentLength resp) 0%Z
              (http.Header_Get (http.Response.Header resp) "Content-Type")
              (if HasPrefix mediaType "text/"
               then http.data (http.Response.Body resp)
               else base64.EncodeToString (http.data (http.Response.Body resp)))
              (if HasPrefix mediaType "text/" then "" else "base64")).
Proof.
  unfold RoundTripper.postRoundTrip, http.ReadAll.
  destruct (http.failure (http.Response.Body resp)) as [e|] eqn:F; [discriminate|].
  cbn [http.Response.with_Body http.Response.Header].
  destruct (ParseMediaType _) as [mediaType [e|]] eqn:P; [discriminate|].
  intros K. exists mediaType. destruct (HasPrefix mediaType "text/"); cbn in K;
    injection K as <- <- <-; repeat split; reflexivity.
Qed.

(** A successful exchange went through the four steps. *)
Lemma RoundTrip_success (rt : RoundTripper.t) request w res :
  RoundTripper.RoundTrip rt request w = Returns res ->
  RoundTripper.err res = None ->
  exists request' entry0 resp0 trace resp1 entry1,
    RoundTripper.preRoundTrip request Entry.empty = Returns (request', entry0, None) /\
    RoundTripper.inner rt request' (newClientTracer (clock (ticks w)))
    = (Some resp0, None, trace) /\
    RoundTripper.postRoundTrip resp0 entry0 trace
      (mkWorld (S (ticks w)) (request' :: sent w))
    = (resp1, entry1, RoundTripper.res_world res, None) /\
    RoundTripper.writeEntry rt request' resp1 entry1
    = Returns (RoundTripper.res_rt res, None) /\
    RoundTripper.response res = Some resp1.
Proof.
  destruct (RoundTripper.preRoundTrip request Entry.empty)
    as [[[request' entry0] [e|]]|why] eqn:P.
  - rewrite (RoundTrip_pre_error _ _ _ _ _ _ P). intros [= <-]. discriminate.
  - rewrite (RoundTrip_sends _ _ _ _ _ P). cbv zeta.
    destruct (RoundTripper.inner rt request' _) as [[[resp0|] [e|]] trace] eqn:I;
      try (intros [= <-]; discriminate); try discriminate.
    destruct (RoundTripper.postRoundTrip resp0 entry0 trace _)
      as [[[resp1 entry1] w1] [e|]] eqn:Q; [intros [= <-]; discriminate|].
    destruct (RoundTripper.writeEntry rt request' resp1 entry1)
      as [[rt' [e|]]|why] eqn:W; try (intros [= <-]; discriminate); try discriminate.
    intros [= <-] _. cbn. exists request', entry0, resp0, trace, resp1, entry1.
    repeat split; assumption.
  - unfold RoundTripper.RoundTrip. rewrite P. discriminate.
Qed.

End PostCapture.

(** ** The specified properties: the contents of an entry *)

Section EntryContents.
Context `{GoRuntime}.

Lemma postRoundTrip_content (resp resp' : http.Response.t) entry entry'
    trace w w' :
  RoundTripper.postRoundTrip resp entry trace w = (resp', entry', w', None) ->
  exists mediaType content,
    ParseMediaType (http.Header_Get (http.Response.Header resp) "Content-Type")
    = (mediaType, None) /\
    RoundTripper.archived_content entry' = Some content /\
    (HasPrefix mediaType "text/" = true ->
     Content.Text content = http.data (http.Response.Body resp) /\
     Content.Encoding content = "") /\
    (HasPrefix mediaType "text/" = false ->
     Content.Text content = base64.EncodeToString (http.data (http.Response.Body resp)) /\
     Content.Encoding content = "base64").
Proof.
  intros P. destruct (postRoundTrip_ok _ _ _ _ _ _ _ P) as (mt & _ & M & _ & _ & _ & C).
  exists mt. eexists. split; [exact M|]. split; [exact C|].
  split; intros E; rewrite E; split; reflexivity.
Qed.

(** C5.  In every successful exchange, the entry handed to [writeEntry]
    archives the body of the response the transport returned according to
    the media type parsed from its Content-Type: if it begins with [text/],
    [Content.Text] is the body, byte for byte, and [Content.Encoding] is
    empty; otherwise [Content.Text] is the standard base64 encoding of the
    body and [Content.Encoding] is ["base64"]. *)
Theorem response_content_encoding (rt : RoundTripper.t) request w res :
  RoundTripper.RoundTrip rt request w = Returns res ->
  RoundTripper.err res = None ->
  exists request' transportResponse trace response entry mediaType content,
    RoundTripper.inner rt request' (newClientTracer (clock (ticks w)))
    = (Some transportResponse, None, trace) /\
    RoundTripper.writeEntry rt request' response entry
    = Returns (RoundTripper.res_rt res, None) /\
    ParseMediaType
      (http.Header_Get (http.Response.Header transportResponse) "Content-Type")
    = (mediaType, None) /\
    RoundTripper.archived_content entry = Some content /\
    (HasPrefix mediaType "text/" = true ->
     Content.Text content = http.data (http.Response.Body transportResponse) /\
     Content.Encoding content = "") /\
    (HasPrefix mediaType "text/" = false ->
     Content.Text content
     = base64.EncodeToString (http.data (http.Response.Body transportResponse)) /\
     Content.Encoding content = "base64").
Proof.
  intros R E.
  destruct (RoundTrip_success _ _ _ _ R E)
    as (request' & entry0 & resp0 & trace & resp1 & entry1 & _ & I & Q & W & _).
  destruct (postRoundTrip_content _ _ _ _ _ _ _ Q) as (mt & content & M & C & T & B).
  exists request', resp0, trace, resp1, entry1, mt, content. repeat split; tauto.
Qed.

(** C7, as the code has it.  When the hook returns the nil slice the write
    is suppressed: [writeEntry] succeeds and the round tripper (its sink, its
    [first] flag) is as before.  When the hook returns a slice that is not
    nil, were it empty, and the writes succeed, the sink has received the
    separator if an entry was written before, then these very bytes, and
    [first] is false. *)
Theorem rewrite_hook_decides (rt : RoundTripper.t) hook request response entry :
  Options.Rewrite (RoundTripper.opts rt) = Some hook ->
  (hook request response (Marshal_Entry entry) = None ->
   RoundTripper.writeEntry rt request response entry = Returns (rt, None)) /\
  (forall bytes rt',
     hook request response (Marshal_Entry entry) = Some bytes ->
     RoundTripper.writeEntry rt request response entry = Returns (rt', None) ->
     RoundTripper.first rt' = false /\
     written (RoundTripper.writer rt')
     = written (RoundTripper.writer rt)
       ++ (if RoundTripper.first rt then "" else separator) ++ bytes).
Proof.
  intros Hh. split.
  - intros E. unfold RoundTripper.writeEntry. now rewrite Hh, E.
  - intros bytes rt' E W.
    destruct (writeEntry_ok _ _ _ _ _ _ Hh W) as (_ & K). now rewrite E in K.
Qed.

Lemma saturate_nonneg d : (0 <= d)%Z -> (0 <= GoTime.saturate d)%Z.
Proof.
  intros L. unfold GoTime.saturate, GoTime.minDuration, GoTime.maxDuration.
  destruct (d <? - 2 ^ 63)%Z eqn:A; [apply Z.ltb_lt in A; lia|].
  destruct (2 ^ 63 - 1 <? d)%Z; lia.
Qed.

Lemma Sub_nonneg (x y : GoTime.t) : GoTime.le x y -> (0 <= GoTime.Sub y x)%Z.
Proof.
  unfold GoTime.le, GoTime.Sub.
  destruct (GoTime.mono y), (GoTime.mono x); intros L; apply saturate_nonneg; lia.
Qed.

Lemma timings_of_chronological (trace : clientTracer) :
  RoundTripper.chronological trace ->
  RoundTripper.timings_as_specified trace (RoundTripper.timings_of trace).
Proof.
  intros (B & C & S & W & R & D & T).
  apply Sub_nonneg in B, C, S, W, R, D, T.
  unfold RoundTripper.timings_as_specified, RoundTripper.timings_of,
    RoundTripper.measured_or_sentinel. cbn.
  destruct (GoTime.IsZero (dnsStart trace)),
           (GoTime.IsZero (connStart trace)),
           (GoTime.IsZero (tlsHandshakeStart trace)); cbn;
    repeat split; intros; try lia; try discriminate; try (left; lia); try (right; lia).
Qed.

(** C8, as the code has it.  In every successful exchange whose trace, as
    the transport's hooks and the end of the exchange stamped it, has its
    events in the order of an exchange, each of the seven timings of the
    entry handed to [writeEntry] is a measure or the sentinel [-1]; DNS,
    connect and SSL are [-1] exactly when the start of their phase was not
    stamped, and blocked, send, wait and receive are never the sentinel. *)
Theorem timings_of_ordered_trace (rt : RoundTripper.t) request w res :
  RoundTripper.RoundTrip rt request w = Returns res ->
  RoundTripper.err res = None ->
  exists request' transportResponse trace response entry t,
    RoundTripper.inner rt request' (newClientTracer (clock (ticks w)))
    = (Some transportResponse, None, trace) /\
    RoundTripper.writeEntry rt request' response entry
    = Returns (RoundTripper.res_rt res, None) /\
    Entry.Timings entry = Some t /\
    (RoundTripper.chronological (with_endAt trace (clock (S (ticks w)))) ->
     RoundTripper.timings_as_specified (with_endAt trace (clock (S (ticks w)))) t).
Proof.
  intros R E.
  destruct (RoundTrip_success _ _ _ _ R E)
    as (request' & entry0 & resp0 & trace & resp1 & entry1 & _ & I & Q & W & _).
  destruct (postRoundTrip_ok _ _ _ _ _ _ _ Q) as (mt & _ & _ & _ & _ & T & _).
  cbn [ticks] in T.
  exists request', resp0, trace, resp1, entry1. eexists.
  split; [exact I|]. split; [exact W|]. split; [exact T|].
  apply timings_of_chronological.
Qed.

(** C10, as the code has it.  The transport returned a response and no
    error.  If the Content-Type of the response does not parse, [RoundTrip]
    returns the error with the response, whose body was read to its end and
    replaced by a reader over the same bytes; if reading the body fails,
    [RoundTrip] returns the read error with the response, whose body is the
    one it came with, drained and closed.  In both cases the round tripper is
    as before: no entry was written. *)
Theorem post_capture_failure (rt : RoundTripper.t) request request' entry w
    (resp : http.Response.t) trace :
  RoundTripper.preRoundTrip request Entry.empty = Returns (request', entry, None) ->
  RoundTripper.inner rt request' (newClientTracer (clock (ticks w)))
  = (Some resp, None, trace) ->
  let w1 := mkWorld (S (ticks w)) (request' :: sent w) in
  (forall mediaType e,
      http.failure (http.Response.Body resp) = None ->
      ParseMediaType (http.Header_Get (http.Response.Header resp) "Content-Type")
      = (mediaType, Some e) ->
      RoundTripper.RoundTrip rt request w
      = Returns (RoundTripper.mkResult rt request' w1
                   (Some (http.Response.with_Body resp
                            (http.NopCloser_Buffer (http.data (http.Response.Body resp)))))
                   (Some (wrapError "parsing response Content-Type" e)))) /\
  (forall e,
      http.failure (http.Response.Body resp) = Some e ->
      RoundTripper.RoundTrip rt request w
      = Returns (RoundTripper.mkResult rt request' w1
                   (Some (http.Response.with_Body resp (http.mkReader "" (Some e) true)))
                   (Some e))).
Proof.
  intros P I. cbv zeta. split.
  - intros mt e F M. rewrite (RoundTrip_sends _ _ _ _ _ P). cbv zeta.
    rewrite I, (postRoundTrip_bad_type _ _ _ _ _ _ F M). reflexivity.
  - intros e F. rewrite (RoundTrip_sends _ _ _ _ _ P). cbv zeta.
    rewrite I, (postRoundTrip_read_error _ _ _ _ _ F). reflexivity.
Qed.

End EntryContents.

(** ** The specified properties: the body of a request *)

Section RequestBody.
Context `{GoRuntime}.

Lemma split_at_short (s a b : string) (n : N) :
  split_at n s = (a, b) -> (N.of_nat (String.length a) < n)%N -> a = s.
Proof.
  revert a b n; induction s as [|c s IH]; intros a b n; cbn [split_at].
  - now intros [= <- <-].
  - destruct (N.eqb n 0) eqn:E.
    + apply N.eqb_eq in E. subst n. intros [= <- <-]. cbn. lia.
    + apply N.eqb_neq in E.
      destruct (split_at (N.pred n) s) as [a' b'] eqn:S. intros [= <- <-] L.
      f_equal. apply (IH _ _ _ S). cbn [String.length] in L. lia.
Qed.

(** [ParseForm] on a urlencoded POST, PUT or PATCH that was not parsed
    before: when it succeeds, [PostForm] holds the fields of the body. *)
Lemma ParseForm_reads_body (r r1 : http.Request.t) body :
  RoundTripper.urlencoded r ->
  RoundTripper.reads_body_form (http.Request.Method r) = true ->
  http.Request.PostForm r = None ->
  http.Request.Body r = Some body ->
  ParseForm r = (r1, None) ->
  http.Request.PostForm r1 = Some (fst (url.ParseQuery (http.data body))).
Proof.
  intros (Ne & M) Hm Hp Hb. unfold ParseForm. rewrite Hp.
  unfold RoundTripper.reads_body_form in Hm. rewrite Hm.
  unfold parsePostForm. rewrite Hb.
  apply String.eqb_neq in Ne. rewrite Ne, M.
  change (String.eqb "application/x-www-form-urlencoded"
            "application/x-www-form-urlencoded") with true. cbv iota.
  unfold ReadAll_limited.
  destruct (split_at (maxFormSize + 1) (http.data body)) as [b rest] eqn:S.
  assert (Fin : forall (r0 : http.Request.t) (pf : url.Values) (err : option error),
             match http.Request.Form r0 with
             | Some form => (http.Request.with_forms r0 (Some form) (Some pf), err)
             | None =>
                 let (newValues, e) := url.ParseQuery (url.RawQuery (http.Request.URL r0)) in
                 (http.Request.with_forms r0
                    (Some match pf with
                          | [] => newValues
                          | _ => copyValues (copyValues [] pf) newValues
                          end) (Some pf), first_error err e)
             end = (r1, None) ->
             err = None /\ http.Request.PostForm r1 = Some pf).
  { intros r0 pf err. destruct (http.Request.Form r0).
    - intros [= <- ->]. now split.
    - destruct (url.ParseQuery _) as [nv e]. intros [= <- E].
      split; [|reflexivity]. now destruct err. }
  destruct (N.leb (maxFormSize + 1) (N.of_nat (String.length b))) eqn:L.
  - apply N.leb_le in L.
    assert (T : N.ltb maxFormSize (N.of_nat (String.length b)) = true)
      by (apply N.ltb_lt; lia).
    rewrite T. intros K. apply Fin in K. destruct K as [K _]. discriminate.
  - apply N.leb_gt in L. pose proof (split_at_short _ _ _ _ S L) as ->.
    destruct (http.failure body) as [e|].
    + intros K. apply Fin in K. destruct K as [K _]. discriminate.
    + destruct (N.ltb maxFormSize _).
      * intros K. apply Fin in K. destruct K as [K _]. discriminate.
      * destruct (url.ParseQuery (http.data body)) as [vs e].
        intros K. apply Fin in K. destruct K as [_ K]. exact K.
Qed.

(** With any other method [ParseForm] leaves the body alone, and [PostForm]
    is empty. *)
Lemma ParseForm_ignores_body (r r1 : http.Request.t) e :
  RoundTripper.reads_body_form (http.Request.Method r) = false ->
  http.Request.PostForm r = None ->
  ParseForm r = (r1, e) ->
  http.Request.PostForm r1 = Some [].
Proof.
  intros Hm Hp. unfold ParseForm. rewrite Hp.
  unfold RoundTripper.reads_body_form in Hm. rewrite Hm.
  destruct (http.Request.Form r).
  - now intros [= <- _].
  - destruct (url.ParseQuery _) as [nv e']. now intros [= <- _].
Qed.

Lemma value_params_nil : RoundTripper.value_params [] = [].
Proof.
  unfold RoundTripper.value_params.
  now rewrite (Permutation_nil (Permutation_sym (range_Permutation _ []))).
Qed.

Lemma postRoundTrip_sent (resp resp' : http.Response.t) entry entry' trace w w' e :
  RoundTripper.postRoundTrip resp entry trace w = (resp', entry', w', e) ->
  sent w' = sent w.
Proof.
  unfold RoundTripper.postRoundTrip, http.ReadAll.
  destruct (http.failure (http.Response.Body resp)); [now intros [= _ _ <- _]|].
  destruct (ParseMediaType _) as [mt [e0|]]; [now intros [= _ _ <- _]|].
  destruct (HasPrefix mt "text/"); now intros [= _ _ <- _].
Qed.

(** Once pre-capture succeeded, a call of [RoundTrip] that returns has
    handed the request to the transport. *)
Lemma RoundTrip_sent (rt : RoundTripper.t) request request' entry w res :
  RoundTripper.preRoundTrip request Entry.empty = Returns (request', entry, None) ->
  RoundTripper.RoundTrip rt request w = Returns res ->
  sent (RoundTripper.res_world res) = request' :: sent w.
Proof.
  intros P. rewrite (RoundTrip_sends _ _ _ _ _ P). cbv zeta.
  destruct (RoundTripper.inner rt request' _) as [[[resp0|] [e|]] trace];
    try (now intros [= <-]); try discriminate.
  destruct (RoundTripper.postRoundTrip resp0 entry trace _)
    as [[[resp1 entry1] w1] e] eqn:Q.
  apply postRoundTrip_sent in Q. cbn in Q.
  destruct e; [now intros [= <-]|].
  destruct (RoundTripper.writeEntry rt request' resp1 entry1) as [[rt' e]|why];
    [now intros [= <-] | discriminate].
Qed.

Lemma value_params_fields (vs : url.Values) :
  Permutation (RoundTripper.value_params vs) (RoundTripper.fields vs).
Proof.
  unfold RoundTripper.value_params, RoundTripper.fields.
  apply Permutation_flat_map, range_Permutation.
Qed.

(** C6, as the code has it.  A request whose [GetBody] returns a copy of its
    body, and on which pre-capture succeeds: the request handed to the
    transport carries the bytes of the body the caller supplied; the archived
    [PostData.Text] is these bytes; and when the request declares a
    urlencoded form and was not parsed before, [PostData.Params] are the
    fields of the body, in some order, if it is a POST, PUT or PATCH, and
    empty with any other method. *)
Theorem request_body_round_trip (r r' : http.Request.t) entry' body copy :
  http.Request.Body r = Some body ->
  http.Request.GetBody r = Some (inl copy) ->
  http.data copy = http.data body ->
  RoundTripper.preRoundTrip r Entry.empty = Returns (r', entry', None) ->
  (exists body', http.Request.Body r' = Some body' /\
                 http.data body' = http.data body) /\
  (forall rt w res,
      RoundTripper.RoundTrip rt r w = Returns res ->
      sent (RoundTripper.res_world res) = r' :: sent w) /\
  exists postData,
    RoundTripper.archived_postData entry' = Some postData /\
    PostData.Text postData = http.data body /\
    (RoundTripper.urlencoded r ->
     RoundTripper.reads_body_form (http.Request.Method r) = true ->
     http.Request.PostForm r = None ->
     Permutation (PostData.Params postData)
                 (RoundTripper.fields (fst (url.ParseQuery (http.data body))))) /\
    (RoundTripper.urlencoded r ->
     RoundTripper.reads_body_form (http.Request.Method r) = false ->
     http.Request.PostForm r = None ->
     PostData.Params postData = []).
Proof.
  intros B G D P. split; [|split].
  2: { intros rt w res. exact (RoundTrip_sent _ _ _ _ _ _ P). }
  all: assert (F : http.failure copy = None)
    by (revert P; unfold RoundTripper.preRoundTrip; rewrite B, G;
        unfold http.ReadAll; destruct (http.failure copy); [discriminate | reflexivity]).
  all: rewrite (preRoundTrip_body _ _ _ _ B G F) in P.
  all: destruct (RoundTripper.capture_body r (http.data copy)) as [r0 [pd|e]] eqn:C;
    [|discriminate].
  all: injection P as <- <-.
  all: revert C; unfold RoundTripper.capture_body.
  all: destruct (ParseMediaType _) as [mt [e|]] eqn:M; [discriminate|].
  all: destruct (String.eqb mt "application/x-www-form-urlencoded") eqn:U.
  - destruct (ParseForm r) as [r1 [e|]]; [discriminate|].
    intros [= <- _]. eexists. split; [reflexivity|]. now rewrite <- D.
  - destruct (String.eqb mt "multipart/form-data").
    + destruct (ParseMultipartForm r) as [form|e]; [|discriminate].
      intros [= <- _]. eexists. split; [reflexivity|]. now rewrite <- D.
    + intros [= <- _]. now exists body.
  - destruct (ParseForm r) as [r1 [e|]] eqn:PF; [discriminate|].
    intros [= <- <-]. eexists. split; [reflexivity|]. split; [exact D|]. split.
    + intros Hu Hm Hp. cbn.
      rewrite (ParseForm_reads_body _ _ _ Hu Hm Hp B PF), <- D.
      apply value_params_fields.
    + intros Hu Hm Hp. cbn.
      rewrite (ParseForm_ignores_body _ _ _ Hm Hp PF). apply value_params_nil.
  - assert (NU : ~ RoundTripper.urlencoded r).
    { intros (_ & K). rewrite M in K. injection K as ->. discriminate. }
    destruct (String.eqb mt "multipart/form-data").
    + destruct (ParseMultipartForm r) as [form|e]; [|discriminate].
      intros [= <- <-]. eexists. split; [reflexivity|]. split; [exact D|].
      split; intros Hu; contradiction.
    + intros [= <- <-]. eexists. split; [reflexivity|]. split; [exact D|].
      split; intros Hu; contradiction.
Qed.

End RequestBody.

(** ** The properties on the examples *)

Section Examples.
Import Example.

Example base64_hello : base64.EncodeToString "hello" = "aGVsbG8=".
Proof. reflexivity. Qed.

Example ParseQuery_ab_cd :
  url.ParseQuery "a=b&c=d" = ([("a", ["b"]); ("c", ["d"])], None).
Proof. reflexivity. Qed.

(** C1 on an example: a [HarWriter] on an empty buffer, two entries. *)
Lemma framed_archive_example :
  exists w0 w1 w2 s',
    HarWriter.NewHarWriter (Buffer "") (Some example_creator) = (Some w0, None, s') /\
    HarWriter.WriteEntries w0 [Some "{}"; Some "[1, 2]"] = (w1, None) /\
    HarWriter.Close w1 = (w2, None) /\
    framed_archive (Marshal_Creator (Some example_creator)) ["{}"; "[1, 2]"]
                   "" (written (HarWriter.writer w2)).
Proof.
  do 4 eexists. split; [reflexivity|]. split; [reflexivity|]. split; [reflexivity|].
  exact (proj1 framed_archive_is_json
           (Buffer "") _ (Some example_creator) [Some "{}"; Some "[1, 2]"] _ _ _
           eq_refl eq_refl eq_refl).
Defined.

Example HarWriter_archive_value :
  exists w0 w1 w2 s',
    HarWriter.NewHarWriter (Buffer "") (Some example_creator) = (Some w0, None, s') /\
    HarWriter.WriteEntries w0 [Some "{}"; Some "[1, 2]"] = (w1, None) /\
    HarWriter.Close w1 = (w2, None) /\
    parse_json (written (HarWriter.writer w2))
    = Some (archive (JObject [("name", JString "har"); ("version", JString "0.1")])
                    [JObject []; JArray [JNumber "1"; JNumber "2"]]).
Proof. do 4 eexists. repeat split; reflexivity. Qed.

(** The round tripper's framing on an example: one exchange, whose entry the
    default hook keeps. *)
Example round_tripper_archive :
  exists rt0 rt1 rt2 s',
    RoundTripper.New (Some offline) (Buffer "") None = (Some rt0, None, s') /\
    RoundTripper.writeEntries rt0
      [RoundTripper.mkExchange get_request hello_response Entry.empty]
    = Returns (rt1, None) /\
    RoundTripper.Close rt1 = (rt2, None) /\
    parse_json (written (RoundTripper.writer rt2))
    = Some (archive
              (JObject [("name", JString "github.com/aidansteele/har");
                        ("version", JString "0.1")])
              [JObject [("request", JBool false); ("response", JBool false)]]).
Proof. do 4 eexists. repeat split; reflexivity. Qed.

(** C3 on an example: the transport has no network. *)
Lemma transport_error_example :
  let rt := round_tripper offline identity_hook true "" in
  RoundTripper.RoundTrip rt get_request world0
  = Returns (RoundTripper.mkResult rt get_request (mkWorld 1 [get_request]) None
               (Some (errorString "dial tcp: lookup failed"))).
Proof.
  exact (transport_error_propagates
           (round_tripper offline identity_hook true "")
           get_request get_request _ world0 None _ _ eq_refl eq_refl).
Defined.

(** C4 on an example: a urlencoded form with a broken escape. *)
Lemma decoding_failure_example :
  let rt := round_tripper (serving hello_response) identity_hook true "" in
  exists r',
    RoundTripper.RoundTrip rt
      (request_with_body "POST" "application/x-www-form-urlencoded" "a=%zz") world0
    = Returns (RoundTripper.mkResult rt r' world0 None
                 (Some (wrapError "parsing urlencoded form in request body"
                          (errorString "invalid URL escape")))).
Proof.
  exact (decoding_failure_aborts
           (round_tripper (serving hello_response) identity_hook true "")
           (request_with_body "POST" "application/x-www-form-urlencoded" "a=%zz")
           world0 _ _ _ eq_refl eq_refl eq_refl
           (RoundTripper.bad_urlencoded_form
              (request_with_body "POST" "application/x-www-form-urlencoded" "a=%zz")
              _ _ eq_refl eq_refl)).
Defined.

(** C9 on an example: a body, and no header at all. *)
Lemma missing_content_type_example :
  let rt := round_tripper (serving hello_response) identity_hook true "" in
  exists r',
    RoundTripper.RoundTrip rt (request_without_type "hello") world0
    = Returns (RoundTripper.mkResult rt r' world0 None
                 (Some (wrapError "parsing request Content-Type"
                          (errorString "mime: no media type")))).
Proof.
  destruct (@missing_content_type_is_an_error runtime
              (round_tripper (serving hello_response) identity_hook true "")
              (request_without_type "hello") world0 _ _
              "" (errorString "mime: no media type")
              eq_refl eq_refl eq_refl eq_refl) as (r' & err & R & K).
  exists r'. cbv zeta. rewrite R. now rewrite (K _ eq_refl eq_refl).
Defined.

(** C9 fails as stated: a request with a body, no Content-Type and a nil
    [GetBody], as a caller may build it by hand.  [preRoundTrip] calls
    [r.GetBody()] as soon as the body is not nil: the call panics, and no
    error is returned. *)
Lemma missing_content_type_nil_GetBody_panics :
  let rt := round_tripper (serving hello_response) identity_hook true "" in
  let r := request_without_type_nil_GetBody "hello" in
  http.Request.Body r = Some (http.NopCloser_Buffer "hello") /\
  http.Header_Get (http.Request.Header r) "Content-Type" = "" /\
  ParseMediaType "" = ("", Some (errorString "mime: no media type")) /\
  http.Request.GetBody r = None /\
  RoundTripper.RoundTrip rt r world0 = Panics "call of a nil function".
Proof. repeat split; reflexivity. Qed.

(** C5 on the examples of the spec: [text/plain] is kept verbatim. *)
Lemma response_content_example :
  let rt := round_tripper (serving hello_response) identity_hook true "" in
  exists res,
    RoundTripper.RoundTrip rt get_request world0 = Returns res /\
    exists request' response entry content,
      RoundTripper.writeEntry rt request' response entry
      = Returns (RoundTripper.res_rt res, None) /\
      RoundTripper.archived_content entry = Some content /\
      Content.Text content = "hello" /\
      Content.Encoding content = "".
Proof.
  eexists. split; [reflexivity|].
  destruct (@response_content_encoding runtime
              (round_tripper (serving hello_response) identity_hook true "")
              get_request world0 _ eq_refl eq_refl)
    as (request' & resp0 & trace & response & entry & mediaType & content
        & I & W & M & C & T & _).
  exists request', response, entry, content.
  split; [exact W|]. split; [exact C|].
  injection I as <- _. injection M as <-. exact (T eq_refl).
Defined.

Example text_plain_content :
  RoundTripper.archived_content
    (snd (fst (fst (RoundTripper.postRoundTrip hello_response Entry.empty
                      reused_connection_trace (mkWorld 5 [])))))
  = Some (Content.mk 5%Z 0%Z "text/plain" "hello" "").
Proof. reflexivity. Qed.

Example octet_stream_content :
  RoundTripper.archived_content
    (snd (fst (fst (RoundTripper.postRoundTrip
                      (response_from (content_type "application/octet-stream")
                                     (http.NopCloser_Buffer "hello"))
                      Entry.empty reused_connection_trace (mkWorld 5 [])))))
  = Some (Content.mk 5%Z 0%Z "application/octet-stream" "aGVsbG8=" "base64").
Proof. reflexivity. Qed.

(** C7 on an example: the identity hook, after a first entry. *)
Lemma rewrite_hook_example :
  let rt := round_tripper offline identity_hook false "{}" in
  exists rt',
    RoundTripper.writeEntry rt get_request hello_response Entry.empty
    = Returns (rt', None) /\
    RoundTripper.first rt' = false /\
    written (RoundTripper.writer rt')
    = "{}" ++ separator ++ raw_bytes (Marshal_Entry Entry.empty).
Proof.
  eexists. split; [reflexivity|].
  exact (proj2 (rewrite_hook_decides
                  (round_tripper offline identity_hook false "{}")
                  identity_hook get_request hello_response Entry.empty eq_refl)
           _ _ eq_refl eq_refl).
Defined.

(** C7 fails as stated: a hook that returns an empty slice that is not nil
    does not suppress the write.  The first entry flips [first]; a later one
    is written as a separator followed by nothing. *)
Lemma empty_result_is_written :
  RoundTripper.writeEntry (round_tripper offline empty_hook true "")
    get_request hello_response Entry.empty
  = Returns (round_tripper offline empty_hook false "", None) /\
  RoundTripper.writeEntry (round_tripper offline empty_hook false "{}")
    get_request hello_response Entry.empty
  = Returns (round_tripper offline empty_hook false ("{}" ++ separator), None).
Proof. split; reflexivity. Qed.

(** C8 on an example: an exchange on a reused connection. *)
Lemma timings_example :
  let rt := round_tripper (serving_traced hello_response) identity_hook true "" in
  exists res,
    RoundTripper.RoundTrip rt get_request world0 = Returns res /\
    exists request' response entry trace t,
      RoundTripper.writeEntry rt request' response entry
      = Returns (RoundTripper.res_rt res, None) /\
      Entry.Timings entry = Some t /\
      RoundTripper.timings_as_specified trace t /\
      GoTime.IsZero (dnsStart trace) = true /\
      GoTime.IsZero (connStart trace) = false.
Proof.
  eexists. split; [reflexivity|].
  destruct (@timings_of_ordered_trace runtime
              (round_tripper (serving_traced hello_response) identity_hook true "")
              get_request world0 _ eq_refl eq_refl)
    as (request' & resp0 & trace & response & entry & t & I & W & T & K).
  exists request', response, entry, (with_endAt trace (clock (S (ticks world0)))), t.
  split; [exact W|]. split; [exact T|].
  injection I as _ <-. split; [|split; reflexivity].
  apply K. unfold RoundTripper.chronological, GoTime.le. cbn. lia.
Defined.

(** The trace of that exchange is chronological, and its timings are the
    specified ones. *)
Example reused_connection_exchange :
  let trace := snd (serving_traced hello_response get_request
                      (newClientTracer (clock_ms 0))) in
  RoundTripper.chronological (with_endAt trace (clock_ms 1)) /\
  RoundTripper.timings_of (with_endAt trace (clock_ms 1))
  = Timings.mk 100000%Z (-1)%Z 100000%Z 100000%Z 100000%Z 600000%Z (-1)%Z.
Proof.
  split; [|reflexivity].
  unfold RoundTripper.chronological, GoTime.le. cbn. lia.
Qed.

Example reused_connection_timings :
  Entry.Timings
    (snd (fst (fst (RoundTripper.postRoundTrip hello_response Entry.empty
                      reused_connection_trace (mkWorld 5 [])))))
  = Some (Timings.mk 1000000%Z (-1)%Z 1000000%Z 1000000%Z 1000000%Z 1000000%Z (-1)%Z).
Proof. reflexivity. Qed.

(** C8 fails as stated: with a transport that fires no hook of the tracer
    the exchange succeeds, and the [Blocked] of the entry handed to
    [writeEntry] is the least duration, neither a measure nor the
    sentinel. *)
Lemma untraced_exchange_is_negative :
  let rt := round_tripper (serving hello_response) identity_hook true "" in
  exists res request' entry0 response entry,
    RoundTripper.RoundTrip rt get_request world0 = Returns res /\
    RoundTripper.err res = None /\
    RoundTripper.preRoundTrip get_request Entry.empty
    = Returns (request', entry0, None) /\
    RoundTripper.postRoundTrip hello_response entry0
      (newClientTracer (clock_ms 0)) (mkWorld 1 [request'])
    = (response, entry, RoundTripper.res_world res, None) /\
    RoundTripper.writeEntry rt request' response entry
    = Returns (RoundTripper.res_rt res, None) /\
    option_map Timings.Blocked (Entry.Timings entry)
    = Some (-9223372036854775808)%Z.
Proof. do 5 eexists. repeat split; reflexivity. Qed.

(** C10 on an example: a response without Content-Type. *)
Lemma post_capture_failure_example :
  let resp := response_from [] (http.NopCloser_Buffer "hello") in
  let rt := round_tripper (serving resp) identity_hook true "" in
  RoundTripper.RoundTrip rt get_request world0
  = Returns (RoundTripper.mkResult rt get_request (mkWorld 1 [get_request])
               (Some resp)
               (Some (wrapError "parsing response Content-Type"
                        (errorString "mime: no media type")))).
Proof.
  exact (proj1 (post_capture_failure
                  (round_tripper (serving (response_from [] (http.NopCloser_Buffer "hello")))
                                 identity_hook true "")
                  get_request get_request _ world0
                  (response_from [] (http.NopCloser_Buffer "hello")) _
                  eq_refl eq_refl) _ _ eq_refl eq_refl).
Defined.

(** C10 fails as stated: when reading the body of the response fails, the
    response comes back with the body it had, drained and closed, not with
    a copy in memory. *)
Lemma broken_body_is_not_replaced :
  let resp := response_from (content_type "text/plain") broken_body in
  let rt := round_tripper (serving resp) identity_hook true "" in
  RoundTripper.RoundTrip rt get_request world0
  = Returns (RoundTripper.mkResult rt get_request (mkWorld 1 [get_request])
               (Some (http.Response.with_Body resp
                        (http.mkReader "" (Some (errorString "unexpected EOF")) true)))
               (Some (errorString "unexpected EOF"))).
Proof. reflexivity. Qed.

(** C6 on the example of the spec: a POST of [a=b&c=d]. *)
Lemma request_body_example :
  exists r' entry',
    RoundTripper.preRoundTrip
      (request_with_body "POST" "application/x-www-form-urlencoded" "a=b&c=d")
      Entry.empty = Returns (r', entry', None) /\
    (exists body', http.Request.Body r' = Some body' /\ http.data body' = "a=b&c=d") /\
    exists postData,
      RoundTripper.archived_postData entry' = Some postData /\
      PostData.Text postData = "a=b&c=d" /\
      Permutation (PostData.Params postData)
                  [Param.mk "a" "b" "" ""; Param.mk "c" "d" "" ""].
Proof.
  destruct (RoundTripper.preRoundTrip
              (request_with_body "POST" "application/x-www-form-urlencoded" "a=b&c=d")
              Entry.empty) as [[[r' entry'] [e|]]|why] eqn:P;
    try (vm_compute in P; discriminate).
  exists r', entry'. split; [reflexivity|].
  destruct (request_body_round_trip
              (request_with_body "POST" "application/x-www-form-urlencoded" "a=b&c=d")
              r' entry' _ _ eq_refl eq_refl eq_refl P)
    as (Hb & _ & postData & Ha & Ht & Hp & _).
  split; [exact Hb|]. exists postData. split; [exact Ha|]. split; [exact Ht|].
  apply Hp; [split; [discriminate | reflexivity] | reflexivity | reflexivity].
Defined.

(** C6 fails as stated: the same body sent with GET goes through, and is
    archived with its text and no [Params], as [ParseForm] reads a body for
    POST, PUT and PATCH only. *)
Lemma urlencoded_GET_has_no_params :
  let rt := round_tripper (serving hello_response) identity_hook true "" in
  let r := request_with_body "GET" "application/x-www-form-urlencoded" "a=b&c=d" in
  exists res r' entry',
    RoundTripper.RoundTrip rt r world0 = Returns res /\
    RoundTripper.err res = None /\
    RoundTripper.preRoundTrip r Entry.empty = Returns (r', entry', None) /\
    option_map PostData.Text (RoundTripper.archived_postData entry') = Some "a=b&c=d" /\
    option_map PostData.Params (RoundTripper.archived_postData entry') = Some [].
Proof. do 3 eexists. repeat split; reflexivity. Qed.

End Examples.

(* ================================================================== *)
(** * Part III: further properties of the code *)
(* ================================================================== *)

(** ** Sinks that accept every write *)

Section HealthySinks.

Lemma sink_Write_healthy (s : Sink) (p : string) :
  healthy s -> sink_Write s p = (mkSink (written s ++ p) [], None).
Proof. unfold healthy, sink_Write. now intros ->. Qed.

Lemma sink_Write_grows (s s' : Sink) (p : string) e :
  sink_Write s p = (s', e) -> exists out, written s' = written s ++ out.
Proof.
  unfold sink_Write. destruct (script s) as [|[[k e']|] later];
    intros [= <- _]; eexists; reflexivity.
Qed.

Lemma grows_trans (a b c : string) :
  (exists o, b = a ++ o) -> (exists o, c = b ++ o) -> exists o, c = a ++ o.
Proof.
  intros [o1 ->] [o2 ->]. exists (o1 ++ o2). apply append_assoc.
Qed.

End HealthySinks.

(** ** round_tripper.go: [New] *)

Section Construction.
Context `{GoRuntime}.

(** X1.  [New] refuses a creator whose name or version is empty: it returns
    no round tripper and an error that names the field (the name is checked
    first), and it has written nothing to the sink. *)
Theorem New_rejects_empty_creator roundTripper (w : Sink) rewrite (creator : Creator.t) :
  Creator.Name creator = "" \/ Creator.Version creator = "" ->
  RoundTripper.New roundTripper w (Some (Options.mk rewrite (Some creator)))
  = (None,
     Some (errorString
             (if String.eqb (Creator.Name creator) ""
              then "Options.Creator.Name cannot be empty"
              else "Options.Creator.Version cannot be empty")),
     w).
Proof.
  intros E. unfold RoundTripper.New.
  destruct rewrite as [h|]; cbn [Options.Rewrite Options.Creator];
    destruct (String.eqb (Creator.Name creator) "") eqn:N; try reflexivity;
    destruct (String.eqb (Creator.Version creator) "") eqn:V; try reflexivity;
    destruct E as [E|E]; rewrite E in *; discriminate.
Qed.

Lemma effective_creator_Some (o : option Options.t) :
  exists c, effective_creator o = Some c.
Proof.
  unfold effective_creator. destruct o as [[r [c|]]|]; eexists; reflexivity.
Qed.

(** X2.  On a sink that accepts every write, [New] succeeds as soon as the
    creator it is to use (the caller's, or the default one) has a name and a
    version: the round tripper has the caller's transport, hook and creator,
    each replaced by its default when nil, it is about to write its first
    entry, and the sink holds, after what it held, the preamble with that
    creator. *)
Theorem New_succeeds roundTripper (s : Sink) (o : option Options.t) (c : Creator.t) :
  healthy s ->
  effective_creator o = Some c ->
  Creator.Name c <> "" ->
  Creator.Version c <> "" ->
  exists rt,
    RoundTripper.New roundTripper s o = (Some rt, None, RoundTripper.writer rt) /\
    RoundTripper.inner rt
    = match roundTripper with Some tr => tr | None => DefaultTransport end /\
    Options.Rewrite (RoundTripper.opts rt) = effective_hook o /\
    Options.Creator (RoundTripper.opts rt) = Some c /\
    RoundTripper.first rt = true /\
    healthy (RoundTripper.writer rt) /\
    written (RoundTripper.writer rt)
    = written s ++ preamble_head ++ Marshal_Creator (Some c) ++ preamble_tail.
Proof.
  intros Hs Ec Nn Nv.
  apply String.eqb_neq in Nn. apply String.eqb_neq in Nv.
  unfold RoundTripper.New, RoundTripper.writePreamble.
  assert (K : forall tr opts,
             Options.Creator opts = Some c ->
             exists rt,
               (if String.eqb (Creator.Name c) "" then
                  (None, Some (errorString "Options.Creator.Name cannot be empty"), s)
                else if String.eqb (Creator.Version c) "" then
                  (None, Some (errorString "Options.Creator.Version cannot be empty"), s)
                else
                  match RoundTripper.writePreamble (RoundTripper.mk tr opts true s) with
                  | (rt, Some err) => (None, Some err, RoundTripper.writer rt)
                  | (rt, None) => (Some rt, None, RoundTripper.writer rt)
                  end)
               = (Some rt, None, RoundTripper.writer rt) /\
               RoundTripper.inner rt = tr /\
               RoundTripper.opts rt = opts /\
               RoundTripper.first rt = true /\
               healthy (RoundTripper.writer rt) /\
               written (RoundTripper.writer rt)
               = written s ++ preamble_head ++ Marshal_Creator (Some c) ++ preamble_tail).
  { intros tr opts Oc. rewrite Nn, Nv.
    unfold RoundTripper.writePreamble.
    cbn [RoundTripper.writer RoundTripper.opts RoundTripper.first].
    rewrite Oc.
    rewrite (sink_Write_healthy s _ Hs).
    cbn [sink_Write script written].
    eexists. split; [reflexivity|].
    cbn. repeat split. now rewrite !append_assoc. }
  unfold effective_creator in Ec. unfold effective_hook.
  destruct o as [[[h|] [c'|]]|]; cbn [Options.Rewrite Options.Creator] in *;
    injection Ec as Ec; subst;
    match goal with
    | |- context [RoundTripper.mk ?tr ?opts true s] =>
        destruct (K tr opts eq_refl) as (rt & E & I & O & F & Hh & W)
    end;
    exists rt; (split; [exact E|]); rewrite I, O; repeat split; assumption.
Qed.

End Construction.

(** ** writers.go: runs of calls *)

Section WriterSessions.
Context `{GoRuntime}.

Lemma HarWriter_do_closed (w : HarWriter.t) (c : HarWriter_call) :
  HarWriter.closed w = true ->
  HarWriter_do w c = (w, Some (errorString "HarWriter already closed")).
Proof.
  intros C. destruct c; cbn [HarWriter_do];
    [unfold HarWriter.WriteEntry | unfold HarWriter.Close]; now rewrite C.
Qed.

Lemma HarWriter_do_grows (w w' : HarWriter.t) (c : HarWriter_call) e :
  HarWriter_do w c = (w', e) ->
  exists out, written (HarWriter.writer w') = written (HarWriter.writer w) ++ out.
Proof.
  assert (R : forall s : string, exists out, s = s ++ out)
    by (intros s; exists ""; now rewrite append_nil_r).
  destruct c as [entry|]; cbn [HarWriter_do];
    [unfold HarWriter.WriteEntry | unfold HarWriter.Close];
    destruct (HarWriter.closed w); try (intros [= <- _]; apply R).
  - destruct (negb (HarWriter.first w)).
    + destruct (sink_Write (HarWriter.writer w) separator) as [s1 [e1|]] eqn:S1.
      * intros [= <- _]. exact (sink_Write_grows _ _ _ _ S1).
      * destruct (sink_Write s1 (raw_bytes entry)) as [s2 [e2|]] eqn:S2;
          intros [= <- _];
          exact (grows_trans _ _ _ (sink_Write_grows _ _ _ _ S1)
                   (sink_Write_grows _ _ _ _ S2)).
    + destruct (sink_Write (HarWriter.writer w) (raw_bytes entry)) as [s2 [e2|]] eqn:S2;
        intros [= <- _]; exact (sink_Write_grows _ _ _ _ S2).
  - destruct (sink_Write (HarWriter.writer w) closing) as [s1 [e1|]] eqn:S1;
      intros [= <- _]; exact (sink_Write_grows _ _ _ _ S1).
Qed.

Lemma HarWriter_do_flags (w w' : HarWriter.t) (c : HarWriter_call) e :
  HarWriter_do w c = (w', e) ->
  (HarWriter.first w = false -> HarWriter.first w' = false) /\
  HarWriter.closed w' = HarWriter.closed w || is_Close c.
Proof.
  destruct c as [entry|]; cbn [HarWriter_do is_Close];
    [unfold HarWriter.WriteEntry | unfold HarWriter.Close];
    destruct (HarWriter.closed w) eqn:C;
    try (intros [= <- _]; rewrite C; split; [tauto | reflexivity]).
  - destruct (if negb (HarWriter.first w) then _ else _) as [s1 [e1|]].
    + intros [= <- _]. cbn. tauto.
    + destruct (sink_Write s1 (raw_bytes entry)) as [s2 [e2|]];
        intros [= <- _]; cbn; tauto.
  - destruct (sink_Write (HarWriter.writer w) closing) as [s1 [e1|]];
      intros [= <- _]; cbn; tauto.
Qed.

Lemma HarWriter_run_closed (calls : list HarWriter_call) (w : HarWriter.t) :
  HarWriter.closed w = true ->
  HarWriter_run w calls
  = (w, map (fun _ => Some (errorString "HarWriter already closed")) calls).
Proof.
  intros C. induction calls as [|c rest IH]; cbn [HarWriter_run map]; [reflexivity|].
  now rewrite (HarWriter_do_closed w c C), IH.
Qed.

(** X3.  Whatever calls of [WriteEntry] and [Close] are made on a
    [HarWriter], in whatever order and whatever they return: the sink only
    grows; the writer is closed at the end exactly when it was at the start
    or [Close] was among the calls; [first], once cleared, stays cleared; and
    on a closed writer every call returns the error "HarWriter already
    closed" and changes nothing. *)
Theorem HarWriter_run_invariants (calls : list HarWriter_call)
    (w w' : HarWriter.t) (errs : list (option error)) :
  HarWriter_run w calls = (w', errs) ->
  length errs = length calls /\
  (exists out, written (HarWriter.writer w') = written (HarWriter.writer w) ++ out) /\
  HarWriter.closed w' = HarWriter.closed w || existsb is_Close calls /\
  (HarWriter.first w = false -> HarWriter.first w' = false) /\
  (HarWriter.closed w = true ->
   w' = w /\ Forall (eq (Some (errorString "HarWriter already closed"))) errs).
Proof.
  revert w w' errs.
  induction calls as [|c rest IH]; intros w w' errs; cbn [HarWriter_run].
  - intros [= <- <-]. split; [|split; [|split; [|split]]].
    + reflexivity.
    + exists "". now rewrite append_nil_r.
    + cbn. now rewrite orb_false_r.
    + tauto.
    + intros _. split; [reflexivity | constructor].
  - destruct (HarWriter_do w c) as [w1 e] eqn:D.
    destruct (HarWriter_run w1 rest) as [w2 es] eqn:R.
    intros [= <- <-].
    destruct (IH _ _ _ R) as (L & G & C & F & K).
    destruct (HarWriter_do_flags _ _ _ _ D) as [F1 C1].
    split; [|split; [|split; [|split]]].
    + cbn. now rewrite L.
    + exact (grows_trans _ _ _ (HarWriter_do_grows _ _ _ _ D) G).
    + rewrite C, C1. cbn [existsb]. now rewrite orb_assoc.
    + intros Fw. apply F, F1, Fw.
    + intros Cw. rewrite (HarWriter_do_closed w c Cw) in D. injection D as <- <-.
      destruct (K Cw) as [K1 K2]. split; [exact K1|].
      constructor; [reflexivity | exact K2].
Qed.

Lemma HarWriter_WriteEntry_healthy (w : HarWriter.t) (entry : RawMessage) :
  healthy (HarWriter.writer w) ->
  HarWriter.closed w = false ->
  HarWriter.WriteEntry w entry
  = (HarWriter.mk false false
       (mkSink (written (HarWriter.writer w)
                ++ (if HarWriter.first w then "" else separator) ++ raw_bytes entry) []),
     None).
Proof.
  intros Hw C. unfold HarWriter.WriteEntry. rewrite C.
  destruct (HarWriter.first w); cbn [negb];
    rewrite (sink_Write_healthy _ _ Hw); cbn [sink_Write script written];
    [reflexivity | now rewrite append_assoc].
Qed.

Lemma HarWriter_run_open (calls : list HarWriter_call) (w w' : HarWriter.t) errs :
  healthy (HarWriter.writer w) ->
  HarWriter.closed w = false ->
  HarWriter_run w calls = (w', errs) ->
  written (HarWriter.writer w')
  = written (HarWriter.writer w)
    ++ separated (HarWriter.first w) (entries_before_Close calls)
    ++ (if existsb is_Close calls then closing else "").
Proof.
  revert w w' errs.
  induction calls as [|c rest IH]; intros w w' errs Hw C; cbn [HarWriter_run].
  - intros [= <- <-]. cbn. now rewrite append_nil_r.
  - destruct c as [entry|]; cbn [HarWriter_do].
    + rewrite (HarWriter_WriteEntry_healthy _ _ Hw C).
      destruct (HarWriter_run _ rest) as [w2 es] eqn:R.
      intros [= <- <-].
      apply IH in R; [|reflexivity..]. rewrite R.
      cbn [entries_before_Close separated existsb is_Close orb
           HarWriter.writer HarWriter.first written].
      now rewrite !append_assoc.
    + unfold HarWriter.Close. rewrite C.
      rewrite (sink_Write_healthy _ _ Hw).
      rewrite HarWriter_run_closed by reflexivity.
      intros [= <- <-].
      cbn [entries_before_Close separated existsb is_Close orb
           HarWriter.writer written].
      reflexivity.
Qed.

(** X4.  A [HarWriter] made by [NewHarWriter] on a sink that accepts every
    write, then used by any calls of [WriteEntry] and [Close] in any order:
    as soon as [Close] is among them, the sink holds, after what it held, a
    framed archive of the entries written before the first [Close].  The
    calls that come after it spoil nothing. *)
Theorem HarWriter_session (s : Sink) (creator : option Creator.t) :
  healthy s ->
  exists w0,
    HarWriter.NewHarWriter s creator = (Some w0, None, HarWriter.writer w0) /\
    forall calls w1 errs,
      HarWriter_run w0 calls = (w1, errs) ->
      existsb is_Close calls = true ->
      framed_archive (Marshal_Creator creator) (entries_before_Close calls)
                     (written s) (written (HarWriter.writer w1)).
Proof.
  intros Hs. unfold HarWriter.NewHarWriter.
  rewrite (sink_Write_healthy _ _ Hs). cbn [sink_Write script written].
  exists (HarWriter.mk true false
            (mkSink (((written s ++ preamble_head) ++ Marshal_Creator creator)
                     ++ preamble_tail) [])).
  split; [reflexivity|].
  intros calls w1 errs R E.
  apply HarWriter_run_open in R; [|reflexivity..]. rewrite R, E.
  cbn [HarWriter.writer HarWriter.first written].
  rewrite separated_Join.
  match goal with
  | |- framed_archive _ _ _ ?now =>
      replace now
        with (written s
              ++ archive_bytes (Marshal_Creator creator) (entries_before_Close calls))
        by (unfold archive_bytes; now rewrite !append_assoc)
  end.
  apply framed_archive_intro.
Qed.

Lemma lines_from_entry (e rest line : string) :
  has_line_feed e = false ->
  lines_from line (e ++ LF ++ rest) = (line ++ e) :: lines_from "" rest.
Proof.
  revert line. induction e as [|c e IH]; intros line; cbn [has_line_feed].
  - intros _. cbn. now rewrite append_nil_r.
  - intros E. apply orb_false_elim in E as [E1 E2].
    cbn [append lines_from]. rewrite E1.
    rewrite (IH _ E2). now rewrite append_assoc.
Qed.

Lemma lines_terminated (entries : list string) :
  forallb (fun e => negb (has_line_feed e)) entries = true ->
  lines (terminated entries) = entries.
Proof.
  unfold lines. induction entries as [|e rest IH]; cbn [forallb terminated];
    [reflexivity|].
  intros E. apply andb_prop in E as [E1 E2].
  apply negb_true_iff in E1.
  rewrite (lines_from_entry _ _ _ E1). cbn [append]. now rewrite IH.
Qed.

(** X5.  The newline-delimited writer: when [WriteEntry] succeeded for each
    entry in turn, the sink holds, after what it held, each entry followed by
    one line feed, with no preamble, separator or closing; and when no entry
    holds a line feed, reading that text line by line gives the entries
    back, in order. *)
Theorem HarNDWriter_lines (entries : list RawMessage) (w w' : HarNDWriter.t) :
  HarNDWriter_WriteEntries w entries = (w', None) ->
  written (HarNDWriter.writer w')
  = written (HarNDWriter.writer w) ++ terminated (map raw_bytes entries) /\
  (forallb (fun e => negb (has_line_feed e)) (map raw_bytes entries) = true ->
   lines (terminated (map raw_bytes entries)) = map raw_bytes entries).
Proof.
  intros R. split; [|apply lines_terminated].
  revert w R. induction entries as [|e rest IH]; intros w; cbn [HarNDWriter_WriteEntries].
  - intros [= <-]. cbn. now rewrite append_nil_r.
  - unfold HarNDWriter.WriteEntry.
    destruct (sink_Write (HarNDWriter.writer w) (raw_bytes e)) as [s1 [e1|]] eqn:S1;
      [discriminate|].
    destruct (sink_Write s1 LF) as [s2 [e2|]] eqn:S2; [discriminate|].
    intros R. rewrite (IH _ R). cbn [HarNDWriter.writer map terminated].
    rewrite (sink_Write_ok _ _ _ S2), (sink_Write_ok _ _ _ S1).
    now rewrite !append_assoc.
Qed.

(** X6.  The round tripper frames its archive as a [HarWriter] does.  Seen
    as the [HarWriter] with its [first] flag and its sink, it writes the
    same preamble as [NewHarWriter]; [writeEntry], when the hook returns
    bytes, does to it what [HarWriter.WriteEntry] does with those bytes, and
    returns the same error; and [Close] writes what [HarWriter.Close] writes
    and returns the same error, except that it records nothing. *)
Theorem round_tripper_frames_like_HarWriter (rt : RoundTripper.t) hook
    request response entry bytes :
  Options.Rewrite (RoundTripper.opts rt) = Some hook ->
  hook request response (Marshal_Entry entry) = Some bytes ->
  (exists rt' e,
     RoundTripper.writeEntry rt request response entry = Returns (rt', e) /\
     HarWriter.WriteEntry (as_HarWriter rt) (Some bytes) = (as_HarWriter rt', e) /\
     RoundTripper.inner rt' = RoundTripper.inner rt /\
     RoundTripper.opts rt' = RoundTripper.opts rt) /\
  (exists rt' e,
     RoundTripper.Close rt = (rt', e) /\
     HarWriter.Close (as_HarWriter rt)
     = (HarWriter.mk (RoundTripper.first rt') true (RoundTripper.writer rt'), e)) /\
  (exists rt' e,
     RoundTripper.writePreamble rt = (rt', e) /\
     HarWriter.NewHarWriter (RoundTripper.writer rt)
       (Options.Creator (RoundTripper.opts rt))
     = (match e with
        | None => Some (HarWriter.mk true false (RoundTripper.writer rt'))
        | Some _ => None
        end, e, RoundTripper.writer rt')).
Proof.
  intros O Hk. split; [|split].
  - unfold RoundTripper.writeEntry, HarWriter.WriteEntry, as_HarWriter.
    rewrite O, Hk. cbn [HarWriter.closed HarWriter.first HarWriter.writer raw_bytes].
    destruct (if negb (RoundTripper.first rt) then _ else _) as [w1 [e1|]].
    + do 2 eexists. repeat split.
    + destruct (sink_Write w1 bytes) as [w2 [e2|]]; do 2 eexists; repeat split.
  - unfold RoundTripper.Close, HarWriter.Close, as_HarWriter.
    cbn [HarWriter.closed HarWriter.first HarWriter.writer].
    destruct (sink_Write (RoundTripper.writer rt) closing) as [w1 [e1|]];
      do 2 eexists; repeat split.
  - unfold RoundTripper.writePreamble, HarWriter.NewHarWriter.
    destruct (sink_Write (RoundTripper.writer rt) preamble_head) as [w1 [e1|]];
      [do 2 eexists; repeat split|].
    destruct (sink_Write w1 _) as [w2 [e2|]]; [do 2 eexists; repeat split|].
    destruct (sink_Write w2 _) as [w3 [e3|]]; do 2 eexists; repeat split.
Qed.

End WriterSessions.

(** ** round_tripper.go: what pre-capture archives *)

Section PreCapture.
Context `{GoRuntime}.

Lemma length_flat_map_sum {A B : Type} (f : A -> list B) (l : list A) :
  length (flat_map f l) = list_sum (map (fun x => length (f x)) l).
Proof.
  induction l as [|x l IH]; [reflexivity|].
  cbn [flat_map map]. rewrite length_app, IH. reflexivity.
Qed.

(** X7.  [toHARNVP] gives one pair for each value of each key, and nothing
    else, whatever the order the map is visited in: a pair [(k, v)] is in the
    result exactly when [v] is one of the values under [k] (a key with no
    value gives no pair), and the result has as many pairs as the map has
    values. *)
Theorem toHARNVP_pairs (vs : url.Values) :
  (forall k v,
      In (NVP.mk k v) (RoundTripper.toHARNVP vs)
      <-> exists values, In (k, values) vs /\ In v values) /\
  length (RoundTripper.toHARNVP vs)
  = list_sum (map (fun kv => length (snd kv)) vs).
Proof.
  unfold RoundTripper.toHARNVP. split.
  - intros k v. rewrite in_flat_map. split.
    + intros ([k' values] & I & J). cbn [fst snd] in J.
      apply in_map_iff in J as (s & [= <- <-] & J).
      exists values. split; [|exact J].
      exact (Permutation_in _ (range_Permutation _ vs) I).
    + intros (values & I & J). exists (k, values). split.
      * exact (Permutation_in _ (Permutation_sym (range_Permutation _ vs)) I).
      * cbn [fst snd]. now apply in_map.
  - rewrite length_flat_map_sum.
    transitivity (list_sum (map (fun kv : string * list string => length (snd kv))
                              (range vs))).
    + f_equal. apply map_ext. intros kv. apply length_map.
    + generalize (range_Permutation _ vs).
      generalize (range vs). intros l P.
      induction P as [|x l l' P IH|x y l|l l' l'' P1 IH1 P2 IH2];
        cbn [map list_sum fold_right].
      * reflexivity.
      * unfold list_sum in IH. now rewrite IH.
      * lia.
      * congruence.
Qed.

Lemma parsePostForm_keeps (r r1 : http.Request.t) pf e :
  parsePostForm r = (r1, pf, e) ->
  http.Request.Method r1 = http.Request.Method r /\
  http.Request.URL r1 = http.Request.URL r /\
  http.Request.Proto r1 = http.Request.Proto r /\
  http.Request.Header r1 = http.Request.Header r /\
  http.Request.GetBody r1 = http.Request.GetBody r /\
  http.Request.Form r1 = http.Request.Form r /\
  (http.Request.Body r1 = None <-> http.Request.Body r = None).
Proof.
  unfold parsePostForm.
  destruct (http.Request.Body r) as [body|] eqn:B.
  - destruct (ParseMediaType _) as [ct err].
    destruct (String.eqb ct _).
    + destruct (ReadAll_limited _ body) as [[b e1] body'].
      assert (K : forall x y, (http.Request.with_Body r (Some body'), x, y) = (r1, pf, e) ->
                  http.Request.Method r1 = http.Request.Method r /\
                  http.Request.URL r1 = http.Request.URL r /\
                  http.Request.Proto r1 = http.Request.Proto r /\
                  http.Request.Header r1 = http.Request.Header r /\
                  http.Request.GetBody r1 = http.Request.GetBody r /\
                  http.Request.Form r1 = http.Request.Form r /\
                  (http.Request.Body r1 = None <-> Some body = None)).
      { intros x y [= <- _ _]. cbn. repeat split; discriminate. }
      destruct e1 as [e1|]; [apply K|].
      destruct (N.ltb _ _); [apply K|].
      destruct (url.ParseQuery b). apply K.
    + intros [= <- _ _]. rewrite B. repeat split; discriminate.
  - intros [= <- _ _]. rewrite B. repeat split; reflexivity.
Qed.

Lemma ParseForm_keeps (r r1 : http.Request.t) e :
  ParseForm r = (r1, e) ->
  http.Request.Method r1 = http.Request.Method r /\
  http.Request.URL r1 = http.Request.URL r /\
  http.Request.Proto r1 = http.Request.Proto r /\
  http.Request.Header r1 = http.Request.Header r /\
  http.Request.GetBody r1 = http.Request.GetBody r /\
  (http.Request.Body r1 = None <-> http.Request.Body r = None).
Proof.
  unfold ParseForm.
  assert (K : forall r0 pf err,
             http.Request.Method r0 = http.Request.Method r /\
             http.Request.URL r0 = http.Request.URL r /\
             http.Request.Proto r0 = http.Request.Proto r /\
             http.Request.Header r0 = http.Request.Header r /\
             http.Request.GetBody r0 = http.Request.GetBody r /\
             (http.Request.Body r0 = None <-> http.Request.Body r = None) ->
             match http.Request.Form r0 with
             | Some form => (http.Request.with_forms r0 (Some form) (Some pf), err)
             | None =>
                 let (newValues, e0) := url.ParseQuery (url.RawQuery (http.Request.URL r0)) in
                 let form :=
                   match pf with
                   | [] => newValues
                   | _ => copyValues (copyValues [] pf) newValues
                   end in
                 (http.Request.with_forms r0 (Some form) (Some pf), first_error err e0)
             end = (r1, e) ->
             http.Request.Method r1 = http.Request.Method r /\
             http.Request.URL r1 = http.Request.URL r /\
             http.Request.Proto r1 = http.Request.Proto r /\
             http.Request.Header r1 = http.Request.Header r /\
             http.Request.GetBody r1 = http.Request.GetBody r /\
             (http.Request.Body r1 = None <-> http.Request.Body r = None)).
  { intros r0 pf err I.
    destruct (http.Request.Form r0); [|destruct (url.ParseQuery _)];
      intros [= <- _]; exact I. }
  destruct (http.Request.PostForm r) as [pf|].
  - apply K. repeat split; tauto.
  - destruct (_ || _).
    + destruct (parsePostForm r) as [[r0 pf] err] eqn:P.
      apply K. apply parsePostForm_keeps in P. tauto.
    + apply K. repeat split; tauto.
Qed.

Lemma capture_body_keeps (r r' : http.Request.t) (bytes : string) result body :
  http.Request.Body r = Some body ->
  RoundTripper.capture_body r bytes = (r', result) ->
  http.Request.Method r' = http.Request.Method r /\
  http.Request.URL r' = http.Request.URL r /\
  http.Request.Proto r' = http.Request.Proto r /\
  http.Request.Header r' = http.Request.Header r /\
  http.Request.GetBody r' = http.Request.GetBody r /\
  http.Request.Body r' <> None.
Proof.
  intros B. unfold RoundTripper.capture_body.
  assert (R : http.Request.Body r <> None) by (rewrite B; discriminate).
  destruct (ParseMediaType _) as [mediaType [err|]].
  { intros [= <- _]. repeat split; assumption. }
  destruct (String.eqb mediaType "application/x-www-form-urlencoded").
  { destruct (ParseForm r) as [r1 [err|]] eqn:P;
      apply ParseForm_keeps in P; destruct P as (M & U & P & Hd & G & Bd);
      intros [= <- _]; cbn; repeat split; try assumption; try discriminate.
    intros N. apply R, Bd, N. }
  destruct (String.eqb mediaType "multipart/form-data").
  { destruct (ParseMultipartForm r) as [form|err];
      intros [= <- _]; cbn; repeat split; try assumption; discriminate. }
  intros [= <- _]. repeat split; assumption.
Qed.

(** X8.  The request [preRoundTrip] leaves for the transport, on success or
    on error, is the caller's in method, URL, protocol version, headers and
    [GetBody], and it has a body exactly when the caller's had one: only the
    body reader and the parsed forms may differ. *)
Theorem preRoundTrip_keeps_request (r r' : http.Request.t) entry entry' e :
  RoundTripper.preRoundTrip r entry = Returns (r', entry', e) ->
  http.Request.Method r' = http.Request.Method r /\
  http.Request.URL r' = http.Request.URL r /\
  http.Request.Proto r' = http.Request.Proto r /\
  http.Request.Header r' = http.Request.Header r /\
  http.Request.GetBody r' = http.Request.GetBody r /\
  (http.Request.Body r' = None <-> http.Request.Body r = None).
Proof.
  unfold RoundTripper.preRoundTrip.
  destruct (http.Request.Body r) as [body|] eqn:B.
  - destruct (http.Request.GetBody r) as [[reqBody|err]|] eqn:G; [| |discriminate].
    + destruct (http.ReadAll reqBody) as [[bytes [err|]] rd].
      * intros [= <- _ _]. rewrite B, G. repeat split; discriminate.
      * destruct (RoundTripper.capture_body r bytes) as [r1 [postData|err]] eqn:C;
          apply (capture_body_keeps _ _ _ _ _ B) in C;
          destruct C as (M & U & P & Hd & Gb & Bd);
          intros [= <- _ _]; rewrite G in Gb;
          repeat split; try assumption; try discriminate; intros N; now apply Bd in N.
    + intros [= <- _ _]. rewrite B, G. repeat split; discriminate.
  - intros [= <- _ _]. rewrite B. repeat split; reflexivity.
Qed.

(** X9.  What a successful [preRoundTrip] archives.  The entry now has a
    request that carries the caller's method, URL and protocol version and
    the header size [-1]; the rest of the entry is untouched.  Without a
    body, the request has no [PostData], its body size is [-1] and the
    request goes on as it came.  With a body, [PostData] is present: its
    text is what the copy returned by [GetBody] holds, which was read
    without error, its MIME type is the [Content-Type] header as sent, and
    the body size is the number of bytes of that text. *)
Theorem preRoundTrip_archives (r r' : http.Request.t) entry entry' :
  RoundTripper.preRoundTrip r entry = Returns (r', entry', None) ->
  exists request,
    entry' = Entry.mk (Entry.StartedDateTime entry) (Entry.Time entry)
                      (Some request) (Entry.Response entry) (Entry.Timings entry) /\
    Request.Method request = http.Request.Method r /\
    Request.URL request = url.String_ (http.Request.URL r) /\
    Request.HTTPVersion request = http.Request.Proto r /\
    Request.HeadersSize request = (-1)%Z /\
    match http.Request.Body r with
    | None =>
        Request.PostData request = None /\
        Request.BodySize request = (-1)%Z /\
        r' = r
    | Some _ =>
        exists copy postData,
          http.Request.GetBody r = Some (inl copy) /\
          http.failure copy = None /\
          Request.PostData request = Some postData /\
          PostData.Text postData = http.data copy /\
          PostData.MimeType postData
          = http.Header_Get (http.Request.Header r) "Content-Type" /\
          Request.BodySize request = Z.of_nat (String.length (http.data copy))
    end.
Proof.
  intros P. pose proof (preRoundTrip_keeps_request _ _ _ _ _ P) as (M & U & V & _).
  revert P. unfold RoundTripper.preRoundTrip.
  destruct (http.Request.Body r) as [body|] eqn:B.
  - destruct (http.Request.GetBody r) as [[reqBody|err]|] eqn:G; try discriminate.
    unfold http.ReadAll.
    destruct (http.failure reqBody) as [err|] eqn:F; [discriminate|].
    destruct (RoundTripper.capture_body r (http.data reqBody)) as [r1 [postData|err]] eqn:C;
      [|discriminate].
    intros [= -> <-]. eexists. split; [reflexivity|].
    cbn [Request.Method Request.URL Request.HTTPVersion Request.HeadersSize
         Request.PostData Request.BodySize].
    rewrite M, U, V. repeat split.
    exists reqBody, postData. repeat split; try assumption.
    + revert C. unfold RoundTripper.capture_body.
      destruct (ParseMediaType _) as [mediaType [err|]]; [discriminate|].
      destruct (String.eqb mediaType "application/x-www-form-urlencoded").
      { destruct (ParseForm r) as [r2 [err|]]; [discriminate|].
        intros [= _ <-]. reflexivity. }
      destruct (String.eqb mediaType "multipart/form-data").
      { destruct (ParseMultipartForm r) as [form|err]; [|discriminate].
        intros [= _ <-]. reflexivity. }
      intros [= _ <-]. reflexivity.
    + revert C. unfold RoundTripper.capture_body.
      destruct (ParseMediaType _) as [mediaType [err|]]; [discriminate|].
      destruct (String.eqb mediaType "application/x-www-form-urlencoded").
      { destruct (ParseForm r) as [r2 [err|]]; [discriminate|].
        intros [= _ <-]. reflexivity. }
      destruct (String.eqb mediaType "multipart/form-data").
      { destruct (ParseMultipartForm r) as [form|err]; [|discriminate].
        intros [= _ <-]. reflexivity. }
      intros [= _ <-]. reflexivity.
  - intros [= -> <-]. eexists. split; [reflexivity|]. cbn. repeat split.
Qed.

(** X10.  When [preRoundTrip] returns an error, the request had a body, the
    entry is as it was (no request was attached to it), and the error wraps
    its cause under the name of the step that failed, one of five: getting
    the body, reading it, parsing the [Content-Type], parsing the urlencoded
    form, parsing the multipart form.  A request without a body never fails
    pre-capture. *)
Theorem preRoundTrip_error (r r' : http.Request.t) entry entry' e :
  RoundTripper.preRoundTrip r entry = Returns (r', entry', Some e) ->
  entry' = entry /\
  http.Request.Body r <> None /\
  exists step cause, e = wrapError step cause /\ In step preRoundTrip_steps.
Proof.
  unfold RoundTripper.preRoundTrip, preRoundTrip_steps.
  destruct (http.Request.Body r) as [body|] eqn:B; [|discriminate].
  destruct (http.Request.GetBody r) as [[reqBody|err]|]; [| |discriminate].
  - destruct (http.ReadAll reqBody) as [[bytes [err|]] rd].
    + intros [= _ <- <-]. split; [reflexivity|]. split; [discriminate|].
      do 2 eexists. split; [reflexivity|]. cbn. tauto.
    + destruct (RoundTripper.capture_body r bytes) as [r1 [postData|err]] eqn:C;
        [discriminate|].
      intros [= _ <- <-]. split; [reflexivity|]. split; [discriminate|].
      revert C. unfold RoundTripper.capture_body.
      destruct (ParseMediaType _) as [mediaType [merr|]].
      { intros [= _ <-]. do 2 eexists. split; [reflexivity|]. cbn. tauto. }
      destruct (String.eqb mediaType "application/x-www-form-urlencoded").
      { destruct (ParseForm r) as [r2 [ferr|]]; [|discriminate].
        intros [= _ <-]. do 2 eexists. split; [reflexivity|]. cbn. tauto. }
      destruct (String.eqb mediaType "multipart/form-data").
      { destruct (ParseMultipartForm r) as [form|perr]; [discriminate|].
        intros [= _ <-]. do 2 eexists. split; [reflexivity|]. cbn. tauto. }
      discriminate.
  - intros [= _ <- <-]. split; [reflexivity|]. split; [discriminate|].
    do 2 eexists. split; [reflexivity|]. cbn. tauto.
Qed.

(** X11.  A body that is no form (its media type is neither
    [application/x-www-form-urlencoded] nor [multipart/form-data]: JSON,
    plain text, bytes) is archived as text only, with an empty list of
    parameters, and the request goes to the transport exactly as it came,
    its body reader included. *)
Theorem opaque_body_is_text_only (r r' : http.Request.t) entry entry' body mediaType :
  http.Request.Body r = Some body ->
  ParseMediaType (http.Header_Get (http.Request.Header r) "Content-Type")
  = (mediaType, None) ->
  mediaType <> "application/x-www-form-urlencoded" ->
  mediaType <> "multipart/form-data" ->
  RoundTripper.preRoundTrip r entry = Returns (r', entry', None) ->
  r' = r /\
  exists copy,
    http.Request.GetBody r = Some (inl copy) /\
    RoundTripper.archived_postData entry'
    = Some (PostData.mk (http.Header_Get (http.Request.Header r) "Content-Type")
                        [] (http.data copy)).
Proof.
  intros B M N1 N2. apply String.eqb_neq in N1. apply String.eqb_neq in N2.
  unfold RoundTripper.preRoundTrip, RoundTripper.capture_body, http.ReadAll.
  rewrite B, M, N1, N2.
  destruct (http.Request.GetBody r) as [[copy|err]|]; try discriminate.
  destruct (http.failure copy); [discriminate|].
  intros [= <- <-]. split; [reflexivity|]. exists copy. split; reflexivity.
Qed.

(** X12.  A multipart form: the parameters archived are the fields of the
    form, each with its value, together with the files of the form, each
    with its file name and the [Content-Type] of its part and an empty
    value; the fields come first, and within each group the parameters are
    those of the form up to the order the maps are visited in.  The request
    goes on with the parsed form and a fresh reader over the bytes. *)
Theorem multipart_form_params (r r' : http.Request.t) entry entry' body form :
  http.Request.Body r = Some body ->
  ParseMediaType (http.Header_Get (http.Request.Header r) "Content-Type")
  = ("multipart/form-data", None) ->
  ParseMultipartForm r = inl form ->
  RoundTripper.preRoundTrip r entry = Returns (r', entry', None) ->
  exists copy postData values files,
    http.Request.GetBody r = Some (inl copy) /\
    RoundTripper.archived_postData entry' = Some postData /\
    PostData.Params postData = (values ++ files)%list /\
    Permutation values (RoundTripper.fields (http.Form_Value form)) /\
    Permutation files (file_fields (http.Form_File form)) /\
    http.Request.MultipartForm r' = Some form /\
    http.Request.Body r' = Some (http.NopCloser_Buffer (http.data copy)).
Proof.
  intros B M F.
  unfold RoundTripper.preRoundTrip, RoundTripper.capture_body, http.ReadAll.
  rewrite B, M, F.
  destruct (http.Request.GetBody r) as [[copy|err]|]; try discriminate.
  destruct (http.failure copy); [discriminate|].
  cbn [String.eqb Ascii.eqb Bool.eqb].
  intros [= <- <-].
  exists copy. eexists. exists (RoundTripper.value_params (http.Form_Value form)).
  exists (RoundTripper.file_params (http.Form_File form)).
  repeat split.
  - apply value_params_fields.
  - unfold RoundTripper.file_params, file_fields.
    apply Permutation_flat_map, range_Permutation.
Qed.

End PreCapture.

(** ** round_tripper.go: what an exchange returns and leaves behind *)

Section Exchanges.
Context `{GoRuntime}.

(** X13.  After a successful [RoundTrip] the caller can read the response:
    the response returned is the transport's with a fresh body, open, that
    reads without error to the very bytes the transport's body held; status,
    protocol version, headers and content length are the transport's. *)
Theorem RoundTrip_response_replays (rt : RoundTripper.t) request w res :
  RoundTripper.RoundTrip rt request w = Returns res ->
  RoundTripper.err res = None ->
  exists request' transportResponse trace response,
    RoundTripper.inner rt request' (newClientTracer (clock (ticks w)))
    = (Some transportResponse, None, trace) /\
    RoundTripper.response res = Some response /\
    fst (http.ReadAll (http.Response.Body response))
    = (http.data (http.Response.Body transportResponse), None) /\
    http.isClosed (http.Response.Body response) = false /\
    http.Response.Status response = http.Response.Status transportResponse /\
    http.Response.StatusCode response = http.Response.StatusCode transportResponse /\
    http.Response.Proto response = http.Response.Proto transportResponse /\
    http.Response.Header response = http.Response.Header transportResponse /\
    http.Response.ContentLength response
    = http.Response.ContentLength transportResponse.
Proof.
  intros R E.
  destruct (RoundTrip_success _ _ _ _ R E)
    as (request' & entry0 & resp0 & trace & resp1 & entry1 & _ & I & Q & _ & S).
  destruct (postRoundTrip_ok _ _ _ _ _ _ _ Q) as (mediaType & _ & _ & -> & _).
  exists request', resp0, trace. eexists. split; [exact I|]. split; [exact S|].
  repeat split.
Qed.

Lemma saturate_small (d : Z) :
  (0 <= d)%Z -> (GoTime.saturate d < GoTime.maxDuration)%Z -> GoTime.saturate d = d.
Proof.
  unfold GoTime.saturate, GoTime.minDuration, GoTime.maxDuration.
  destruct (d <? - 2 ^ 63)%Z eqn:A; [lia|].
  destruct (2 ^ 63 - 1 <? d)%Z eqn:B; [lia|]. reflexivity.
Qed.

Lemma saturate_within (d : Z) :
  (0 <= d <= GoTime.maxDuration)%Z -> GoTime.saturate d = d.
Proof.
  unfold GoTime.saturate, GoTime.minDuration, GoTime.maxDuration.
  intros [A B].
  destruct (d <? - 2 ^ 63)%Z eqn:C; [lia|].
  destruct (2 ^ 63 - 1 <? d)%Z eqn:D; [lia|]. reflexivity.
Qed.

Lemma timings_of_add_up (tr : clientTracer) :
  stamped tr = true ->
  RoundTripper.chronological tr ->
  GoTime.IsZero (connStart tr) = false ->
  (GoTime.Sub (endAt tr) (startAt tr) < GoTime.maxDuration)%Z ->
  GoTime.Sub (endAt tr) (startAt tr)
  = (Timings.Blocked (RoundTripper.timings_of tr)
     + Timings.Connect (RoundTripper.timings_of tr)
     + Timings.Send (RoundTripper.timings_of tr)
     + Timings.Wait (RoundTripper.timings_of tr)
     + Timings.Receive (RoundTripper.timings_of tr))%Z.
Proof.
  intros St Ch Z T.
  unfold RoundTripper.timings_of. rewrite Z.
  cbn [negb Timings.Blocked Timings.Connect Timings.Send Timings.Wait Timings.Receive].
  revert St Ch T.
  unfold stamped, has_mono, RoundTripper.chronological, GoTime.le, GoTime.Sub.
  destruct (GoTime.mono (startAt tr)) as [m0|]; try discriminate.
  destruct (GoTime.mono (connStart tr)) as [m1|]; try discriminate.
  destruct (GoTime.mono (connObtained tr)) as [m2|]; try discriminate.
  destruct (GoTime.mono (writeRequest tr)) as [m3|]; try discriminate.
  destruct (GoTime.mono (firstResponseByte tr)) as [m4|]; try discriminate.
  destruct (GoTime.mono (endAt tr)) as [m5|]; try discriminate.
  intros _ (L1 & L2 & L3 & L4 & L5 & _) T.
  pose proof (saturate_small (m5 - m0) ltac:(lia) T) as S.
  rewrite S in *.
  rewrite !saturate_within by lia. lia.
Qed.

(** X14.  The phases add up.  When the six instants of a trace (start,
    connection asked for, connection obtained, request written, first byte,
    end) were all stamped with the monotonic clock, in that order, and the
    total time is below the largest duration, the entry's time is the sum
    of its blocked, connect, send, wait and receive timings.  (DNS and
    TLS are parts of the connect phase and not summed.) *)
Theorem timings_add_up (resp resp' : http.Response.t) entry entry' trace w w' :
  RoundTripper.postRoundTrip resp entry trace w = (resp', entry', w', None) ->
  let tr := with_endAt trace (clock (ticks w)) in
  stamped tr = true ->
  RoundTripper.chronological tr ->
  GoTime.IsZero (connStart tr) = false ->
  (Entry.Time entry' < GoTime.maxDuration)%Z ->
  exists t,
    Entry.Timings entry' = Some t /\
    Entry.Time entry'
    = (Timings.Blocked t + Timings.Connect t + Timings.Send t
       + Timings.Wait t + Timings.Receive t)%Z.
Proof.
  intros K tr.
  assert (E : Entry.Time entry' = GoTime.Sub (endAt tr) (startAt tr) /\
              Entry.Timings entry' = Some (RoundTripper.timings_of tr)).
  { revert K. unfold RoundTripper.postRoundTrip, http.ReadAll.
    destruct (http.failure (http.Response.Body resp)) as [e|]; [discriminate|].
    destruct (ParseMediaType _) as [mediaType [e|]]; [discriminate|].
    destruct (HasPrefix mediaType "text/"); cbn [RoundTripper.time_Now];
      intros [= _ <- _]; split; reflexivity. }
  destruct E as [E1 E2]. rewrite E1.
  intros St Ch Z T. eexists. split; [exact E2|].
  now apply timings_of_add_up.
Qed.

(** X15.  [RoundTrip] panics in two cases only, for a round tripper whose
    hook is set (as [New] sets it): the request has a body and a nil
    [GetBody], or pre-capture succeeded and the transport then returned
    neither a response nor an error.  (The request has a URL and a response
    has a body, as the types here have it; the hook, the transport and the
    sink are functions, which return.) *)
Theorem RoundTrip_panics_iff (rt : RoundTripper.t) hook request w :
  Options.Rewrite (RoundTripper.opts rt) = Some hook ->
  (exists why, RoundTripper.RoundTrip rt request w = Panics why)
  <->
  (http.Request.Body request <> None /\ http.Request.GetBody request = None) \/
  (exists request' entry trace,
      RoundTripper.preRoundTrip request Entry.empty = Returns (request', entry, None) /\
      RoundTripper.inner rt request' (newClientTracer (clock (ticks w)))
      = (None, None, trace)).
Proof.
  intros O. split.
  - intros [why R].
    destruct (RoundTripper.preRoundTrip request Entry.empty)
      as [[[request' entry0] [e|]]|why'] eqn:P.
    + rewrite (RoundTrip_pre_error _ _ _ _ _ _ P) in R. discriminate.
    + right. rewrite (RoundTrip_sends _ _ _ _ _ P) in R. cbv zeta in R.
      destruct (RoundTripper.inner rt request' _) as [[[resp0|] [e|]] trace] eqn:I;
        try discriminate.
      * destruct (RoundTripper.postRoundTrip resp0 entry0 trace _)
          as [[[resp1 entry1] w1] [e|]]; [discriminate|].
        revert R. unfold RoundTripper.writeEntry. rewrite O.
        destruct (hook _ _ _); [|discriminate].
        destruct (if negb (RoundTripper.first rt) then _ else _) as [w1' [e1|]];
          [discriminate|].
        destruct (sink_Write w1' _) as [w2 [e2|]]; discriminate.
      * exists request', entry0, trace. split; [reflexivity | exact I].
    + left. revert P. unfold RoundTripper.preRoundTrip.
      destruct (http.Request.Body request) as [body|]; [|discriminate].
      destruct (http.Request.GetBody request) as [[reqBody|err]|]; try discriminate.
      * destruct (http.ReadAll reqBody) as [[bytes [err|]] rd]; [discriminate|].
        destruct (RoundTripper.capture_body request bytes) as [r1 [pd|err]]; discriminate.
      * intros _. split; [discriminate | reflexivity].
  - intros [[B G]|(request' & entry & trace & P & I)].
    + destruct (http.Request.Body request) as [body|] eqn:B'; [|contradiction].
      eexists. exact (RoundTrip_nil_GetBody rt request body w B' G).
    + rewrite (RoundTrip_sends _ _ _ _ _ P). cbv zeta. rewrite I.
      eexists. reflexivity.
Qed.

Lemma postRoundTrip_ticks (resp resp' : http.Response.t) entry entry' trace w w' e :
  RoundTripper.postRoundTrip resp entry trace w = (resp', entry', w', e) ->
  ticks w <= ticks w' <= S (ticks w).
Proof.
  unfold RoundTripper.postRoundTrip.
  destruct (http.ReadAll _) as [[bytes [e1|]] rd].
  - intros [= _ _ <- _]. lia.
  - destruct (ParseMediaType _) as [mediaType [e2|]].
    + intros [= _ _ <- _]. lia.
    + destruct (if HasPrefix mediaType "text/" then _ else _).
      cbn [RoundTripper.time_Now]. intros [= _ _ <- _]. cbn. lia.
Qed.

Lemma writeEntry_keeps (rt rt' : RoundTripper.t) request response entry e :
  RoundTripper.writeEntry rt request response entry = Returns (rt', e) ->
  RoundTripper.inner rt' = RoundTripper.inner rt /\
  RoundTripper.opts rt' = RoundTripper.opts rt /\
  exists out,
    written (RoundTripper.writer rt') = written (RoundTripper.writer rt) ++ out.
Proof.
  assert (R : forall s : string, exists out, s = s ++ out)
    by (intros s; exists ""; now rewrite append_nil_r).
  unfold RoundTripper.writeEntry.
  destruct (Options.Rewrite (RoundTripper.opts rt)) as [hook|]; [|discriminate].
  destruct (hook _ _ _) as [bytes|]; [|intros [= <- _]; repeat split; apply R].
  destruct (negb (RoundTripper.first rt)).
  - destruct (sink_Write (RoundTripper.writer rt) separator) as [w1 [e1|]] eqn:S1.
    + intros [= <- _]. repeat split. exact (sink_Write_grows _ _ _ _ S1).
    + destruct (sink_Write w1 bytes) as [w2 [e2|]] eqn:S2;
        intros [= <- _]; repeat split;
        exact (grows_trans _ _ _ (sink_Write_grows _ _ _ _ S1)
                 (sink_Write_grows _ _ _ _ S2)).
  - destruct (sink_Write (RoundTripper.writer rt) bytes) as [w2 [e2|]] eqn:S2;
      intros [= <- _]; repeat split; exact (sink_Write_grows _ _ _ _ S2).
Qed.

(** X16.  What [RoundTrip] never does.  It calls the transport at most
    once, with the request it returns beside the result; when it did not call
    it, it returns an error and no response and leaves the round tripper as
    it was.  It reads the clock at most twice, it changes neither the
    transport nor the options of the round tripper, and it only appends to
    the sink. *)
Theorem RoundTrip_never_retries (rt : RoundTripper.t) request w res :
  RoundTripper.RoundTrip rt request w = Returns res ->
  ((sent (RoundTripper.res_world res) = sent w /\
    RoundTripper.response res = None /\
    RoundTripper.res_rt res = rt /\
    exists e, RoundTripper.err res = Some e) \/
   sent (RoundTripper.res_world res) = RoundTripper.res_request res :: sent w) /\
  ticks w <= ticks (RoundTripper.res_world res) <= ticks w + 2 /\
  RoundTripper.inner (RoundTripper.res_rt res) = RoundTripper.inner rt /\
  RoundTripper.opts (RoundTripper.res_rt res) = RoundTripper.opts rt /\
  exists out,
    written (RoundTripper.writer (RoundTripper.res_rt res))
    = written (RoundTripper.writer rt) ++ out.
Proof.
  assert (R : forall s : string, exists out, s = s ++ out)
    by (intros s; exists ""; now rewrite append_nil_r).
  destruct (RoundTripper.preRoundTrip request Entry.empty)
    as [[[request' entry0] [e|]]|why'] eqn:P.
  - rewrite (RoundTrip_pre_error _ _ _ _ _ _ P). intros [= <-]. cbn.
    split; [left; repeat split; now exists e|].
    split; [lia|]. split; [reflexivity|]. split; [reflexivity | apply R].
  - rewrite (RoundTrip_sends _ _ _ _ _ P). cbv zeta.
    destruct (RoundTripper.inner rt request' _) as [[[resp0|] [e|]] trace] eqn:I.
    + intros [= <-]. cbn. split; [now right|].
      split; [lia|]. split; [reflexivity|]. split; [reflexivity | apply R].
    + destruct (RoundTripper.postRoundTrip resp0 entry0 trace _)
        as [[[resp1 entry1] w1] e] eqn:Q.
      pose proof (postRoundTrip_sent _ _ _ _ _ _ _ _ Q) as Sq.
      pose proof (postRoundTrip_ticks _ _ _ _ _ _ _ _ Q) as Tq.
      cbn [sent ticks] in Sq, Tq.
      destruct e as [e|].
      * intros [= <-]. cbn. split; [now right|].
        split; [lia|]. split; [reflexivity|]. split; [reflexivity | apply R].
      * destruct (RoundTripper.writeEntry rt request' resp1 entry1)
          as [[rt' e]|why] eqn:W; [|discriminate].
        destruct (writeEntry_keeps _ _ _ _ _ _ W) as (Wi & Wo & Ww).
        intros [= <-]. cbn. split; [now right|].
        split; [lia|]. split; [exact Wi|]. split; [exact Wo | exact Ww].
    + intros [= <-]. cbn. split; [now right|].
      split; [lia|]. split; [reflexivity|]. split; [reflexivity | apply R].
    + discriminate.
  - unfold RoundTripper.RoundTrip. rewrite P. discriminate.
Qed.

(** X18.  What a successful [postRoundTrip] archives besides the content's
    text.  The entry keeps its request and now has a response with the
    transport's status code, status line and protocol version, the
    [Location] header as redirect URL and the header size [-1].  The body
    size and the content's size are both the declared content length of the
    response, whatever number of bytes was read; the compression is [0].
    The entry starts at the start of the trace, and the clock was read
    once. *)
Theorem postRoundTrip_archives (resp resp' : http.Response.t) entry entry' trace w w' :
  RoundTripper.postRoundTrip resp entry trace w = (resp', entry', w', None) ->
  exists response content,
    Entry.Response entry' = Some response /\
    Response.Content response = Some content /\
    Response.Status response = http.Response.StatusCode resp /\
    Response.StatusText response = http.Response.Status resp /\
    Response.HTTPVersion response = http.Response.Proto resp /\
    Response.RedirectURL response
    = http.Header_Get (http.Response.Header resp) "Location" /\
    Response.HeadersSize response = (-1)%Z /\
    Response.BodySize response = http.Response.ContentLength resp /\
    Content.Size content = http.Response.ContentLength resp /\
    Content.Compression content = 0%Z /\
    Content.MimeType content
    = http.Header_Get (http.Response.Header resp) "Content-Type" /\
    Entry.Request entry' = Entry.Request entry /\
    Entry.StartedDateTime entry' = startAt trace /\
    w' = mkWorld (S (ticks w)) (sent w).
Proof.
  unfold RoundTripper.postRoundTrip, http.ReadAll.
  destruct (http.failure (http.Response.Body resp)) as [e|]; [discriminate|].
  cbn [http.Response.with_Body http.Response.Header http.Response.StatusCode
       http.Response.Status http.Response.Proto http.Response.ContentLength].
  destruct (ParseMediaType _) as [mediaType [e|]]; [discriminate|].
  destruct (HasPrefix mediaType "text/"); cbn [RoundTripper.time_Now];
    intros [= _ <- <-]; do 2 eexists; repeat split.
Qed.

End Exchanges.

(** ** round_tripper.go: a session *)

Section Session.
Context `{GoRuntime}.

Lemma separated_app (first : bool) (a b : list string) :
  separated first (a ++ b)%list
  = separated first a
    ++ separated (first && match a with [] => true | _ => false end) b.
Proof.
  destruct a as [|x a]; cbn [app separated].
  - now rewrite andb_true_r.
  - rewrite andb_false_r, !append_assoc. do 2 f_equal.
    clear x. induction a as [|y a IH]; cbn [app separated]; [reflexivity|].
    now rewrite IH, !append_assoc.
Qed.

Lemma RoundTripper_writeEntry_healthy (rt : RoundTripper.t) hook request response entry :
  Options.Rewrite (RoundTripper.opts rt) = Some hook ->
  healthy (RoundTripper.writer rt) ->
  RoundTripper.writeEntry rt request response entry
  = Returns
      (match hook request response (Marshal_Entry entry) with
       | None => rt
       | Some bytes =>
           RoundTripper.with_writer rt false
             (mkSink (written (RoundTripper.writer rt)
                      ++ (if RoundTripper.first rt then "" else separator) ++ bytes) [])
       end, None).
Proof.
  intros O Hw. unfold RoundTripper.writeEntry. rewrite O.
  destruct (hook _ _ _) as [bytes|]; [|reflexivity].
  destruct (RoundTripper.first rt); cbn [negb];
    rewrite (sink_Write_healthy _ _ Hw); cbn [sink_Write script written];
    [reflexivity | now rewrite append_assoc].
Qed.

Lemma committed_app hook (a b : list RoundTripper.exchange) :
  RoundTripper.committed hook (a ++ b)%list
  = (RoundTripper.committed hook a ++ RoundTripper.committed hook b)%list.
Proof. unfold RoundTripper.committed. apply flat_map_app. Qed.

Lemma committed_length hook (xs : list RoundTripper.exchange) :
  length (RoundTripper.committed hook xs) <= length xs /\
  (never_suppresses hook -> length (RoundTripper.committed hook xs) = length xs).
Proof.
  unfold RoundTripper.committed.
  induction xs as [|x xs [IH1 IH2]]; cbn [flat_map length]; [split; [lia | reflexivity]|].
  rewrite length_app.
  destruct (hook _ _ _) as [bytes|] eqn:Hk; cbn [length].
  - split; [lia|]. intros Nv. rewrite (IH2 Nv). reflexivity.
  - split; [lia|]. intros Nv. destruct (Nv _ _ _ Hk).
Qed.

(** One exchange on a sink that accepts every write: what is written is
    what the hook made of the exchange that reached [writeEntry], and there
    is such an exchange exactly when the call returns no error. *)
Lemma RoundTrip_step (rt : RoundTripper.t) hook request w res :
  Options.Rewrite (RoundTripper.opts rt) = Some hook ->
  healthy (RoundTripper.writer rt) ->
  RoundTripper.RoundTrip rt request w = Returns res ->
  let xs := reached (exchange_of rt request w) in
  Options.Rewrite (RoundTripper.opts (RoundTripper.res_rt res)) = Some hook /\
  healthy (RoundTripper.writer (RoundTripper.res_rt res)) /\
  written (RoundTripper.writer (RoundTripper.res_rt res))
  = written (RoundTripper.writer rt)
    ++ separated (RoundTripper.first rt) (RoundTripper.committed hook xs) /\
  RoundTripper.first (RoundTripper.res_rt res)
  = RoundTripper.first rt
    && match RoundTripper.committed hook xs with [] => true | _ => false end /\
  map RoundTripper.ex_request xs
  = map RoundTripper.res_request (filter succeeded [res]) /\
  map (fun x => Some (RoundTripper.ex_response x)) xs
  = map RoundTripper.response (filter succeeded [res]).
Proof.
  intros O Hw. cbv zeta.
  assert (Same : forall request0 w0 response0 e,
             Options.Rewrite
               (RoundTripper.opts
                  (RoundTripper.res_rt
                     (RoundTripper.mkResult rt request0 w0 response0 (Some e))))
             = Some hook /\
             healthy (RoundTripper.writer
                        (RoundTripper.res_rt
                           (RoundTripper.mkResult rt request0 w0 response0 (Some e)))) /\
             written (RoundTripper.writer
                        (RoundTripper.res_rt
                           (RoundTripper.mkResult rt request0 w0 response0 (Some e))))
             = written (RoundTripper.writer rt)
               ++ separated (RoundTripper.first rt) (RoundTripper.committed hook []) /\
             RoundTripper.first
               (RoundTripper.res_rt
                  (RoundTripper.mkResult rt request0 w0 response0 (Some e)))
             = RoundTripper.first rt
               && match RoundTripper.committed hook [] with [] => true | _ => false end /\
             map RoundTripper.ex_request []
             = map RoundTripper.res_request
                 (filter succeeded
                    [RoundTripper.mkResult rt request0 w0 response0 (Some e)]) /\
             map (fun x => Some (RoundTripper.ex_response x)) []
             = map RoundTripper.response
                 (filter succeeded
                    [RoundTripper.mkResult rt request0 w0 response0 (Some e)])).
  { intros request0 w0 response0 e. cbn.
    rewrite append_nil_r, andb_true_r. repeat split; assumption. }
  unfold exchange_of.
  destruct (RoundTripper.preRoundTrip request Entry.empty)
    as [[[request' entry0] [e|]]|why'] eqn:P.
  - rewrite (RoundTrip_pre_error _ _ _ _ _ _ P). intros [= <-]. apply Same.
  - rewrite (RoundTrip_sends _ _ _ _ _ P). cbv zeta.
    destruct (RoundTripper.inner rt request' _) as [[[resp0|] [e|]] trace] eqn:I.
    + intros [= <-]. apply Same.
    + destruct (RoundTripper.postRoundTrip resp0 entry0 trace _)
        as [[[resp1 entry1] w1] [e|]] eqn:Q.
      * intros [= <-]. apply Same.
      * rewrite (RoundTripper_writeEntry_healthy _ _ _ _ _ O Hw).
        intros [= <-].
        cbn [reached RoundTripper.committed flat_map RoundTripper.ex_request
             RoundTripper.ex_response RoundTripper.ex_entry map filter succeeded
             RoundTripper.err RoundTripper.res_rt RoundTripper.res_request
             RoundTripper.response].
        destruct (hook request' resp1 (Marshal_Entry entry1)) as [bytes|] eqn:Hk.
        -- split; [exact O|]. split; [reflexivity|].
           cbn. rewrite append_nil_r, andb_false_r. repeat split.
        -- split; [exact O|]. split; [exact Hw|].
           cbn. rewrite append_nil_r, andb_true_r. repeat split.
    + intros [= <-]. apply Same.
    + discriminate.
  - unfold RoundTripper.RoundTrip. rewrite P. discriminate.
Qed.

Lemma RoundTrips_written (requests : list http.Request.t) (rt rt' : RoundTripper.t)
    hook w w' results :
  Options.Rewrite (RoundTripper.opts rt) = Some hook ->
  healthy (RoundTripper.writer rt) ->
  RoundTrips rt requests w = Returns (rt', w', results) ->
  healthy (RoundTripper.writer rt') /\
  length results = length requests /\
  written (RoundTripper.writer rt')
  = written (RoundTripper.writer rt)
    ++ separated (RoundTripper.first rt)
         (RoundTripper.committed hook (session_exchanges rt requests w)) /\
  map RoundTripper.ex_request (session_exchanges rt requests w)
  = map RoundTripper.res_request (filter succeeded results) /\
  map (fun x => Some (RoundTripper.ex_response x)) (session_exchanges rt requests w)
  = map RoundTripper.response (filter succeeded results).
Proof.
  revert rt rt' w w' results.
  induction requests as [|r rest IH]; intros rt rt' w w' results O Hw;
    cbn [RoundTrips session_exchanges].
  - intros [= <- <- <-]. split; [exact Hw|]. split; [reflexivity|].
    cbn. rewrite append_nil_r. repeat split.
  - destruct (RoundTripper.RoundTrip rt r w) as [res|why] eqn:R; [|discriminate].
    destruct (RoundTrips _ rest _) as [[[rt1 w1] results1]|why] eqn:Rs; [|discriminate].
    intros [= <- <- <-].
    destruct (RoundTrip_step _ _ _ _ _ O Hw R) as (O1 & H1 & W1 & F1 & Q1 & P1).
    destruct (IH _ _ _ _ _ O1 H1 Rs) as (H2 & Ln & W2 & Q2 & P2).
    split; [exact H2|]. split; [cbn; now rewrite Ln|].
    rewrite committed_app, !map_app, Q1, P1, Q2, P2.
    rewrite W2, W1, F1, separated_app, append_assoc.
    split; [reflexivity|].
    cbn [filter]. destruct (succeeded res); split; reflexivity.
Qed.

Lemma New_keeps_healthy roundTripper (s s' : Sink) o (rt : RoundTripper.t) :
  healthy s ->
  RoundTripper.New roundTripper s o = (Some rt, None, s') ->
  healthy (RoundTripper.writer rt).
Proof.
  intros Hs. unfold RoundTripper.New.
  destruct (Options.Creator _) as [creator|]; [|discriminate].
  destruct (String.eqb (Creator.Name creator) ""); [discriminate|].
  destruct (String.eqb (Creator.Version creator) ""); [discriminate|].
  unfold RoundTripper.writePreamble.
  cbn [RoundTripper.writer RoundTripper.opts RoundTripper.first].
  rewrite (sink_Write_healthy _ _ Hs). cbn [sink_Write script written].
  intros [= <- _]. reflexivity.
Qed.

(** X17.  A whole session on a sink that accepts every write: [New], then
    any number of calls of [RoundTrip], whatever each returned, then
    [Close].  [Close] succeeds and the sink holds, after what it held, the
    framed archive of these entries, in this order: for each call that
    returned no error, what the hook returned for the request that call
    forwarded, the response it returned and the bytes of the entry it
    captured, when that is not nil.  The calls that failed left nothing in
    it: the archive has at most one entry for each call that returned no
    error, and exactly one when the hook never returns nil. *)
Theorem RoundTrip_session roundTripper (s s' : Sink) o (rt0 rt1 : RoundTripper.t) hook
    (requests : list http.Request.t) w w' results :
  healthy s ->
  RoundTripper.New roundTripper s o = (Some rt0, None, s') ->
  Options.Rewrite (RoundTripper.opts rt0) = Some hook ->
  RoundTrips rt0 requests w = Returns (rt1, w', results) ->
  let xs := session_exchanges rt0 requests w in
  let entries := RoundTripper.committed hook xs in
  exists rt2,
    RoundTripper.Close rt1 = (rt2, None) /\
    framed_archive (Marshal_Creator (Options.Creator (RoundTripper.opts rt0)))
                   entries (written s) (written (RoundTripper.writer rt2)) /\
    length results = length requests /\
    map RoundTripper.ex_request xs
    = map RoundTripper.res_request (filter succeeded results) /\
    map (fun x => Some (RoundTripper.ex_response x)) xs
    = map RoundTripper.response (filter succeeded results) /\
    length entries <= successes results /\
    (never_suppresses hook -> length entries = successes results).
Proof.
  intros Hs N O Rs xs entries.
  pose proof (New_keeps_healthy _ _ _ _ _ Hs N) as H0.
  destruct (New_ok _ _ _ _ _ N) as (F0 & _ & _ & W0).
  destruct (RoundTrips_written _ _ _ _ _ _ _ O H0 Rs) as (H1 & Ln & W1 & Q & P).
  fold xs in W1, Q, P. fold entries in W1.
  assert (Lx : length xs = successes results).
  { unfold successes. rewrite <- (length_map RoundTripper.ex_request xs), Q.
    apply length_map. }
  destruct (committed_length hook xs) as [L1 L2]. fold entries in L1, L2.
  unfold RoundTripper.Close. rewrite (sink_Write_healthy _ _ H1).
  eexists. split; [reflexivity|].
  cbn [RoundTripper.with_writer RoundTripper.writer written].
  rewrite W1, W0, F0, separated_Join.
  split; [|split; [exact Ln|split; [exact Q|split; [exact P|split]]]].
  - match goal with
    | |- framed_archive ?c _ _ ?now =>
        replace now with (written s ++ archive_bytes c entries)
          by (unfold archive_bytes; now rewrite !append_assoc)
    end.
    apply framed_archive_intro.
  - lia.
  - intros Nv. rewrite (L2 Nv). exact Lx.
Qed.

End Session.

(** ** round_tripper.go: after [Close], and when the sink fails *)

Section Unguarded.
Context `{GoRuntime}.

(** X19.  The round tripper's [Close] is no end: it keeps no record of
    having been called.  On a sink that accepts every write, [writeEntry]
    after [Close] succeeds and its entry lands after the closing bytes, and a
    second [Close] succeeds and writes the closing bytes again. *)
Theorem RoundTripper_Close_is_not_final (rt : RoundTripper.t) hook
    request response entry bytes :
  healthy (RoundTripper.writer rt) ->
  Options.Rewrite (RoundTripper.opts rt) = Some hook ->
  hook request response (Marshal_Entry entry) = Some bytes ->
  exists rt1 rt2 rt3,
    RoundTripper.Close rt = (rt1, None) /\
    RoundTripper.writeEntry rt1 request response entry = Returns (rt2, None) /\
    RoundTripper.Close rt2 = (rt3, None) /\
    written (RoundTripper.writer rt3)
    = written (RoundTripper.writer rt) ++ closing
      ++ (if RoundTripper.first rt then "" else separator) ++ bytes ++ closing.
Proof.
  intros Hw O Hk.
  unfold RoundTripper.Close at 1. rewrite (sink_Write_healthy _ _ Hw).
  eexists. eexists. eexists. split; [reflexivity|].
  rewrite (RoundTripper_writeEntry_healthy _ hook) by (exact O || reflexivity).
  rewrite Hk. split; [reflexivity|].
  unfold RoundTripper.Close.
  cbn [RoundTripper.with_writer RoundTripper.writer RoundTripper.first
       RoundTripper.inner RoundTripper.opts sink_Write script written].
  split; [reflexivity|].
  cbn [RoundTripper.writer written]. now rewrite !append_assoc.
Qed.

(** X20.  The exchange went well and the sink then refuses the write of
    the entry (or of the separator before it): [RoundTrip] returns the
    response together with the sink's error wrapped as "writing har entry".
    The sink keeps the bytes it accepted of the refused write, and [first]
    is cleared even when it was the first entry that failed, so that the next
    entry is written after a separator. *)
Theorem RoundTrip_write_failure (rt : RoundTripper.t) hook request request'
    entry0 resp0 trace resp1 entry1 w w2 bytes k cause later :
  RoundTripper.preRoundTrip request Entry.empty = Returns (request', entry0, None) ->
  RoundTripper.inner rt request' (newClientTracer (clock (ticks w)))
  = (Some resp0, None, trace) ->
  RoundTripper.postRoundTrip resp0 entry0 trace
    (mkWorld (S (ticks w)) (request' :: sent w))
  = (resp1, entry1, w2, None) ->
  Options.Rewrite (RoundTripper.opts rt) = Some hook ->
  hook request' resp1 (Marshal_Entry entry1) = Some bytes ->
  script (RoundTripper.writer rt) = Some (k, cause) :: later ->
  exists rt',
    RoundTripper.RoundTrip rt request w
    = Returns (RoundTripper.mkResult rt' request' w2 (Some resp1)
                 (Some (wrapError "writing har entry" cause))) /\
    RoundTripper.first rt' = false /\
    script (RoundTripper.writer rt') = later /\
    written (RoundTripper.writer rt')
    = written (RoundTripper.writer rt)
      ++ firstn_bytes k (if RoundTripper.first rt then bytes else separator).
Proof.
  intros P I Q O Hk Sc.
  rewrite (RoundTrip_sends _ _ _ _ _ P). cbv zeta. rewrite I, Q.
  unfold RoundTripper.writeEntry. rewrite O, Hk.
  destruct (RoundTripper.first rt) eqn:F; cbn [negb];
    unfold sink_Write; rewrite Sc; eexists; (split; [reflexivity|]);
    cbn; rewrite ?F; repeat split.
Qed.

End Unguarded.

(** ** The further properties on examples *)

Section FurtherExamples.
Import Example.

(** X1 on an example: a creator without a name. *)
Lemma New_rejects_example :
  RoundTripper.New None (Buffer "") (Some (Options.mk None (Some (Creator.mk "" "0.1"))))
  = (None, Some (errorString "Options.Creator.Name cannot be empty"), Buffer "").
Proof.
  exact (@New_rejects_empty_creator runtime None (Buffer "") None
           (Creator.mk "" "0.1") (or_introl eq_refl)).
Defined.

(** X2 on an example: no transport and no options. *)
Lemma New_succeeds_example :
  exists rt,
    RoundTripper.New None (Buffer "") None = (Some rt, None, RoundTripper.writer rt) /\
    RoundTripper.first rt = true /\
    written (RoundTripper.writer rt)
    = "" ++ preamble_head
      ++ Marshal_Creator (Some (Creator.mk "github.com/aidansteele/har" "0.1"))
      ++ preamble_tail.
Proof.
  destruct (@New_succeeds runtime None (Buffer "") None
              (Creator.mk "github.com/aidansteele/har" "0.1")
              eq_refl eq_refl ltac:(discriminate) ltac:(discriminate))
    as (rt & N & _ & _ & _ & F & _ & W).
  exists rt. split; [exact N|]. split; [exact F | exact W].
Defined.

(** X3 on an example: a client that goes on after closing. *)
Lemma HarWriter_run_example :
  exists w' errs,
    HarWriter_run (HarWriter.mk true false (Buffer "")) example_calls = (w', errs) /\
    HarWriter.closed w' = true /\
    length errs = 4.
Proof.
  do 2 eexists. split; [reflexivity|].
  destruct (HarWriter_run_invariants example_calls
              (HarWriter.mk true false (Buffer "")) _ _ eq_refl)
    as (L & _ & C & _).
  split; [exact C | exact L].
Defined.

(** X4 on the same calls: the archive holds the entry written before the
    first [Close]. *)
Lemma HarWriter_session_example :
  exists w0 w1 errs,
    HarWriter.NewHarWriter (Buffer "") (Some example_creator)
    = (Some w0, None, HarWriter.writer w0) /\
    HarWriter_run w0 example_calls = (w1, errs) /\
    framed_archive (Marshal_Creator (Some example_creator)) ["{}"]
                   "" (written (HarWriter.writer w1)).
Proof.
  destruct (@HarWriter_session runtime (Buffer "") (Some example_creator) eq_refl)
    as (w0 & N & K).
  exists w0.
  destruct (HarWriter_run w0 example_calls) as [w1 errs] eqn:R.
  exists w1, errs. split; [exact N|]. split; [reflexivity|].
  exact (K _ _ _ R eq_refl).
Defined.

(** X5 on an example: two entries. *)
Lemma HarNDWriter_example :
  exists w',
    HarNDWriter_WriteEntries (HarNDWriter.NewHarNDWriter (Buffer ""))
      [Some "{}"; Some "[1]"] = (w', None) /\
    written (HarNDWriter.writer w') = "" ++ terminated ["{}"; "[1]"] /\
    lines (terminated ["{}"; "[1]"]) = ["{}"; "[1]"].
Proof.
  eexists. split; [reflexivity|].
  destruct (HarNDWriter_lines [Some "{}"; Some "[1]"]
              (HarNDWriter.NewHarNDWriter (Buffer "")) _ eq_refl) as [W L].
  split; [exact W | exact (L eq_refl)].
Defined.

(** X6 on an example: a second entry. *)
Lemma frames_like_HarWriter_example :
  let rt := round_tripper offline identity_hook false "{}" in
  exists rt' e,
    RoundTripper.writeEntry rt get_request hello_response Entry.empty
    = Returns (rt', e) /\
    HarWriter.WriteEntry (as_HarWriter rt) (Marshal_Entry Entry.empty)
    = (as_HarWriter rt', e).
Proof.
  assert (Hk : identity_hook get_request hello_response (Marshal_Entry Entry.empty)
               = Some (raw_bytes (Marshal_Entry Entry.empty))) by reflexivity.
  destruct (@round_tripper_frames_like_HarWriter runtime
              (round_tripper offline identity_hook false "{}") identity_hook
              get_request hello_response Entry.empty _ eq_refl Hk)
    as [(rt' & e & W & S & _) _].
  exists rt', e. split; [exact W | exact S].
Defined.

(** X8 on an example: a urlencoded form, which [ParseForm] reads. *)
Lemma preRoundTrip_keeps_request_example :
  let r := request_with_body "POST" "application/x-www-form-urlencoded" "a=1" in
  exists r' entry',
    RoundTripper.preRoundTrip r Entry.empty = Returns (r', entry', None) /\
    http.Request.Method r' = "POST" /\
    http.Request.Header r' = content_type "application/x-www-form-urlencoded".
Proof.
  do 2 eexists. split; [reflexivity|].
  destruct (@preRoundTrip_keeps_request runtime
              (request_with_body "POST" "application/x-www-form-urlencoded" "a=1")
              _ Entry.empty _ _ eq_refl) as (M & _ & _ & Hd & _).
  split; [exact M | exact Hd].
Defined.

(** X9 on an example: five bytes of plain text. *)
Lemma preRoundTrip_archives_example :
  exists r' entry' request,
    RoundTripper.preRoundTrip (request_with_body "POST" "text/plain" "hello") Entry.empty
    = Returns (r', entry', None) /\
    Entry.Request entry' = Some request /\
    Request.Method request = "POST" /\
    Request.HeadersSize request = (-1)%Z.
Proof.
  do 2 eexists.
  destruct (@preRoundTrip_archives runtime
              (request_with_body "POST" "text/plain" "hello")
              _ Entry.empty _ eq_refl) as (request & E & M & _ & _ & Hs & _).
  exists request. split; [reflexivity|].
  split; [exact (f_equal Entry.Request E)|]. split; [exact M | exact Hs].
Defined.

(** X10 on an example: a body and no [Content-Type]. *)
Lemma preRoundTrip_error_example :
  exists r' entry' e,
    RoundTripper.preRoundTrip (request_without_type "hello") Entry.empty
    = Returns (r', entry', Some e) /\
    entry' = Entry.empty /\
    exists step cause, e = wrapError step cause /\ In step preRoundTrip_steps.
Proof.
  do 3 eexists. split; [reflexivity|].
  destruct (@preRoundTrip_error runtime (request_without_type "hello")
              _ Entry.empty _ _ eq_refl) as (E & _ & K).
  split; [exact E | exact K].
Defined.

(** X11 on an example: a JSON body. *)
Lemma opaque_body_example :
  let r := request_with_body "POST" "application/json" "{}" in
  exists r' entry',
    RoundTripper.preRoundTrip r Entry.empty = Returns (r', entry', None) /\
    r' = r /\
    RoundTripper.archived_postData entry'
    = Some (PostData.mk "application/json" [] "{}").
Proof.
  do 2 eexists. split; [reflexivity|].
  destruct (@opaque_body_is_text_only runtime
              (request_with_body "POST" "application/json" "{}")
              _ Entry.empty _ (http.NopCloser_Buffer "{}") "application/json"
              eq_refl eq_refl ltac:(discriminate) ltac:(discriminate) eq_refl)
    as (E & copy & G & P).
  split; [exact E|]. injection G as <-. exact P.
Defined.

(** X12 on an example: a form with one field and one file. *)
Lemma multipart_form_example :
  exists r' entry' postData,
    @RoundTripper.preRoundTrip multipart_runtime
      (request_with_body "POST" "multipart/form-data" "hello") Entry.empty
    = Returns (r', entry', None) /\
    RoundTripper.archived_postData entry' = Some postData /\
    Permutation (PostData.Params postData)
      [Param.mk "title" "report" "" "";
       Param.mk "upload" "" "report.pdf" "application/pdf"].
Proof.
  do 2 eexists.
  destruct (@multipart_form_params multipart_runtime
              (request_with_body "POST" "multipart/form-data" "hello")
              _ Entry.empty _ (http.NopCloser_Buffer "hello") example_form
              eq_refl eq_refl eq_refl eq_refl)
    as (copy & postData & values & files & _ & A & P & Pv & Pf & _).
  exists postData. split; [reflexivity|]. split; [exact A|].
  rewrite P.
  exact (Permutation_app Pv Pf).
Defined.

(** X13 on an example: the caller reads [hello]. *)
Lemma RoundTrip_response_example :
  let rt := round_tripper (serving hello_response) identity_hook true "" in
  exists res response,
    RoundTripper.RoundTrip rt get_request world0 = Returns res /\
    RoundTripper.response res = Some response /\
    fst (http.ReadAll (http.Response.Body response)) = ("hello", None).
Proof.
  eexists.
  destruct (@RoundTrip_response_replays runtime
              (round_tripper (serving hello_response) identity_hook true "")
              get_request world0 _ eq_refl eq_refl)
    as (request' & resp0 & trace & response & I & S & Rd & _).
  exists response. split; [reflexivity|]. split; [exact S|].
  injection I as <- _. exact Rd.
Defined.

(** X14 on an example: the exchange on a reused connection, five
    milliseconds from start to end. *)
Lemma timings_add_up_example :
  exists resp' entry' w' t,
    RoundTripper.postRoundTrip hello_response Entry.empty reused_connection_trace
      (mkWorld 5 [])
    = (resp', entry', w', None) /\
    Entry.Timings entry' = Some t /\
    Entry.Time entry' = 5000000%Z /\
    Entry.Time entry'
    = (Timings.Blocked t + Timings.Connect t + Timings.Send t
       + Timings.Wait t + Timings.Receive t)%Z.
Proof.
  do 3 eexists.
  destruct (@timings_add_up runtime hello_response _ Entry.empty _
              reused_connection_trace (mkWorld 5 []) _ eq_refl eq_refl)
    as (t & T & S).
  - unfold RoundTripper.chronological, GoTime.le. cbn. lia.
  - reflexivity.
  - reflexivity.
  - exists t. split; [reflexivity|]. split; [exact T|]. split; [reflexivity | exact S].
Defined.

(** X15 on an example: a body and a nil [GetBody]. *)
Lemma RoundTrip_panics_example :
  exists why,
    RoundTripper.RoundTrip (round_tripper (serving hello_response) identity_hook true "")
      request_nil_GetBody world0
    = Panics why.
Proof.
  apply (proj2 (@RoundTrip_panics_iff runtime
                  (round_tripper (serving hello_response) identity_hook true "")
                  identity_hook request_nil_GetBody world0 eq_refl)).
  left. split; [discriminate | reflexivity].
Defined.

(** X16 on an example: a transport with no network is called once. *)
Lemma RoundTrip_never_retries_example :
  let rt := round_tripper offline identity_hook true "" in
  exists res,
    RoundTripper.RoundTrip rt get_request world0 = Returns res /\
    ticks world0 <= ticks (RoundTripper.res_world res) <= ticks world0 + 2 /\
    RoundTripper.opts (RoundTripper.res_rt res) = RoundTripper.opts rt.
Proof.
  eexists. split; [reflexivity|].
  destruct (@RoundTrip_never_retries runtime
              (round_tripper offline identity_hook true "")
              get_request world0 _ eq_refl) as (_ & T & _ & O & _).
  split; [exact T | exact O].
Defined.

(** X17 on an example: three calls, of which the second fails before the
    transport is reached; the archive has the entries of the two others. *)
Lemma RoundTrip_session_example :
  let requests := [get_request; request_without_type "x"; get_request] in
  exists rt0 s' rt1 w' results rt2,
    RoundTripper.New (Some (serving hello_response)) (Buffer "") None
    = (Some rt0, None, s') /\
    RoundTrips rt0 requests world0 = Returns (rt1, w', results) /\
    RoundTripper.Close rt1 = (rt2, None) /\
    framed_archive (Marshal_Creator (Options.Creator (RoundTripper.opts rt0)))
                   (RoundTripper.committed (fun _ _ entry => entry)
                      (session_exchanges rt0 requests world0))
                   "" (written (RoundTripper.writer rt2)) /\
    length (RoundTripper.committed (fun _ _ entry => entry)
              (session_exchanges rt0 requests world0)) = 2.
Proof.
  intros requests. do 5 eexists.
  destruct (@RoundTrip_session runtime (Some (serving hello_response))
              (Buffer "") _ None _ _ (fun _ _ entry => entry) requests
              world0 _ _ eq_refl eq_refl eq_refl eq_refl)
    as (rt2 & C & F & _ & _ & _ & _ & E).
  exists rt2.
  split; [reflexivity|]. split; [reflexivity|]. split; [exact C|]. split; [exact F|].
  refine (E _). intros request response entry. discriminate.
Defined.

(** X18 on an example. *)
Lemma postRoundTrip_archives_example :
  exists resp' entry' w' response,
    RoundTripper.postRoundTrip hello_response Entry.empty reused_connection_trace
      (mkWorld 5 [])
    = (resp', entry', w', None) /\
    Entry.Response entry' = Some response /\
    Response.Status response = 200%Z /\
    Response.BodySize response = 5%Z.
Proof.
  do 3 eexists.
  destruct (@postRoundTrip_archives runtime hello_response _ Entry.empty _
              reused_connection_trace (mkWorld 5 []) _ eq_refl)
    as (response & content & R & _ & S & _ & _ & _ & _ & B & _).
  exists response. split; [reflexivity|]. split; [exact R|]. split; [exact S | exact B].
Defined.

(** X19 on an example: an entry written after [Close]. *)
Lemma Close_is_not_final_example :
  exists rt1 rt2 rt3,
    RoundTripper.Close (round_tripper offline identity_hook true "") = (rt1, None) /\
    RoundTripper.writeEntry rt1 get_request hello_response Entry.empty
    = Returns (rt2, None) /\
    RoundTripper.Close rt2 = (rt3, None) /\
    written (RoundTripper.writer rt3)
    = "" ++ closing ++ "" ++ raw_bytes (Marshal_Entry Entry.empty) ++ closing.
Proof.
  assert (Hk : identity_hook get_request hello_response (Marshal_Entry Entry.empty)
               = Some (raw_bytes (Marshal_Entry Entry.empty))) by reflexivity.
  exact (@RoundTripper_Close_is_not_final runtime
           (round_tripper offline identity_hook true "") identity_hook
           get_request hello_response Entry.empty _ eq_refl eq_refl Hk).
Defined.

(** X20 on an example: a sink that is full. *)
Lemma RoundTrip_write_failure_example :
  let full := mkSink "" [Some (0, errorString "no space left on device")] in
  let rt := RoundTripper.mk (serving hello_response)
              (Options.mk (Some identity_hook) (Options.Creator DefaultOptions))
              true full in
  exists rt' res,
    RoundTripper.RoundTrip rt get_request world0 = Returns res /\
    RoundTripper.res_rt res = rt' /\
    RoundTripper.response res
    = Some (http.Response.with_Body hello_response (http.NopCloser_Buffer "hello")) /\
    RoundTripper.err res
    = Some (wrapError "writing har entry" (errorString "no space left on device")) /\
    RoundTripper.first rt' = false.
Proof.
  intros full rt.
  destruct (@RoundTrip_write_failure runtime rt identity_hook get_request get_request
              _ hello_response _ _ _ world0 _ _ 0
              (errorString "no space left on device") []
              eq_refl eq_refl eq_refl eq_refl eq_refl eq_refl)
    as (rt' & R & F & _).
  exists rt'. eexists. split; [exact R|].
  split; [reflexivity|]. split; [reflexivity|]. split; [reflexivity | exact F].
Defined.

End FurtherExamples.
